(** * QCFractal: grid-optimization service, task routes and record validators

    A shallow embedding of the parts of QCFractal that drive the
    grid-optimization service
    ([qcfractal/components/records/gridoptimization/sockets.py]), the task
    claim/return routes ([qcfractal/components/tasks/routes.py]), the record
    validators and the cached getters of the record objects
    ([qcfractal/interface/models/records.py]) and the lowercase check
    constraints of migration 88182596f844, up and down.

    Conventions of the embedding:
    - Python [int] is [Z]; a tuple of ints is a [list Z];
    - Python [str] is [string] (code points below 256);
    - Python [float] is [Q] (exact arithmetic, no NaN);
    - a Python [set] that is only tested for membership is a [gset]; a set
      that is iterated is given as the list of its elements in iteration
      order;
    - a function that may raise returns [Res A]; code that mutates ORM
      objects and may raise runs in the monad [M], whose state survives an
      exception, as attribute assignments do in Python. *)

From Stdlib Require Import ZArith QArith Qabs String Ascii List Lia.
From Stdlib Require Import DecimalString DecimalN DecimalPos DecimalFacts.
From stdpp Require Import base decidable option list gmap sets strings.

Open Scope Z_scope.
Set Warnings "-register-all".

(** ** Exceptions and results *)

(** The exceptions that the embedded code can raise. [RuntimeError] carries
    which of the source's [raise RuntimeError(...)] statements fired. *)
Inductive runtime_error :=
  | CannotIterate            (* "... has status ... - cannot iterate!" *)
  | ExpectedOneComplete (n : nat)
      (* "Expected one complete task for preoptimization, but got n" *)
  | StartingMoleculeSet      (* "starting molecule set when it shouldn't be!" *)
  | StartingMoleculeNotSet   (* "starting molecule not set when it should be!" *)
  | ErrorAddingOptimization. (* "Error adding optimization - likely a developer error" *)

Inductive exn :=
  | RuntimeError (e : runtime_error)
  | IndexError
  | KeyError
  | TypeError
  | AttributeError
  | ValueError
  | JSONDecodeError
  | RecursionError
  | LimitExceededError
  | NotModelled.   (* the input leaves the fragment of Python that is embedded *)

Inductive Res (A : Type) :=
  | Ok (a : A)
  | Raise (e : exn).
Arguments Ok {A} a.
Arguments Raise {A} e.

Definition res_bind {A B} (r : Res A) (k : A -> Res B) : Res B :=
  match r with
  | Ok a => k a
  | Raise e => Raise e
  end.

Notation "'try' x <- r ; k" := (res_bind r (fun x => k))
  (at level 10, x name, r at level 100, k at level 200).
Notation "'try' ( x , y ) <- r ; k" :=
  (res_bind r (fun p => let '(x, y) := p in k))
  (at level 10, x name, y name, r at level 100, k at level 200).

(** [for x in xs: acc = body x acc], stopping at the first exception. *)
Fixpoint for_each {A S} (xs : list A) (body : A -> S -> Res S) (acc : S) : Res S :=
  match xs with
  | [] => Ok acc
  | x :: xs' => try acc' <- body x acc; for_each xs' body acc'
  end.

(** ** Grid keys *)

(** A key of the grid-optimization service: a string (["preoptimization"])
    or a grid point, [Union[str, Tuple[int, ...]]]. *)
Inductive key :=
  | KStr (s : string)
  | KTup (t : list Z).

#[global] Instance key_eq_dec : EqDecision key.
Proof. solve_decision. Defined.

#[global] Instance key_countable : Countable key.
Proof.
  refine (inj_countable'
    (fun k => match k with KStr s => inl s | KTup t => inr t end)
    (fun x => match x with inl s => KStr s | inr t => KTup t end) _).
  by intros [].
Defined.

(** ** N-dimensional grid expansion *)

Module Grid.

(** The two accumulators of [expand_ndimensional_grid]:
    the set [compute] and the list [connections]. *)
Definition acc : Type := gset key * list (key * key).

(** Body of the innermost loop, for one axis [d], one [seed] and one
    displacement [disp].  [continue] returns the accumulators unchanged.
    The seeds are what [deserialize_key] returned: on a string, [seed[d]] is
    a character (or an [IndexError]) and [seed[d] + disp] a [TypeError]. *)
Definition visit (dimensions : list Z) (complete : gset key)
    (d : nat) (seed : key) (disp : Z) (a : acc) : Res acc :=
  match seed with
  | KStr s =>
    if bool_decide (d < String.length s)%nat then Raise TypeError
    else Raise IndexError
  | KTup t =>
    match t !! d with
    | None => Raise IndexError                      (* seed[d] *)
    | Some sd =>
      let new_dim := sd + disp in
      match dimensions !! d with
      | None => Raise IndexError                    (* dimensions[d] *)
      | Some dim =>
        if bool_decide (new_dim >= dim) then Ok a
        else if bool_decide (new_dim < 0) then Ok a
        else
          let new := KTup (<[d := new_dim]> t) in
          if bool_decide (new ∈ a.1) then Ok a
          else if bool_decide (new ∈ complete) then Ok a
          else Ok (a.1 ∪ {[ new ]}, a.2 ++ [(seed, new)])
      end
    end
  end.

(** [expand_ndimensional_grid(dimensions, seeds, complete)].  [seeds] is the
    Python set in its iteration order. *)
Definition expand_ndimensional_grid (dimensions : list Z) (seeds : list key)
    (complete : gset key) : Res (list (key * key)) :=
  try a <- for_each (seq 0 (length dimensions)) (fun d =>
             for_each seeds (fun seed =>
               for_each [-1; 1] (fun disp =>
                 visit dimensions complete d seed disp)))
           (∅, []);
  Ok a.2.

(** [k] is a grid point with [0 <= k[d] < dimensions[d]] on every axis [d]
    of the grid. *)
Definition in_bounds (dimensions : list Z) (k : key) : Prop :=
  match k with
  | KStr _ => False
  | KTup t =>
    forall d dim, dimensions !! d = Some dim ->
      exists x, t !! d = Some x /\ 0 <= x < dim
  end.

(** [n] is [s] with exactly the coordinate of one axis moved by one step. *)
Definition one_step (s n : key) : Prop :=
  exists t d x, s = KTup t /\ t !! d = Some x /\
    (n = KTup (<[d := x - 1]> t) \/ n = KTup (<[d := x + 1]> t)).

(** The property of the emitted pairs, as the specification states it. *)
Definition expansion_ok (dimensions : list Z) (seeds : list key)
    (complete : gset key) (pairs : list (key * key)) : Prop :=
  (forall s n, (s, n) ∈ pairs ->
     (s ∈ seeds) /\ in_bounds dimensions n /\ (n ∉ complete) /\ (n ∉ seeds) /\
     one_step s n) /\
  NoDup (pairs.*2).

(** A seed that has a coordinate on axis [d]. *)
Definition has_axis (d : nat) (k : key) : Prop :=
  exists t, k = KTup t /\ is_Some (t !! d).

(** Loop invariant of [expand_ndimensional_grid]: what holds of the
    accumulators after any number of rounds. *)
Definition expand_inv (dimensions : list Z) (seeds : list key)
    (complete : gset key) (a : acc) : Prop :=
  (forall s n, (s, n) ∈ a.2 ->
     (s ∈ seeds) /\ (in_bounds dimensions s -> in_bounds dimensions n) /\
     (n ∉ complete) /\ one_step s n) /\
  NoDup (a.2.*2) /\
  (forall n, n ∈ a.1 <-> n ∈ a.2.*2).

(** Every candidate in [compute] is the neighbour of an emitted pair. *)
Definition candidates_emitted (a : acc) : Prop :=
  forall n, n ∈ a.1 -> n ∈ a.2.*2.

End Grid.

(** ** JSON keys: [json.dumps] and [json.loads]

    The fragment of Python's [json] module that [serialize_key] and
    [deserialize_key] exercise: [null], booleans, integers, strings and
    arrays.  Floats and objects are outside the fragment: the decoder answers
    [NotModelled] on them. *)

Module Json.

Inductive value :=
  | Null
  | Bool (b : bool)
  | Int (z : Z)
  | Str (s : string)
  | Arr (l : list value).

Definition dquote : ascii := "034"%char.
Definition backslash : ascii := "092"%char.

(** *** Encoder ([json.dumps] with its defaults, so [ensure_ascii=True]) *)

Definition hex_digit (n : N) : ascii :=
  match n with
  | 0 => "0" | 1 => "1" | 2 => "2" | 3 => "3" | 4 => "4" | 5 => "5"
  | 6 => "6" | 7 => "7" | 8 => "8" | 9 => "9" | 10 => "a" | 11 => "b"
  | 12 => "c" | 13 => "d" | 14 => "e" | _ => "f"
  end%N%char.

(** [ESCAPE_ASCII] and [ESCAPE_DCT]: the quote, the backslash and everything
    outside [' '..'~'] is escaped. *)
Definition encode_char (c : ascii) : string :=
  let n := N_of_ascii c in
  if Ascii.eqb c dquote then String backslash (String dquote EmptyString)
  else if Ascii.eqb c backslash then String backslash (String backslash EmptyString)
  else if (n =? 10)%N then String backslash "n"
  else if (n =? 13)%N then String backslash "r"
  else if (n =? 9)%N then String backslash "t"
  else if (n =? 12)%N then String backslash "f"
  else if (n =? 8)%N then String backslash "b"
  else if ((32 <=? n) && (n <=? 126))%N then String c EmptyString
  else String backslash
         (String "u" (String "0" (String "0"
           (String (hex_digit (n / 16)) (String (hex_digit (n mod 16)) EmptyString))))).

Fixpoint encode_chars (s : string) : string :=
  match s with
  | EmptyString => EmptyString
  | String c r => encode_char c +:+ encode_chars r
  end.

Definition encode_string (s : string) : string :=
  String dquote (encode_chars s +:+ String dquote EmptyString).

(** [int.__repr__]: decimal digits, with a sign for negative numbers. *)
Definition repr_int (z : Z) : string :=
  match z with
  | Z0 => "0"
  | Zpos p => NilEmpty.string_of_uint (Pos.to_uint p)
  | Zneg p => String "-" (NilEmpty.string_of_uint (Pos.to_uint p))
  end.

(** [sep.join(items)] *)
Fixpoint join (sep : string) (items : list string) : string :=
  match items with
  | [] => EmptyString
  | [x] => x
  | x :: xs => x +:+ sep +:+ join sep xs
  end.

Fixpoint dumps (v : value) : string :=
  match v with
  | Null => "null"
  | Bool true => "true"
  | Bool false => "false"
  | Int z => repr_int z
  | Str s => encode_string s
  | Arr l => "[" +:+ join ", " (map dumps l) +:+ "]"
  end.

(** *** Decoder ([json.loads]) *)

(** [WHITESPACE = [ \t\n\r]*] *)
Definition is_ws (c : ascii) : bool :=
  let n := N_of_ascii c in
  ((n =? 32) || (n =? 9) || (n =? 10) || (n =? 13))%N.

Fixpoint skip_ws (s : string) : string :=
  match s with
  | String c r => if is_ws c then skip_ws r else s
  | EmptyString => s
  end.

Definition hex_value (c : ascii) : option N :=
  let n := N_of_ascii c in
  if ((48 <=? n) && (n <=? 57))%N then Some (n - 48)%N
  else if ((97 <=? n) && (n <=? 102))%N then Some (n - 87)%N
  else if ((65 <=? n) && (n <=? 70))%N then Some (n - 55)%N
  else None.

Definition hex4 (h1 h2 h3 h4 : ascii) : option N :=
  match hex_value h1, hex_value h2, hex_value h3, hex_value h4 with
  | Some a, Some b, Some c, Some d => Some (((a * 16 + b) * 16 + c) * 16 + d)%N
  | _, _, _, _ => None
  end.

(** The table [BACKSLASH] of one-letter escapes. *)
Definition unescape (e : ascii) : option ascii :=
  if Ascii.eqb e dquote then Some dquote
  else if Ascii.eqb e backslash then Some backslash
  else if Ascii.eqb e "/" then Some "/"%char
  else if Ascii.eqb e "b" then Some "008"%char
  else if Ascii.eqb e "f" then Some "012"%char
  else if Ascii.eqb e "n" then Some "010"%char
  else if Ascii.eqb e "r" then Some "013"%char
  else if Ascii.eqb e "t" then Some "009"%char
  else None.

(** [py_scanstring] in strict mode, started after the opening quote; returns
    the decoded string and the input left after the closing quote.  An
    escape [\uXXXX] of a code point from 256 on has no image in [string]. *)
Fixpoint scan_string (s : string) : Res (string * string) :=
  match s with
  | EmptyString => Raise JSONDecodeError
  | String c r =>
    if Ascii.eqb c dquote then Ok (EmptyString, r)
    else if Ascii.eqb c backslash then
      match r with
      | EmptyString => Raise JSONDecodeError
      | String e r1 =>
        if Ascii.eqb e "u" then
          match r1 with
          | String h1 (String h2 (String h3 (String h4 r2))) =>
            match hex4 h1 h2 h3 h4 with
            | None => Raise JSONDecodeError
            | Some n =>
              if (n <? 256)%N then
                try (t, r3) <- scan_string r2; Ok (String (ascii_of_N n) t, r3)
              else Raise NotModelled
            end
          | _ => Raise JSONDecodeError
          end
        else
          match unescape e with
          | Some ch => try (t, r3) <- scan_string r1; Ok (String ch t, r3)
          | None => Raise JSONDecodeError
          end
      end
    else if (N_of_ascii c <? 32)%N then Raise JSONDecodeError
    else try (t, r') <- scan_string r; Ok (String c t, r')
  end.

Definition digit_value (c : ascii) : option N :=
  let n := N_of_ascii c in
  if ((48 <=? n) && (n <=? 57))%N then Some (n - 48)%N else None.

Definition is_digit (c : ascii) : bool :=
  match digit_value c with Some _ => true | None => false end.

(** The digits matched by [\d*], read as a number in base ten. *)
Fixpoint scan_digits (s : string) (acc : N) : N * string :=
  match s with
  | String c r =>
    match digit_value c with
    | Some d => scan_digits r (acc * 10 + d)
    | None => (acc, s)
    end
  | EmptyString => (acc, s)
  end.

(** Does the group [(\.\d+)?] or [([eE][-+]?\d+)?] of [NUMBER_RE] match? *)
Definition starts_frac_or_exp (s : string) : bool :=
  match s with
  | String "." (String c _) => is_digit c
  | String "e" (String c r) | String "E" (String c r) =>
    if is_digit c then true
    else if Ascii.eqb c "-" || Ascii.eqb c "+" then
      match r with String c' _ => is_digit c' | EmptyString => false end
    else false
  | _ => false
  end%char.

(** [NUMBER_RE.match]: an optional sign, then [0] or a digit from 1 to 9
    followed by digits; an integer unless a fraction or an exponent
    follows. *)
Definition scan_number (s : string) : Res (value * string) :=
  let '(neg, s1) :=
    match s with
    | String "-"%char r => (true, r)
    | _ => (false, s)
    end in
  match s1 with
  | EmptyString => Raise JSONDecodeError
  | String c r =>
    if negb (is_digit c) then Raise JSONDecodeError
    else
      let '(n, rest) :=
        if Ascii.eqb c "0" then (0%N, r) else scan_digits s1 0 in
      if starts_frac_or_exp rest then Raise NotModelled
      else Ok (Int (if neg then - Z.of_N n else Z.of_N n), rest)
  end.

Definition strip_prefix (p s : string) : option string :=
  if String.prefix p s
  then Some (String.substring (String.length p) (String.length s - String.length p) s)
  else None.

(** The loop of [JSONArray], entered on the first element; [scan] decodes
    one value.  Each round consumes input, so [String.length] of the input
    is enough fuel. *)
Fixpoint scan_array (scan : string -> Res (value * string)) (fuel : nat)
    (s : string) : Res (list value * string) :=
  match fuel with
  | O => Raise RecursionError
  | S fuel' =>
    try (v, s1) <- scan s;
    match skip_ws s1 with
    | String "]"%char r => Ok ([v], r)
    | String ","%char r =>
      try (vs, r') <- scan_array scan fuel' (skip_ws r);
      Ok (v :: vs, r')
    | _ => Raise JSONDecodeError
    end
  end.

(** [scan_once]; [fuel] bounds the nesting depth of arrays. *)
Fixpoint scan_once (fuel : nat) (s : string) : Res (value * string) :=
  match fuel with
  | O => Raise RecursionError
  | S fuel' =>
    match s with
    | EmptyString => Raise JSONDecodeError
    | String c r =>
      if Ascii.eqb c dquote then
        try (t, r') <- scan_string r; Ok (Str t, r')
      else if Ascii.eqb c "{" then Raise NotModelled
      else if Ascii.eqb c "[" then
        match skip_ws r with
        | String "]"%char r' => Ok (Arr [], r')
        | r1 =>
          try (vs, r') <- scan_array (scan_once fuel') (String.length r1) r1;
          Ok (Arr vs, r')
        end
      else
        match strip_prefix "null" s, strip_prefix "true" s, strip_prefix "false" s with
        | Some r', _, _ => Ok (Null, r')
        | _, Some r', _ => Ok (Bool true, r')
        | _, _, Some r' => Ok (Bool false, r')
        | None, None, None =>
          if String.prefix "NaN" s || String.prefix "Infinity" s
             || String.prefix "-Infinity" s
          then Raise NotModelled
          else scan_number s
        end
    end
  end.

(** [json.loads]: one value between optional whitespace, nothing after. *)
Definition loads (s : string) : Res value :=
  try (v, r) <- scan_once (String.length s) (skip_ws s);
  match skip_ws r with
  | EmptyString => Ok v
  | _ => Raise JSONDecodeError
  end.

End Json.

(** ** Serialized keys *)

Definition key_to_json (k : key) : Json.value :=
  match k with
  | KStr s => Json.Str s
  | KTup t => Json.Arr (map Json.Int t)
  end.

(** [serialize_key(key) = json.dumps(key)] *)
Definition serialize_key (k : key) : string := Json.dumps (key_to_json k).

(** What follows a printed integer inside an array or at the end of the
    input. *)
Definition ends_number (s : string) : Prop :=
  match s with
  | EmptyString => True
  | String c _ => c = ","%char \/ c = "]"%char
  end.

(** The value [scan_digits] reads off the digits of [u], from [acc]. *)
Fixpoint uint_fold (u : Decimal.uint) (acc : N) : N :=
  match u with
  | Decimal.Nil => acc
  | Decimal.D0 u => uint_fold u (acc * 10 + 0)
  | Decimal.D1 u => uint_fold u (acc * 10 + 1)
  | Decimal.D2 u => uint_fold u (acc * 10 + 2)
  | Decimal.D3 u => uint_fold u (acc * 10 + 3)
  | Decimal.D4 u => uint_fold u (acc * 10 + 4)
  | Decimal.D5 u => uint_fold u (acc * 10 + 5)
  | Decimal.D6 u => uint_fold u (acc * 10 + 6)
  | Decimal.D7 u => uint_fold u (acc * 10 + 7)
  | Decimal.D8 u => uint_fold u (acc * 10 + 8)
  | Decimal.D9 u => uint_fold u (acc * 10 + 9)
  end%N.

Definition as_int (v : Json.value) : option Z :=
  match v with Json.Int z => Some z | _ => None end.

(** [deserialize_key]: a JSON string is returned as it is, a JSON array as
    a tuple; [tuple(r)] raises [TypeError] on [None], a [bool] or an [int].
    A tuple with an element that is not an int is no [key]. *)
Definition deserialize_key (s : string) : Res key :=
  try r <- Json.loads s;
  match r with
  | Json.Str t => Ok (KStr t)
  | Json.Arr l =>
    match mapM as_int l with
    | Some t => Ok (KTup t)
    | None => Raise NotModelled
    end
  | _ => Raise TypeError
  end.

(** Every character of [s] is a printable ASCII character, from the
    space to the tilde. *)
Fixpoint printable (s : string) : bool :=
  match s with
  | EmptyString => true
  | String c r =>
    ((32 <=? N_of_ascii c) && (N_of_ascii c <=? 126))%N && printable r
  end.

(** ** The grid-optimization service *)

Module Service.

Module RecordStatusEnum.
Inductive t := complete | invalid | running | error | waiting | cancelled | deleted.
#[global] Instance eq_dec : EqDecision t.
Proof. solve_decision. Defined.
End RecordStatusEnum.

Module StepTypeEnum.
Inductive t := absolute | relative.
End StepTypeEnum.

Module PriorityEnum.
Inductive t := high | normal | low.
End PriorityEnum.

(** [ScanDimension]: one scanned coordinate of the grid. *)
Record ScanDimension := {
  scan_type : string;
  indices : list Z;
  steps : list Q;
  step_type : StepTypeEnum.t;
}.

Record GridoptimizationKeywords := {
  scans : list ScanDimension;
  preoptimization : bool;
}.

(** One entry of the list under [keywords["constraints"]["set"]]; the
    template of [_create_state] has no ["value"] yet. *)
Record Constraint := {
  con_type : string;
  con_indices : list Z;
  con_value : option Q;
}.

(** An optimization specification as [submit_optimizations] handles it: the
    list under [keywords["constraints"]["set"]] (empty when the key is
    absent) and every other field, which the service copies untouched. *)
Record OptimizationInputSpecification (F : Type) := {
  opt_fields : F;
  constraints_set : list Constraint;
}.
Arguments opt_fields {F} _.
Arguments constraints_set {F} _.

(** What the socket needs from the rest of the server: molecules and their
    [measure], the session, [root_socket.records.optimization.add] (which
    answers [(meta.success, opt_ids)]) and the version string. *)
Class RootSocket := {
  Molecule : Type;
  measure : Molecule -> list Z -> Q;
  OptFields : Type;
  Session : Type;
  optimization_add :
    Session -> OptimizationInputSpecification OptFields -> list Molecule ->
    string -> PriorityEnum.t -> Session * (bool * list nat);
  qcfractal_version : string;
}.

(** *** [calculate_starting_grid] *)

(** [numpy.argmin]: the first index of the least element, the scan started
    at index [i] with least element [best] at [best_i]. *)
Fixpoint argmin_from (best_i : nat) (best : Q) (i : nat) (xs : list Q) : nat :=
  match xs with
  | [] => best_i
  | x :: xs' =>
    if Qlt_le_dec x best then argmin_from i x (S i) xs'
    else argmin_from best_i best (S i) xs'
  end.

(** [xs.argmin()]; numpy raises [ValueError] on an empty array. *)
Definition argmin (xs : list Q) : Res nat :=
  match xs with
  | [] => Raise ValueError
  | x :: xs' => Ok (argmin_from 0 x 1 xs')
  end.

(** [np.abs(np.array(steps) - m)] *)
Definition abs_diff (steps : list Q) (m : Q) : list Q :=
  map (fun s => Qabs (s - m)) steps.

(** The reference value [m] of a scan. *)
Definition scan_reference `{RootSocket} (scan : ScanDimension)
    (molecule : Molecule) : Q :=
  match step_type scan with
  | StepTypeEnum.absolute => measure molecule (indices scan)
  | StepTypeEnum.relative => 0
  end.

Definition calculate_starting_grid `{RootSocket} (scans : list ScanDimension)
    (molecule : Molecule) : Res (list Z) :=
  for_each scans (fun scan starting_grid =>
    try idx <- argmin (abs_diff (steps scan) (scan_reference scan molecule));
    Ok (starting_grid ++ [Z.of_nat idx])) [].

(** [i] is the first index at which [|xs[i] - m|] is least. *)
Definition is_argmin (xs : list Q) (m : Q) (i : nat) : Prop :=
  exists x, xs !! i = Some x /\
    (forall j y, xs !! j = Some y -> (Qabs (x - m) <= Qabs (y - m))%Q) /\
    (forall j y, xs !! j = Some y -> (j < i)%nat -> (Qabs (x - m) < Qabs (y - m))%Q).


(** The starting grid as the code computes it: the reference of a relative
    scan is 0. *)
Definition closest_to_reference `{RootSocket} (scans : list ScanDimension)
    (molecule : Molecule) (grid : list Z) : Prop :=
  length grid = length scans /\
  forall d scan, scans !! d = Some scan ->
    exists i, grid !! d = Some (Z.of_nat i) /\
      is_argmin (steps scan) (scan_reference scan molecule) i.

(** [i] is the first index at which [vs] is least. *)
Definition is_first_min (vs : list Q) (i : nat) : Prop :=
  exists v, vs !! i = Some v /\
    (forall j y, vs !! j = Some y -> (v <= y)%Q) /\
    (forall j y, vs !! j = Some y -> (j < i)%nat -> (v < y)%Q).

(** *** The ORM objects *)

(** [GridoptimizationServiceState].  [constraint_template] is kept decoded:
    the source stores [json.dumps] of this list and reads it back with
    [json.loads]. *)
Record GridoptimizationServiceState := {
  iteration : Z;
  complete : list key;
  dimensions : list Z;
  constraint_template : list (string * list Z);
}.

Record Provenance := {
  creator : string;
  version : string;
  routine : string;
}.

(** The texts appended to the service's stdout, one constructor per
    format string of the source. *)
Inductive message :=
  | CreatedGridoptimization (dims : list Z) (preopt : bool) (iter : Z)
  | StartingPreoptimization
  | FoundFinishedPreoptimization
  | StartingFirstIterations
  | FoundOptimizations (n : nat) (keys : list string)
  | SubmittedOptimizations (n : nat)
  | FinishedSuccessfully.

Record ComputeHistoryORM := {
  provenance : option Provenance;
  stdout : list message;
}.

Section ORM.
Context `{RootSocket}.

Record MoleculeORM := {
  molecule_id : nat;
  to_model : Molecule;
}.

(** A row of [service_dependencies] with the part of its [record] that the
    service reads: the final molecule of the child optimization, [None]
    while the child has none. *)
Record ServiceDependenciesORM := {
  record_id : nat;
  extras_key : string;
  record_final_molecule : option MoleculeORM;
}.

Record GridoptimizationOptimizationsORM := {
  optimization_id : nat;
  gridoptimization_id : nat;
  assoc_key : string;
}.

Record GridoptimizationSpecification := {
  program : string;
  keywords : GridoptimizationKeywords;
  optimization_specification : OptimizationInputSpecification OptFields;
}.

(** [starting_molecule] stands for the column [starting_molecule_id] and
    the relationship that follows it. *)
Record GridoptimizationRecordORM := {
  id : nat;
  status : RecordStatusEnum.t;
  specification : GridoptimizationSpecification;
  initial_molecule : MoleculeORM;
  starting_molecule : option MoleculeORM;
  starting_grid : option (list Z);
  compute_history : list ComputeHistoryORM;
  optimizations : list GridoptimizationOptimizationsORM;
}.

Record ServiceQueueORM := {
  service_id : nat;
  record : GridoptimizationRecordORM;
  tag : string;
  priority : PriorityEnum.t;
  service_state : option GridoptimizationServiceState;
  dependencies : list ServiceDependenciesORM;
}.

(** What [iterate_service] reads and writes: the session and the service
    row with its record. *)
Record World := {
  session : Session;
  service_orm : ServiceQueueORM;
}.

Definition go_orm (w : World) : GridoptimizationRecordORM :=
  record (service_orm w).

(** *** Attribute assignment *)

Definition set_service_orm (f : ServiceQueueORM -> ServiceQueueORM) (w : World) : World :=
  {| session := session w; service_orm := f (service_orm w) |}.

Definition set_session (s : Session) (w : World) : World :=
  {| session := s; service_orm := service_orm w |}.

Definition set_record (f : GridoptimizationRecordORM -> GridoptimizationRecordORM)
    (w : World) : World :=
  set_service_orm (fun s =>
    {| service_id := service_id s; record := f (record s); tag := tag s;
       priority := priority s; service_state := service_state s;
       dependencies := dependencies s |}) w.

Definition set_service_state (st : option GridoptimizationServiceState) (w : World) : World :=
  set_service_orm (fun s =>
    {| service_id := service_id s; record := record s; tag := tag s;
       priority := priority s; service_state := st;
       dependencies := dependencies s |}) w.

Definition set_dependencies (ds : list ServiceDependenciesORM) (w : World) : World :=
  set_service_orm (fun s =>
    {| service_id := service_id s; record := record s; tag := tag s;
       priority := priority s; service_state := service_state s;
       dependencies := ds |}) w.

Definition set_status (st : RecordStatusEnum.t) : World -> World :=
  set_record (fun r =>
    {| id := id r; status := st; specification := specification r;
       initial_molecule := initial_molecule r;
       starting_molecule := starting_molecule r;
       starting_grid := starting_grid r;
       compute_history := compute_history r;
       optimizations := optimizations r |}).

Definition set_starting_molecule (m : option MoleculeORM) : World -> World :=
  set_record (fun r =>
    {| id := id r; status := status r; specification := specification r;
       initial_molecule := initial_molecule r;
       starting_molecule := m;
       starting_grid := starting_grid r;
       compute_history := compute_history r;
       optimizations := optimizations r |}).

Definition set_starting_grid (g : option (list Z)) : World -> World :=
  set_record (fun r =>
    {| id := id r; status := status r; specification := specification r;
       initial_molecule := initial_molecule r;
       starting_molecule := starting_molecule r;
       starting_grid := g;
       compute_history := compute_history r;
       optimizations := optimizations r |}).

Definition set_compute_history (h : list ComputeHistoryORM) : World -> World :=
  set_record (fun r =>
    {| id := id r; status := status r; specification := specification r;
       initial_molecule := initial_molecule r;
       starting_molecule := starting_molecule r;
       starting_grid := starting_grid r;
       compute_history := h;
       optimizations := optimizations r |}).

Definition set_optimizations (o : list GridoptimizationOptimizationsORM) : World -> World :=
  set_record (fun r =>
    {| id := id r; status := status r; specification := specification r;
       initial_molecule := initial_molecule r;
       starting_molecule := starting_molecule r;
       starting_grid := starting_grid r;
       compute_history := compute_history r;
       optimizations := o |}).

(** *** The monad of the socket's methods

    A method reads and assigns attributes of the ORM objects and may raise;
    what it assigned before it raised stays assigned. *)

Definition M (A : Type) : Type := World -> World * Res A.

Definition ret {A} (a : A) : M A := fun w => (w, Ok a).

Definition raise {A} (e : exn) : M A := fun w => (w, Raise e).

Definition bind {A B} (m : M A) (k : A -> M B) : M B :=
  fun w =>
    match m w with
    | (w', Ok a) => k a w'
    | (w', Raise e) => (w', Raise e)
    end.

Definition lift {A} (r : Res A) : M A := fun w => (w, r).

Definition gets {A} (f : World -> A) : M A := fun w => (w, Ok (f w)).

Definition modify (f : World -> World) : M unit := fun w => (f w, Ok tt).

End ORM.

Notation "'do' x <- c ; k" := (bind c (fun x => k))
  (at level 10, x name, c at level 100, k at level 200).
Notation "'do' ( x , y , z ) <- c ; k" :=
  (bind c (fun p => let '(x, y, z) := p in k))
  (at level 10, x name, y name, z name, c at level 100, k at level 200).

(** [for x in xs: body x] *)
Fixpoint for_M `{RootSocket} {A} (xs : list A) (body : A -> M unit) : M unit :=
  match xs with
  | [] => ret tt
  | x :: xs' => do _ <- body x; for_M xs' body
  end.

(** *** Python containers *)

(** [d[k] = v] on a dict: the value is replaced in place, a new key goes
    to the end. *)
Fixpoint dict_set {V} (k : string) (v : V) (d : list (string * V)) : list (string * V) :=
  match d with
  | [] => [(k, v)]
  | (k', v') :: d' =>
    if String.eqb k k' then (k, v) :: d' else (k', v') :: dict_set k v d'
  end.

(** [d[k]], a [KeyError] when the key is missing. *)
Fixpoint dict_get {V} (k : string) (d : list (string * V)) : Res V :=
  match d with
  | [] => Raise KeyError
  | (k', v) :: d' => if String.eqb k k' then Ok v else dict_get k d'
  end.

(** [l[i]] on a list, with Python's negative indices. *)
Definition py_index {A} (l : list A) (i : Z) : Res A :=
  let n := Z.of_nat (length l) in
  let j := if bool_decide (i < 0) then i + n else i in
  if bool_decide (0 <= j < n) then
    match l !! Z.to_nat j with
    | Some x => Ok x
    | None => Raise IndexError
    end
  else Raise IndexError.

(** [l[:-1]] and [l[-1]] of a non-empty list. *)
Fixpoint unsnoc {A} (l : list A) : option (list A * A) :=
  match l with
  | [] => None
  | [x] => Some ([], x)
  | x :: l' =>
    match unsnoc l' with
    | Some (init, y) => Some (x :: init, y)
    | None => None
    end
  end.

Section Socket.
Context `{RootSocket}.

(** [go_orm.compute_history[-1].get_output(OutputTypeEnum.stdout).append(output)] *)
Definition append_stdout (output : list message) : M unit :=
  do h <- gets (fun w => compute_history (go_orm w));
  match unsnoc h with
  | None => raise IndexError
  | Some (init, e) =>
    modify (set_compute_history
      (init ++ [{| provenance := provenance e; stdout := stdout e ++ output |}]))
  end.

(** [go_orm.compute_history[-1].provenance = p] *)
Definition set_provenance (p : Provenance) : M unit :=
  do h <- gets (fun w => compute_history (go_orm w));
  match unsnoc h with
  | None => raise IndexError
  | Some (init, e) =>
    modify (set_compute_history
      (init ++ [{| provenance := Some p; stdout := stdout e |}]))
  end.

Definition service_provenance : Provenance := {|
  creator := "qcfractal";
  version := qcfractal_version;
  routine := "qcfractal.services.gridoptimization";
|}.

(** *** [_create_state] *)

Definition _create_state : M GridoptimizationServiceState :=
  do keywords <- gets (fun w => keywords (specification (go_orm w)));
  let constraint_template :=
    map (fun scan => (scan_type scan, indices scan)) (scans keywords) in
  let dimensions := map (fun x => Z.of_nat (length (steps x))) (scans keywords) in
  let iteration := if preoptimization keywords then -2 else 0 in
  do _ <- append_stdout
    [CreatedGridoptimization dimensions (preoptimization keywords) iteration];
  ret {| iteration := iteration;
         complete := [];
         dimensions := dimensions;
         constraint_template := constraint_template |}.

Definition set_iteration (i : Z) (st : GridoptimizationServiceState) :
    GridoptimizationServiceState :=
  {| iteration := i; complete := complete st; dimensions := dimensions st;
     constraint_template := constraint_template st |}.

Definition set_complete (c : list key) (st : GridoptimizationServiceState) :
    GridoptimizationServiceState :=
  {| iteration := iteration st; complete := c; dimensions := dimensions st;
     constraint_template := constraint_template st |}.

(** *** [submit_optimizations] *)

(** [scan_indices[con_num]] followed by [scan["steps"][idx]]: on a string
    key the index is a character, which no list accepts as an index. *)
Definition scan_step (scan_indices : key) (con_num : nat) (scan : ScanDimension) : Res Q :=
  match scan_indices with
  | KStr s =>
    if bool_decide (con_num < String.length s)%nat then Raise TypeError
    else Raise IndexError
  | KTup t =>
    match t !! con_num with
    | None => Raise IndexError
    | Some idx => py_index (steps scan) idx
    end
  end.

(** [constraints[con_num]["value"] = value] *)
Definition set_value (constraints : list Constraint) (con_num : nat) (value : Q) :
    Res (list Constraint) :=
  match constraints !! con_num with
  | None => Raise IndexError
  | Some c =>
    Ok (<[con_num := {| con_type := con_type c; con_indices := con_indices c;
                        con_value := Some value |}]> constraints)
  end.

(** The loop over [enumerate(go_orm.specification.keywords["scans"])]. *)
Definition construct_constraints (st : GridoptimizationServiceState)
    (scans : list ScanDimension) (starting_molecule : Molecule)
    (scan_indices : key) : Res (list Constraint) :=
  for_each (imap (fun con_num scan => (con_num, scan)) scans)
    (fun '(con_num, scan) constraints =>
      try step <- scan_step scan_indices con_num scan;
      let value :=
        match step_type scan with
        | StepTypeEnum.absolute => step
        | StepTypeEnum.relative =>
          (step + measure starting_molecule (indices scan))%Q
        end in
      set_value constraints con_num value)
    (map (fun '(ty, ix) => {| con_type := ty; con_indices := ix; con_value := None |})
       (constraint_template st)).

(** [root_socket.records.optimization.add(spec, [molecule], tag, priority)] *)
Definition add_optimization (spec : OptimizationInputSpecification OptFields)
    (molecule : Molecule) : M (bool * list nat) :=
  fun w =>
    let '(s', r) := optimization_add (session w) spec [molecule]
                      (tag (service_orm w)) (priority (service_orm w)) in
    (set_session s' w, Ok r).

(** The specification submitted for the task [key]. *)
Definition task_specification (st : GridoptimizationServiceState)
    (opt_spec : OptimizationInputSpecification OptFields)
    (scans : list ScanDimension) (starting_molecule : option Molecule)
    (key : string) : Res (OptimizationInputSpecification OptFields) :=
  if String.eqb key "preoptimization" then
    match starting_molecule with
    | Some _ => Raise (RuntimeError StartingMoleculeSet)
    | None => Ok opt_spec
    end
  else
    match starting_molecule with
    | None => Raise (RuntimeError StartingMoleculeNotSet)
    | Some sm =>
      try scan_indices <- deserialize_key key;
      try constraints <- construct_constraints st scans sm scan_indices;
      Ok {| opt_fields := opt_fields opt_spec;
            constraints_set := constraints_set opt_spec ++ constraints |}
    end.

(** The body of the loop over [task_dict.items()]. *)
Definition submit_task (st : GridoptimizationServiceState)
    (opt_spec : OptimizationInputSpecification OptFields)
    (starting_molecule : option Molecule)
    (task : string * Molecule) : M unit :=
  let '(key, molecule) := task in
  do scans <- gets (fun w => scans (keywords (specification (go_orm w))));
  do opt_spec2 <- lift (task_specification st opt_spec scans starting_molecule key);
  do r <- add_optimization opt_spec2 molecule;
  let '(success, opt_ids) := r in
  if negb success then raise (RuntimeError ErrorAddingOptimization)
  else
    match opt_ids with
    | [] => raise IndexError                       (* opt_ids[0] *)
    | opt_id :: _ =>
      do gid <- gets (fun w => id (go_orm w));
      do _ <- modify (fun w => set_dependencies (dependencies (service_orm w) ++
                [{| record_id := opt_id; extras_key := key;
                    record_final_molecule := None |}]) w);
      modify (fun w => set_optimizations (optimizations (go_orm w) ++
                [{| optimization_id := opt_id; gridoptimization_id := gid;
                    assoc_key := key |}]) w)
    end.

Definition submit_optimizations (st : GridoptimizationServiceState)
    (task_dict : list (string * Molecule)) : M unit :=
  do _ <- modify (set_dependencies []);
  do opt_spec <- gets (fun w => optimization_specification (specification (go_orm w)));
  do starting_molecule <- gets (fun w => to_model <$> starting_molecule (go_orm w));
  for_M task_dict (submit_task st opt_spec starting_molecule).

(** *** [iterate_service] *)

(** Lines 499-518: the status check, then the state of a first iteration
    or the state loaded from the [service_state] column. *)
Definition load_state : M GridoptimizationServiceState :=
  do st <- gets (fun w => status (go_orm w));
  if negb (bool_decide (st ∈ [RecordStatusEnum.running; RecordStatusEnum.waiting]))
  then raise (RuntimeError CannotIterate)
  else if bool_decide (st = RecordStatusEnum.waiting) then
    do _ <- modify (set_status RecordStatusEnum.running);
    do service_state <- _create_state;
    do _ <- set_provenance service_provenance;
    ret service_state
  else
    do ss <- gets (fun w => service_state (service_orm w));
    match ss with
    | Some service_state => ret service_state
    | None => raise TypeError        (* no mapping to unpack into the state *)
    end.

(** [dep.record.final_molecule.to_model()] *)
Definition final_molecule (dep : ServiceDependenciesORM) : Res MoleculeORM :=
  match record_final_molecule dep with
  | Some m => Ok m
  | None => Raise AttributeError
  end.

(** The keys of the completed dependencies, deserialized in order. *)
Definition deserialize_keys (deps : list ServiceDependenciesORM) : Res (list key) :=
  for_each deps (fun dep ks =>
    try k <- deserialize_key (extras_key dep); Ok (ks ++ [k])) [].

(** Lines 566-594: the branch of the normal iterations. *)
Definition expand_wave (service_state : GridoptimizationServiceState)
    (complete_deps : list ServiceDependenciesORM) :
    Res (GridoptimizationServiceState * list (string * Molecule) * list message) :=
  try molecule_map <- for_each complete_deps (fun dep molecule_map =>
      try m <- final_molecule dep;
      Ok (dict_set (extras_key dep) (to_model m) molecule_map)) [];
  try seeds <- deserialize_keys complete_deps;
  let complete_seeds : gset key := list_to_set seeds in
  let service_state :=
    set_complete (elements (list_to_set (complete service_state) ∪ complete_seeds))
      service_state in
  try new_points_list <-
    Grid.expand_ndimensional_grid (dimensions service_state)
      (elements complete_seeds) (list_to_set (complete service_state));
  try next_tasks <- for_each new_points_list (fun new_points next_tasks =>
      let old := serialize_key new_points.1 in
      let new := serialize_key new_points.2 in
      try m <- dict_get old molecule_map;
      Ok (dict_set new m next_tasks)) [];
  Ok (service_state, next_tasks,
      [FoundOptimizations (length complete_deps) (map extras_key complete_deps)]).

(** Lines 520-594: from the state to the tasks of the next wave, the
    mutated state and the text for stdout. *)
Definition next_wave (service_state : GridoptimizationServiceState) :
    M (GridoptimizationServiceState * list (string * Molecule) * list message) :=
  if bool_decide (iteration service_state = -2) then
    do initial <- gets (fun w => initial_molecule (go_orm w));
    ret (set_iteration (-1) service_state,
         dict_set "preoptimization" (to_model initial) [],
         [StartingPreoptimization])
  else if bool_decide (iteration service_state = -1) then
    do complete_deps <- gets (fun w => dependencies (service_orm w));
    match complete_deps with
    | [dep] =>
      do final <- lift (final_molecule dep);
      let starting_molecule := to_model final in
      do _ <- modify (set_starting_molecule (Some final));
      do scans <- gets (fun w => scans (keywords (specification (go_orm w))));
      do grid <- lift (calculate_starting_grid scans starting_molecule);
      do _ <- modify (set_starting_grid (Some grid));
      let opt_key := serialize_key (KTup grid) in
      ret (set_iteration 1 service_state,
           dict_set opt_key starting_molecule [],
           [FoundFinishedPreoptimization])
    | _ => raise (RuntimeError (ExpectedOneComplete (length complete_deps)))
    end
  else if bool_decide (iteration service_state = 0) then
    do initial <- gets (fun w => initial_molecule (go_orm w));
    do _ <- modify (set_starting_molecule (Some initial));
    let starting_molecule := to_model initial in
    do scans <- gets (fun w => scans (keywords (specification (go_orm w))));
    do grid <- lift (calculate_starting_grid scans starting_molecule);
    do _ <- modify (set_starting_grid (Some grid));
    let opt_key := serialize_key (KTup grid) in
    ret (set_iteration 1 service_state,
         dict_set opt_key starting_molecule [],
         [StartingFirstIterations])
  else
    do complete_deps <- gets (fun w => dependencies (service_orm w));
    lift (expand_wave service_state complete_deps).

(** Lines 596-614: submit the wave or finish, write stdout, store the
    state, and answer whether the service is done. *)
Definition finish (service_state : GridoptimizationServiceState)
    (next_tasks : list (string * Molecule)) (output : list message) : M bool :=
  do output <-
    (if bool_decide (0 < length next_tasks)%nat then
       do _ <- submit_optimizations service_state next_tasks;
       do n <- gets (fun w => length (dependencies (service_orm w)));
       ret (output ++ [SubmittedOptimizations n])
     else ret (output ++ [FinishedSuccessfully]));
  do _ <- append_stdout output;
  do _ <- modify (set_service_state (Some service_state));
  ret (bool_decide (length next_tasks = 0)%nat).

(** Lines 520-614: what [iterate_service] does once it has the state. *)
Definition continue_from (service_state : GridoptimizationServiceState) : M bool :=
  do (service_state, next_tasks, output) <- next_wave service_state;
  finish service_state next_tasks output.

Definition iterate_service : M bool :=
  do service_state <- load_state;
  continue_from service_state.

(** The state that [_create_state] returns for the keywords of a
    specification. *)
Definition created_state (keywords : GridoptimizationKeywords) :
    GridoptimizationServiceState :=
  {| iteration := if preoptimization keywords then -2 else 0;
     complete := [];
     dimensions := map (fun x => Z.of_nat (length (steps x))) (scans keywords);
     constraint_template :=
       map (fun scan => (scan_type scan, indices scan)) (scans keywords) |}.

End Socket.

(** *** Frame conditions *)

(** [m] keeps the property [P] of the world, whether it returns or raises. *)
Definition preserves `{RootSocket} (P : World -> Prop) {A} (m : M A) : Prop :=
  forall w, P w -> P (m w).1.

(** [P] does not depend on what the driver and the submission assign:
    the starting molecule and grid, the dependencies, the association
    table, the session, the stored state and the text of stdout. *)
Definition frame `{RootSocket} (P : World -> Prop) : Prop :=
  (forall m w, P w -> P (set_starting_molecule m w)) /\
  (forall g w, P w -> P (set_starting_grid g w)) /\
  (forall d w, P w -> P (set_dependencies d w)) /\
  (forall o w, P w -> P (set_optimizations o w)) /\
  (forall s w, P w -> P (set_session s w)) /\
  (forall s w, P w -> P (set_service_state s w)) /\
  (forall init e out w, P w -> compute_history (go_orm w) = init ++ [e] ->
     P (set_compute_history
          (init ++ [{| provenance := provenance e; stdout := stdout e ++ out |}]) w)).

(** The record is running and its latest history entry carries the
    provenance of the service. *)
Definition stamped `{RootSocket} (w : World) : Prop :=
  status (go_orm w) = RecordStatusEnum.running /\
  exists init e, compute_history (go_orm w) = init ++ [e] /\
    provenance e = Some service_provenance.

(** The record has a latest history entry. *)
Definition has_history `{RootSocket} (w : World) : Prop :=
  compute_history (go_orm w) <> [].

(** *** A concrete socket

    Molecules are the value they measure; the session is the log of the
    calls of [optimization_add], each with its specification and
    molecules, and a new record gets the number of earlier calls as its
    id. *)
Definition test_socket : RootSocket := {|
  Molecule := Q;
  measure := fun m _ => m;
  OptFields := unit;
  Session := list (OptimizationInputSpecification unit * list Q);
  optimization_add := fun s spec molecules _ _ =>
    (s ++ [(spec, molecules)], (true, [length s]));
  qcfractal_version := "0.50";
|}.

Section Examples.
#[local] Existing Instance test_socket.

Definition absolute_scan : ScanDimension := {|
  scan_type := "distance";
  indices := [0; 1];
  steps := [0%Q; 5%Q; 10%Q];
  step_type := StepTypeEnum.absolute;
|}.

Definition relative_scan : ScanDimension := {|
  scan_type := "distance";
  indices := [0; 1];
  steps := [0%Q; 5%Q];
  step_type := StepTypeEnum.relative;
|}.

(** A freshly added grid optimization over [scans], as [add] leaves it:
    status [waiting], one open history entry, no state yet. *)
Definition fresh_world (scans : list ScanDimension) (preopt : bool) (m : Q) :
    World :=
  {| session := [];
     service_orm :=
       {| service_id := 1%nat;
          record :=
            {| id := 7%nat;
               status := RecordStatusEnum.waiting;
               specification :=
                 {| program := "qcfractal";
                    keywords := {| scans := scans; preoptimization := preopt |};
                    optimization_specification :=
                      {| opt_fields := tt; constraints_set := [] |} |};
               initial_molecule := {| molecule_id := 3%nat; to_model := m |};
               starting_molecule := None;
               starting_grid := None;
               compute_history := [{| provenance := None; stdout := [] |}];
               optimizations := [] |};
          tag := "*";
          priority := PriorityEnum.normal;
          service_state := None;
          dependencies := [] |} |}.

(** The service after its first iteration with preoptimization, its
    single dependency lost: the state says [iteration = -1]. *)
Definition stalled_world : World :=
  set_dependencies [] (iterate_service (fresh_world [absolute_scan] true 5%Q)).1.

(** The children of the service finish: the optimization [n] ends in the
    molecule that measures [n]. *)
Definition complete_dependencies (w : World) : World :=
  set_dependencies
    (map (fun d =>
       {| record_id := record_id d; extras_key := extras_key d;
          record_final_molecule :=
            Some {| molecule_id := record_id d;
                    to_model := inject_Z (Z.of_nat (record_id d)) |} |})
       (dependencies (service_orm w))) w.

(** The keys of the dependencies with what each was submitted with: its
    molecule and the values of its constraints. *)
Definition submitted (w : World) : list (string * list Q * list (option Q)) :=
  map (fun d =>
    match session w !! record_id d with
    | Some (spec, molecules) =>
      (extras_key d, molecules, map con_value (constraints_set spec))
    | None => (extras_key d, [], [])
    end) (dependencies (service_orm w)).

(** The second scenario of the specification: a 3 x 3 grid without
    preoptimization, from a molecule that measures 5 on both axes. *)
Definition wave1 : World :=
  (iterate_service (fresh_world [absolute_scan; absolute_scan] false 5%Q)).1.
Definition wave2 : World := (iterate_service (complete_dependencies wave1)).1.
Definition wave3 : World := (iterate_service (complete_dependencies wave2)).1.

End Examples.

(** A socket whose [optimization.add] refuses every submission, and a
    waiting service over one absolute scan on it. *)
Definition refusing_socket : RootSocket := {|
  Molecule := Q;
  measure := fun m _ => m;
  OptFields := unit;
  Session := nat;
  optimization_add := fun s _ _ _ _ => (S s, (false, []));
  qcfractal_version := "0.50";
|}.

Section Refused.
#[local] Existing Instance refusing_socket.

Definition refused_world : World :=
  {| session := 0%nat;
     service_orm :=
       {| service_id := 1%nat;
          record :=
            {| id := 7%nat;
               status := RecordStatusEnum.waiting;
               specification :=
                 {| program := "qcfractal";
                    keywords := {| scans := [absolute_scan]; preoptimization := true |};
                    optimization_specification :=
                      {| opt_fields := tt; constraints_set := [] |} |};
               initial_molecule := {| molecule_id := 3%nat; to_model := 5%Q |};
               starting_molecule := None;
               starting_grid := None;
               compute_history := [{| provenance := None; stdout := [] |}];
               optimizations := [] |};
          tag := "*";
          priority := PriorityEnum.normal;
          service_state := None;
          dependencies :=
            [{| record_id := 2%nat; extras_key := "stale";
                record_final_molecule := None |}] |} |}.

End Refused.

(** *** What the service is shown to do *)

(** The constraint of [scan] at the step [step]: the step itself for an
    absolute scan, the step added to what the starting molecule measures
    for a relative scan. *)
Definition scan_constraint `{RootSocket} (starting_molecule : Molecule)
    (scan : ScanDimension) (step : Q) : Constraint :=
  {| con_type := scan_type scan;
     con_indices := indices scan;
     con_value :=
       Some match step_type scan with
            | StepTypeEnum.absolute => step
            | StepTypeEnum.relative =>
              (step + measure starting_molecule (indices scan))%Q
            end |}.

(** [st] carries the layout that [_create_state] makes for [keywords]:
    its dimensions and its constraint template. *)
Definition laid_out_for (keywords : GridoptimizationKeywords)
    (st : GridoptimizationServiceState) : Prop :=
  dimensions st = dimensions (created_state keywords) /\
  constraint_template st = constraint_template (created_state keywords).

(** [root_socket.records.optimization.add] accepts whatever it is given:
    it reports success and the id of at least one record. *)
Definition add_always_succeeds `{RootSocket} : Prop :=
  forall s spec molecules tag priority,
    exists s' opt_id opt_ids,
      optimization_add s spec molecules tag priority = (s', (true, opt_id :: opt_ids)).

(** The service is in its normal iterations with the state [st] stored,
    and its dependencies are keyed with the serialized grid points [ks],
    all within the bounds of the grid: the record is running and has a
    history entry and a starting molecule, and the state is past the
    start and has the layout of the keywords. *)
Definition normal_iterating `{RootSocket} (w : World)
    (st : GridoptimizationServiceState) (ks : list key) : Prop :=
  status (go_orm w) = RecordStatusEnum.running /\
  has_history w /\
  is_Some (starting_molecule (go_orm w)) /\
  service_state (service_orm w) = Some st /\
  0 < iteration st /\
  laid_out_for (keywords (specification (go_orm w))) st /\
  map extras_key (dependencies (service_orm w)) = map serialize_key ks /\
  Forall (Grid.in_bounds (dimensions st)) ks.

(** [k] is a point of the grid: a tuple with one index per axis, each
    within the bounds of its axis. *)
Definition grid_point (dimensions : list Z) (k : key) : Prop :=
  exists t, k = KTup t /\ Forall2 (fun x dim => 0 <= x < dim) t dimensions.

(** The service covers the grid from where it started: it is in its
    normal iterations; the complete points and the points [ks] of the
    dependencies are points of the grid, each listed once, [ks] not
    empty and not complete yet; and every point of the grid one step
    away from a complete point is complete or in [ks]. *)
Definition covering `{RootSocket} (w : World)
    (st : GridoptimizationServiceState) (ks : list key) : Prop :=
  normal_iterating w st ks /\
  ks <> [] /\ NoDup ks /\
  Forall (grid_point (dimensions st)) ks /\
  NoDup (complete st) /\
  Forall (grid_point (dimensions st)) (complete st) /\
  (forall k, k ∈ ks -> k ∉ complete st) /\
  (forall t d x dim disp,
     KTup t ∈ complete st -> t !! d = Some x -> dimensions st !! d = Some dim ->
     disp = -1 \/ disp = 1 -> 0 <= x + disp < dim ->
     KTup (<[d := x + disp]> t) ∈ complete st \/ KTup (<[d := x + disp]> t) ∈ ks).

(** What [submit_optimizations] assigns: the dependencies, the session,
    and the association table, to which it only appends. *)
Definition submit_frame `{RootSocket} (P : World -> Prop) : Prop :=
  (forall d w, P w -> P (set_dependencies d w)) /\
  (forall s w, P w -> P (set_session s w)) /\
  (forall o w, P w -> P (set_optimizations (optimizations (go_orm w) ++ o) w)).

(** More stdout, and possibly a provenance, on the latest history entry. *)
Definition history_clause `{RootSocket} (P : World -> Prop) : Prop :=
  forall init e p out w, P w -> compute_history (go_orm w) = init ++ [e] ->
    P (set_compute_history
         (init ++ [{| provenance := p; stdout := stdout e ++ out |}]) w).

(** What [iterate_service] assigns: what the submission assigns, the
    starting molecule and grid, the stored state, the status [running],
    and on the latest history entry the provenance and more stdout. *)
Definition iterate_frame `{RootSocket} (P : World -> Prop) : Prop :=
  submit_frame P /\
  (forall m w, P w -> P (set_starting_molecule m w)) /\
  (forall g w, P w -> P (set_starting_grid g w)) /\
  (forall s w, P w -> P (set_service_state s w)) /\
  (forall w, P w -> P (set_status RecordStatusEnum.running w)) /\
  history_clause P.

(** The part of the service row and of its record that identifies the
    calculation. *)
Definition identity `{RootSocket} (w : World) :
    nat * nat * string * PriorityEnum.t * GridoptimizationSpecification * MoleculeORM :=
  (service_id (service_orm w), id (go_orm w), tag (service_orm w),
   priority (service_orm w), specification (go_orm w), initial_molecule (go_orm w)).

(** The history [h'] is the history [h] but for its latest entry, whose
    stdout has grown. *)
Definition history_extends (h h' : list ComputeHistoryORM) : Prop :=
  h' = h \/
  exists init e e', h = init ++ [e] /\ h' = init ++ [e'] /\
    stdout e `prefix_of` stdout e'.

(** The association row of a dependency of the record [gid]. *)
Definition association `{RootSocket} (gid : nat) (dep : ServiceDependenciesORM) :
    GridoptimizationOptimizationsORM :=
  {| optimization_id := record_id dep; gridoptimization_id := gid;
     assoc_key := extras_key dep |}.

End Service.

(** ** Lowercase *)

(** [str.lower] on code points below 256: the letters [A-Z] and the
    Latin-1 capitals from 192 to 222, the sign 215 apart, move up by 32. *)
Definition lower_char (c : ascii) : ascii :=
  let n := N_of_ascii c in
  if ((65 <=? n) && (n <=? 90))%N then ascii_of_N (n + 32)
  else if ((192 <=? n) && (n <=? 222) && negb (n =? 215))%N then ascii_of_N (n + 32)
  else c.

Fixpoint lower (s : string) : string :=
  match s with
  | EmptyString => EmptyString
  | String c r => String (lower_char c) (lower r)
  end.

(** ** Task routes *)

Module Routes.

(** [storage_socket.tasks]: the task queue behind the two routes. *)
Class TaskSocket := {
  Store : Type;
  Task : Type;
  Result : Type;
  ReturnMetadata : Type;
  claim_tasks : Store -> string -> list string -> Z -> Store * list Task;
  update_finished : Store -> string -> list Result -> Store * ReturnMetadata;
}.

(** [current_app.config["QCFRACTAL_CONFIG"].api_limits] *)
Record APILimits := {
  manager_tasks_claim : Z;
}.

(** Modelled from the spec: [qcportal.utils.calculate_limit] is not among
    the sources; the specification says that the limit of a claim "is
    clipped to a server-configured maximum". *)
Definition calculate_limit (max_limit : Z) (given_limit : Z) : Z :=
  Z.min given_limit max_limit.

Section Routes.
Context `{TaskSocket}.

Record TaskClaimBody := {
  claim_fullname : string;        (* body_data.name_data.fullname *)
  tags : list string;
  limit : Z;
}.

Record TaskReturnBody := {
  return_fullname : string;       (* body_data.name_data.fullname *)
  results : list Result;
}.

Definition claim_tasks_v1 (api_limits : APILimits) (body_data : TaskClaimBody)
    (storage_socket : Store) : Store * Res (list Task) :=
  let max_limit := manager_tasks_claim api_limits in
  let '(storage_socket', tasks) :=
    claim_tasks storage_socket (claim_fullname body_data) (tags body_data)
      (calculate_limit max_limit (limit body_data)) in
  (storage_socket', Ok tasks).

Definition return_tasks_v1 (api_limits : APILimits) (body_data : TaskReturnBody)
    (storage_socket : Store) : Store * Res ReturnMetadata :=
  let max_limit := manager_tasks_claim api_limits in
  if bool_decide (Z.of_nat (length (results body_data)) > max_limit)
  then (storage_socket, Raise LimitExceededError)
  else
    let '(storage_socket', meta) :=
      update_finished storage_socket (return_fullname body_data) (results body_data) in
    (storage_socket', Ok meta).

End Routes.

(** A task queue that logs every call it receives. *)
Inductive call :=
  | Claimed (manager : string) (tags : list string) (limit : Z)
  | Finished (manager : string) (results : list nat).

Definition logging_socket : TaskSocket := {|
  Store := list call;
  Task := nat;
  Result := nat;
  ReturnMetadata := nat;
  claim_tasks := fun s m t l => (s ++ [Claimed m t l], []);
  update_finished := fun s m r => (s ++ [Finished m r], length r);
|}.

End Routes.

(** ** Record validators and the store's check constraints *)

Module Records.

(** Modelled from the spec: [prepare_basis] of [model_utils] is not among
    the sources; the specification says that [basis] is "case-folded to
    lowercase at the boundary". *)
Definition prepare_basis (v : string) : string := lower v.

(** [RecordBase.check_program] *)
Definition check_program (v : string) : string := lower v.

(** [ResultRecord.check_method] *)
Definition check_method (v : string) : string := lower v.

(** [ResultRecord.check_basis] *)
Definition check_basis (v : string) : string := prepare_basis v.

(** The fields of a [ResultRecord] that the claim is about; [basis] is
    [Optional[str]]. *)
Record ResultRecord := {
  program : string;
  method : string;
  basis : option string;
}.

(** Construction of a [ResultRecord]: pydantic runs each field's validator
    on the value given; a validator is not run on [None]. *)
Definition validate (data : ResultRecord) : ResultRecord :=
  {| program := check_program (program data);
     method := check_method (method data);
     basis := check_basis <$> basis data |}.

(** *** Migration 88182596f844 *)

(** [op.create_check_constraint(name, table, column(c) == func.lower(column(c)))] *)
Record CheckConstraint := {
  ck_name : string;
  ck_table : string;
  ck_column : string;
}.

Record Schema := {
  checks : list CheckConstraint;
  not_null : list (string * string);
}.

Definition alter_column_not_null (table column : string) (s : Schema) : Schema :=
  {| checks := checks s; not_null := not_null s ++ [(table, column)] |}.

Definition create_check_constraint (name table column : string) (s : Schema) : Schema :=
  {| checks := checks s ++ [{| ck_name := name; ck_table := table; ck_column := column |}];
     not_null := not_null s |}.

Definition upgrade (s : Schema) : Schema :=
  let s := alter_column_not_null "task_queue" "base_result_id" s in
  let s := create_check_constraint "ck_result_program_lower" "result" "program" s in
  let s := create_check_constraint "ck_result_driver_lower" "result" "driver" s in
  let s := create_check_constraint "ck_result_method_lower" "result" "method" s in
  let s := create_check_constraint "ck_result_basis_lower" "result" "basis" s in
  let s := create_check_constraint "ck_optimization_procedure_program_lower"
             "optimization_procedure" "program" s in
  let s := create_check_constraint "ck_grid_optimization_procedure_program_lower"
             "grid_optimization_procedure" "program" s in
  create_check_constraint "ck_torsiondrive_procedure_program_lower"
    "torsiondrive_procedure" "program" s.

(** A row: the text of each column, [None] for SQL NULL. *)
Definition Row : Type := string -> option string.

(** The check [column == lower(column)]; a check whose value is NULL
    passes, as in SQL. *)
Definition check_holds (ck : CheckConstraint) (r : Row) : bool :=
  match r (ck_column ck) with
  | None => true
  | Some v => String.eqb v (lower v)
  end.

(** Does the store accept the row [r] for [table]? *)
Definition accepts (s : Schema) (table : string) (r : Row) : bool :=
  forallb (fun ck => negb (String.eqb (ck_table ck) table) || check_holds ck r)
    (checks s).

(** The row of the [result] table that stores a record. *)
Definition result_row (rec : ResultRecord) (driver : string) : Row :=
  fun column =>
    if String.eqb column "program" then Some (program rec)
    else if String.eqb column "driver" then Some driver
    else if String.eqb column "method" then Some (method rec)
    else if String.eqb column "basis" then basis rec
    else None.

Definition empty_schema : Schema := {| checks := []; not_null := [] |}.

(** [op.alter_column(table, column, nullable=True)] *)
Definition alter_column_nullable (table column : string) (s : Schema) : Schema :=
  {| checks := checks s;
     not_null :=
       List.filter (fun tc => negb (String.eqb tc.1 table && String.eqb tc.2 column))
         (not_null s) |}.

Definition names (name table : string) (ck : CheckConstraint) : bool :=
  String.eqb (ck_name ck) name && String.eqb (ck_table ck) table.

(** [op.drop_constraint(name, table)]: the database refuses to drop a
    constraint that the table does not have, and the migration stops
    there. *)
Definition drop_constraint (name table : string) (s : Schema) : option Schema :=
  if existsb (names name table) (checks s)
  then Some {| checks := List.filter (fun ck => negb (names name table ck)) (checks s);
               not_null := not_null s |}
  else None.

Definition downgrade (s : Schema) : option Schema :=
  let s := alter_column_nullable "task_queue" "base_result_id" s in
  s ← drop_constraint "ck_result_program_lower" "result" s;
  s ← drop_constraint "ck_result_driver_lower" "result" s;
  s ← drop_constraint "ck_result_method_lower" "result" s;
  s ← drop_constraint "ck_result_basis_lower" "result" s;
  s ← drop_constraint "ck_optimization_procedure_program_lower"
        "optimization_procedure" s;
  s ← drop_constraint "ck_grid_optimization_procedure_program_lower"
        "grid_optimization_procedure" s;
  drop_constraint "ck_torsiondrive_procedure_program_lower"
    "torsiondrive_procedure" s.

(** The names of the constraints that the migration creates. *)
Definition migration_names : list string :=
  ["ck_result_program_lower"; "ck_result_driver_lower"; "ck_result_method_lower";
   "ck_result_basis_lower"; "ck_optimization_procedure_program_lower";
   "ck_grid_optimization_procedure_program_lower";
   "ck_torsiondrive_procedure_program_lower"].

End Records.

(** ** Submission of grid optimizations: [GridoptimizationRecordSocket.add] *)

Module Submission.

Import Service.

Record InsertMetadata := {
  error_description : option string;
  inserted_idx : list nat;
  existing_idx : list nat;
}.

(** [meta.success]: no error was described. *)
Definition success (m : InsertMetadata) : bool :=
  match error_description m with
  | None => true
  | Some _ => false
  end.

(** [InsertMetadata(error_description=prefix + meta.error_description)] *)
Definition aborted (prefix : string) (m : InsertMetadata) : InsertMetadata :=
  {| error_description := Some (prefix +:+ default EmptyString (error_description m));
     inserted_idx := [];
     existing_idx := [] |}.

(** The [GridoptimizationRecordORM] that [add] constructs. *)
Record NewRecordORM := {
  is_service : bool;
  specification_id : option nat;
  initial_molecule_id : nat;
  status : RecordStatusEnum.t;
}.

(** What [add] calls: [add_specification], [molecules.add_mixed],
    [create_service] of the base socket (it attaches the service row to
    the record it is given) and [insert_general]. *)
Class AddSocket := {
  Session : Type;
  GridoptimizationInputSpecification : Type;
  MoleculeInput : Type;
  ServiceRecord : Type;
  add_specification :
    Session -> GridoptimizationInputSpecification ->
    Session * (InsertMetadata * option nat);
  add_mixed : Session -> list MoleculeInput -> Session * (InsertMetadata * list nat);
  create_service : NewRecordORM -> option string -> PriorityEnum.t -> ServiceRecord;
  insert_general : Session -> list ServiceRecord -> Session * (InsertMetadata * list nat);
}.

Section Add.
Context `{AddSocket}.

(** Lines 470-480: one record with its service per molecule id. *)
Definition all_orm (spec_id : option nat) (tag : option string)
    (priority : PriorityEnum.t) (init_mol_ids : list nat) : list ServiceRecord :=
  map (fun mid =>
    create_service
      {| is_service := true;
         specification_id := spec_id;
         initial_molecule_id := mid;
         status := RecordStatusEnum.waiting |}
      tag priority) init_mol_ids.

Definition add (go_spec : GridoptimizationInputSpecification)
    (initial_molecules : list MoleculeInput) (tag : option string)
    (priority : PriorityEnum.t) (session : Session) :
    Session * (InsertMetadata * list nat) :=
  (* tags should be lowercase *)
  let tag := lower <$> tag in
  let '(session, (spec_meta, spec_id)) := add_specification session go_spec in
  if negb (success spec_meta) then
    (session, (aborted "Aborted - could not add specification: " spec_meta, []))
  else
    let '(session, (mol_meta, init_mol_ids)) := add_mixed session initial_molecules in
    if negb (success mol_meta) then
      (session, (aborted "Aborted - could not add all molecules: " mol_meta, []))
    else
      insert_general session (all_orm spec_id tag priority init_mol_ids).

End Add.

(** A socket whose service records show the tag and priority they were
    created with, and whose session is the list of records stored. *)
Definition recording_socket : AddSocket := {|
  Session := list (NewRecordORM * option string * PriorityEnum.t);
  GridoptimizationInputSpecification := nat;
  MoleculeInput := nat;
  ServiceRecord := NewRecordORM * option string * PriorityEnum.t;
  add_specification := fun s spec =>
    (s, ({| error_description := None; inserted_idx := [0%nat]; existing_idx := [] |},
         Some spec));
  add_mixed := fun s mols =>
    (s, ({| error_description := None; inserted_idx := seq 0 (length mols);
            existing_idx := [] |}, mols));
  create_service := fun r tag priority => (r, tag, priority);
  insert_general := fun s rows =>
    (s ++ rows,
     ({| error_description := None; inserted_idx := seq 0 (length rows);
         existing_idx := [] |}, seq (length s) (length rows)));
|}.

End Submission.

(** ** Record objects on the client: the getters of [records.py] *)

Module Portal.

(** [FractalClient] as the records use it, with the server behind it: a
    query may change the server and is answered from it.  [ObjectId] and
    the classes of the answers are declared elsewhere. *)
Class FractalClient := {
  Server : Type;
  ObjectId : Type;
  ObjectId_eq_dec : EqDecision ObjectId;
  ObjectId_countable : Countable ObjectId;
  KVValue : Type;
  ResultT : Type;
  result_id : ResultT -> ObjectId;           (* x.id *)
  MoleculeT : Type;
  query_kvstore : Server -> list ObjectId -> Server * gmap ObjectId KVValue;
  query_results : Server -> option (list ObjectId) -> Server * list ResultT;
}.
#[global] Existing Instance ObjectId_eq_dec.
#[global] Existing Instance ObjectId_countable.

Section Getters.
Context `{FractalClient}.

(** What the dictionary [cache] of a record holds. *)
Inductive cached :=
  | CValue (v : KVValue)
  | CMolecule (m : MoleculeT)
  | CResults (l : list ResultT)
  | CMolecules (l : list MoleculeT).

(** The fields of [RecordBase] that the getters read; [has_client] says
    that [client] is not [None]. *)
Record RecordBase := {
  has_client : bool;
  cache : gmap string cached;
  stdout : option ObjectId;
  stderr : option ObjectId;
  error : option ObjectId;
}.

Record OptimizationRecord := {
  base : RecordBase;
  trajectory : option (list ObjectId);
}.

Definition set_cache (c : gmap string cached) (self : RecordBase) : RecordBase :=
  {| has_client := has_client self; cache := c; stdout := stdout self;
     stderr := stderr self; error := error self |}.

Definition set_base (b : RecordBase) (self : OptimizationRecord) : OptimizationRecord :=
  {| base := b; trajectory := trajectory self |}.

(** [RecordBase.check_client] *)
Definition check_client (noraise : bool) (self : RecordBase) : Res bool :=
  if negb (has_client self) then
    if noraise then Ok false else Raise ValueError
  else Ok true.

(** [self.__values__[field_name]] for the three fields that the getters
    of the key-value store name. *)
Definition field_value (self : RecordBase) (field_name : string) :
    Res (option ObjectId) :=
  if String.eqb field_name "stdout" then Ok (stdout self)
  else if String.eqb field_name "stderr" then Ok (stderr self)
  else if String.eqb field_name "error" then Ok (error self)
  else Raise NotModelled.

(** [RecordBase._kvstore_getter]: the server, the record with its cache,
    and the value returned, [None] for Python's [None]. *)
Definition _kvstore_getter (field_name : string) (server : Server)
    (self : RecordBase) : Server * RecordBase * Res (option cached) :=
  match check_client false self with
  | Raise e => (server, self, Raise e)
  | Ok _ =>
    match field_value self field_name with
    | Raise e => (server, self, Raise e)
    | Ok None => (server, self, Ok None)
    | Ok (Some oid) =>
      match cache self !! field_name with
      | Some v => (server, self, Ok (Some v))
      | None =>
        let '(server, answer) := query_kvstore server [oid] in
        match answer !! oid with
        | None => (server, self, Raise KeyError)       (* ...[oid] *)
        | Some v =>
          (server, set_cache (<[field_name := CValue v]> (cache self)) self,
           Ok (Some (CValue v)))
        end
      end
    end
  end.

Definition get_stdout : Server -> RecordBase -> Server * RecordBase * Res (option cached) :=
  _kvstore_getter "stdout".

Definition get_stderr : Server -> RecordBase -> Server * RecordBase * Res (option cached) :=
  _kvstore_getter "stderr".

(** [{x.id: x for x in answer}]: a later record replaces an earlier one
    with the same id. *)
Definition by_id (answer : list ResultT) : gmap ObjectId ResultT :=
  foldl (fun d x => <[result_id x := x]> d) ∅ answer.

(** [OptimizationRecord.get_trajectory].  Without a client
    [self.client.query_results] is an [AttributeError]; a trajectory
    that is [None] is queried for and then not iterable. *)
Definition get_trajectory (server : Server) (self : OptimizationRecord) :
    Server * OptimizationRecord * Res cached :=
  match cache (base self) !! "trajectory" with
  | Some v => (server, self, Ok v)
  | None =>
    if negb (has_client (base self)) then (server, self, Raise AttributeError)
    else
      let '(server, answer) := query_results server (trajectory self) in
      let result := by_id answer in
      match trajectory self with
      | None => (server, self, Raise TypeError)
      | Some ids =>
        match mapM (fun x => result !! x) ids with
        | None => (server, self, Raise KeyError)        (* result[x] *)
        | Some l =>
          (server,
           set_base (set_cache (<["trajectory" := CResults l]> (cache (base self)))
                       (base self)) self,
           Ok (CResults l))
        end
      end
  end.

End Getters.

(** A client whose server counts the queries it has answered: the
    key-value store maps an id to its double, a result is its id. *)
Definition counting_client : FractalClient := {|
  Server := nat;
  ObjectId := nat;
  KVValue := nat;
  ResultT := nat;
  result_id := fun x => x;
  MoleculeT := nat;
  query_kvstore := fun n ids =>
    (S n, list_to_map (map (fun i => (i, 2 * i)%nat) ids));
  query_results := fun n ids => (S n, rev (default [] ids));
|}.

Section Examples.
#[local] Existing Instance counting_client.

(** A record with a client, nothing cached, whose stdout has the id 21. *)
Definition record_with_stdout : RecordBase :=
  {| has_client := true; cache := ∅; stdout := Some 21%nat;
     stderr := None; error := None |}.

(** An optimization of three steps, nothing cached. *)
Definition record_with_trajectory : OptimizationRecord :=
  {| base := {| has_client := true; cache := ∅; stdout := None;
                stderr := None; error := None |};
     trajectory := Some [5; 3; 4]%nat |}.

End Examples.

End Portal.

(** ** The statement of [GridoptimizationRecordSocket.query] *)

Module Query.

Inductive Table :=
  | GridoptimizationRecordORM
  | GridoptimizationSpecificationORM
  | OptimizationSpecificationORM
  | SinglepointSpecificationORM.

(** The columns that [query] compares. *)
Inductive Column :=
  | SinglepointProgram       (* SinglepointSpecificationORM.program *)
  | SinglepointMethod        (* SinglepointSpecificationORM.method *)
  | SinglepointBasis         (* SinglepointSpecificationORM.basis *)
  | SinglepointKeywordsId    (* SinglepointSpecificationORM.keywords_id *)
  | OptimizationProgram      (* OptimizationSpecificationORM.program *)
  | InitialMoleculeId.       (* GridoptimizationRecordORM.initial_molecule_id *)

Definition table_of (c : Column) : Table :=
  match c with
  | SinglepointProgram | SinglepointMethod | SinglepointBasis
  | SinglepointKeywordsId => SinglepointSpecificationORM
  | OptimizationProgram => OptimizationSpecificationORM
  | InitialMoleculeId => GridoptimizationRecordORM
  end.

(** The relationships that [stmt.join] follows. *)
Inductive Relationship :=
  | specification                 (* GridoptimizationRecordORM.specification *)
  | optimization_specification    (* GridoptimizationSpecificationORM.optimization_specification *)
  | singlepoint_specification.    (* OptimizationSpecificationORM.singlepoint_specification *)

Definition source (r : Relationship) : Table :=
  match r with
  | specification => GridoptimizationRecordORM
  | optimization_specification => GridoptimizationSpecificationORM
  | singlepoint_specification => OptimizationSpecificationORM
  end.

Definition target (r : Relationship) : Table :=
  match r with
  | specification => GridoptimizationSpecificationORM
  | optimization_specification => OptimizationSpecificationORM
  | singlepoint_specification => SinglepointSpecificationORM
  end.

Section Query.
(** The type of the lists of values of a query body. *)
Variable Values : Type.

(** [GridoptimizationQueryBody], the fields that [query] itself reads. *)
Record GridoptimizationQueryBody := {
  singlepoint_program : option Values;
  singlepoint_method : option Values;
  singlepoint_basis : option Values;
  singlepoint_keywords_id : option Values;
  optimization_program : option Values;
  initial_molecule_id : option Values;
}.

(** [column.in_(values)] *)
Inductive Filter := In_ (c : Column) (values : Values).

(** [select(GridoptimizationRecordORM)] with its joins, in order, and
    the conditions of its [where]. *)
Record Select := {
  joins : list Relationship;
  where_ : list Filter;
}.

(** One of the [if query_data.field is not None] blocks: the condition
    is appended and the flag raised. *)
Definition given (field : option Values) (c : Column)
    (acc : list Filter * bool) : list Filter * bool :=
  match field with
  | Some values => (acc.1 ++ [In_ c values], true)
  | None => acc
  end.

(** The statement that [query] hands to [query_base]. *)
Definition query_statement (query_data : GridoptimizationQueryBody) : Select :=
  let and_query : list Filter := [] in
  let need_spspec_join := false in
  let need_optspec_join := false in
  let '(and_query, need_spspec_join) :=
    given (singlepoint_program query_data) SinglepointProgram
      (and_query, need_spspec_join) in
  let '(and_query, need_spspec_join) :=
    given (singlepoint_method query_data) SinglepointMethod
      (and_query, need_spspec_join) in
  let '(and_query, need_spspec_join) :=
    given (singlepoint_basis query_data) SinglepointBasis
      (and_query, need_spspec_join) in
  let '(and_query, need_spspec_join) :=
    given (singlepoint_keywords_id query_data) SinglepointKeywordsId
      (and_query, need_spspec_join) in
  let '(and_query, need_optspec_join) :=
    given (optimization_program query_data) OptimizationProgram
      (and_query, need_optspec_join) in
  let and_query :=
    match initial_molecule_id query_data with
    | Some values => and_query ++ [In_ InitialMoleculeId values]
    | None => and_query
    end in
  let stmt_joins : list Relationship := [] in
  let stmt_joins :=
    if need_optspec_join || need_spspec_join
    then stmt_joins ++ [specification; optimization_specification]
    else stmt_joins in
  let stmt_joins :=
    if need_spspec_join then stmt_joins ++ [singlepoint_specification]
    else stmt_joins in
  {| joins := stmt_joins; where_ := and_query |}.

(** The table of every condition is the table selected from or the
    target of a join, and the source of every join is the table
    selected from or the target of the join before it. *)
Definition well_joined (stmt : Select) : Prop :=
  (forall c values, In_ c values ∈ where_ stmt ->
     table_of c = GridoptimizationRecordORM \/
     exists r, r ∈ joins stmt /\ target r = table_of c) /\
  (forall i r, joins stmt !! i = Some r ->
     match i with
     | O => source r = GridoptimizationRecordORM
     | S j => exists r', joins stmt !! j = Some r' /\ target r' = source r
     end).

End Query.

Arguments singlepoint_program {Values} _.
Arguments singlepoint_method {Values} _.
Arguments singlepoint_basis {Values} _.
Arguments singlepoint_keywords_id {Values} _.
Arguments optimization_program {Values} _.
Arguments initial_molecule_id {Values} _.
Arguments In_ {Values} c values.
Arguments joins {Values} _.
Arguments where_ {Values} _.
Arguments query_statement {Values} query_data.
Arguments well_joined {Values} stmt.

End Query.

(** * Theorems *)

Import Service.

(** ** Facts about the loop combinator *)

(** A loop whose body keeps an invariant and never raises on the items it
    visits runs to completion and establishes the invariant. *)
Lemma for_each_inv {A S : Type} (P : S -> Prop) (Q : A -> Prop)
    (body : A -> S -> Res S) (xs : list A) (acc : S) :
  (forall x a, Q x -> P a -> exists a', body x a = Ok a' /\ P a') ->
  Forall Q xs -> P acc ->
  exists acc', for_each xs body acc = Ok acc' /\ P acc'.
Proof.
  intros Hbody Hxs. revert acc.
  induction Hxs as [|x xs Hx _ IH]; intros acc Hacc; simpl.
  - eauto.
  - destruct (Hbody x acc Hx Hacc) as (a' & -> & Ha'). simpl. auto.
Qed.

(** ** Grid expansion *)

Section GridFacts.
Import Grid.
Variables (dimensions : list Z) (seeds : list key) (complete : gset key).

Lemma in_bounds_insert (t : list Z) d x dim :
  in_bounds dimensions (KTup t) -> dimensions !! d = Some dim -> 0 <= x < dim ->
  in_bounds dimensions (KTup (<[d := x]> t)).
Proof.
  intros Hs Hd Hx d' dim' Hd'.
  destruct (Hs d' dim' Hd') as (y & Hy & Hry).
  destruct (decide (d = d')) as [->|Hne].
  - exists x. split.
    + apply list_lookup_insert_eq. by eapply lookup_lt_Some.
    + congruence.
  - exists y. split; [|done]. by rewrite list_lookup_insert_ne.
Qed.

Lemma visit_inv d seed disp a :
  seed ∈ seeds -> (disp = -1 \/ disp = 1) ->
  has_axis d seed -> is_Some (dimensions !! d) ->
  expand_inv dimensions seeds complete a ->
  exists a', visit dimensions complete d seed disp a = Ok a' /\
             expand_inv dimensions seeds complete a'.
Proof.
  intros Hseed Hdisp (t & -> & [sd Hsd]) [dim Hdim] Ha.
  unfold visit. rewrite Hsd, Hdim. cbn zeta.
  repeat case_bool_decide; eauto.
  eexists; split; [done|].
  destruct Ha as (Hpairs & Hnd & Hcomp). destruct a as [cmp conns].
  unfold expand_inv; cbn [fst snd] in *. split; [|split].
  - intros s n [Hin|Hin%list_elem_of_singleton]%elem_of_app; [by apply Hpairs|].
    injection Hin as -> ->. split; [done|]. split; [|split; [done|]].
    + intros Hb. eapply in_bounds_insert; eauto. lia.
    + exists t, d, sd. split; [done|]. split; [done|].
      destruct Hdisp as [-> | ->]; [left|right]; done.
  - rewrite fmap_app. cbn [fmap list_fmap snd]. apply NoDup_app. split; [done|]. split.
    + intros n Hn ->%list_elem_of_singleton. by apply Hcomp in Hn.
    + apply NoDup_singleton.
  - intros n. rewrite fmap_app, elem_of_app, elem_of_union, Hcomp. cbn [fmap list_fmap snd].
    rewrite elem_of_singleton, list_elem_of_singleton. done.
Qed.

Lemma expand_inv_result :
  Forall (fun s => forall d, (d < length dimensions)%nat -> has_axis d s) seeds ->
  exists a, for_each (seq 0 (length dimensions)) (fun d =>
              for_each seeds (fun seed =>
                for_each [-1; 1] (fun disp =>
                  visit dimensions complete d seed disp))) (∅, []) = Ok a
            /\ expand_inv dimensions seeds complete a.
Proof.
  intros Hlen.
  apply (for_each_inv (expand_inv dimensions seeds complete)
           (fun d => (d < length dimensions)%nat)).
  - intros d a Hd Ha.
    apply (for_each_inv (expand_inv dimensions seeds complete)
             (fun s => s ∈ seeds /\ has_axis d s)); [| |done].
    + intros seed a0 [Hs Hsd] Ha0.
      apply (for_each_inv (expand_inv dimensions seeds complete)
               (fun disp => disp = -1 \/ disp = 1)); [| |done].
      * intros disp a1 Hdisp Ha1.
        apply visit_inv; auto. by apply lookup_lt_is_Some.
      * do 2 (constructor; [lia|]). constructor.
    + apply Forall_forall. intros s Hs. split; [done|].
      rewrite Forall_forall in Hlen. by apply Hlen.
  - apply Forall_forall. intros d Hd%elem_of_seq. lia.
  - split; [|split]; simpl.
    + intros s n Hin. by apply elem_of_nil in Hin.
    + constructor.
    + intros n. rewrite elem_of_empty, elem_of_nil. done.
Qed.
End GridFacts.

Import Grid.

Lemma in_bounds_has_axis dimensions (s : key) :
  in_bounds dimensions s ->
  forall d, (d < length dimensions)%nat -> has_axis d s.
Proof.
  intros Hs d Hd. destruct s as [?|t]; [done|].
  apply lookup_lt_is_Some in Hd as [dim Hdim].
  destruct (Hs d dim Hdim) as (x & Hx & _). exists t. eauto.
Qed.

(** C1, as amended.  When every seed is a grid point within bounds and
    every seed is in [complete] (as in [iterate_service], which unions the
    seeds into [complete] before the call), [expand_ndimensional_grid]
    returns, and every emitted pair [(seed, neighbour)] has its seed among
    the seeds, its neighbour within bounds on every axis, not in
    [complete], not among the seeds, and equal to the seed but for one
    axis moved by +1 or -1; no neighbour is emitted twice. *)
Theorem expand_ndimensional_grid_sound
    (dimensions : list Z) (seeds : list key) (complete : gset key) :
  Forall (in_bounds dimensions) seeds ->
  (forall s, s ∈ seeds -> s ∈ complete) ->
  exists pairs,
    expand_ndimensional_grid dimensions seeds complete = Ok pairs /\
    expansion_ok dimensions seeds complete pairs.
Proof.
  intros Hb Hsub.
  destruct (expand_inv_result dimensions seeds complete) as (a & Ha & Hinv).
  { eapply Forall_impl; [exact Hb|]. intros s Hs. by apply in_bounds_has_axis. }
  exists a.2. unfold expand_ndimensional_grid. rewrite Ha. simpl.
  split; [done|].
  destruct Hinv as (Hpairs & Hnd & _). split; [|done].
  intros s n Hin. destruct (Hpairs s n Hin) as (Hs & Hbn & Hc & Hstep).
  rewrite Forall_forall in Hb. repeat split; auto.
Qed.

(** C1 as stated fails: with the seeds (0) and (1) on a grid of two points
    and nothing complete, each seed is emitted as the neighbour of the
    other. *)
Lemma expand_ndimensional_grid_seed_emitted :
  exists pairs,
    expand_ndimensional_grid [2] [KTup [0]; KTup [1]] ∅ = Ok pairs /\
    ~ expansion_ok [2] [KTup [0]; KTup [1]] ∅ pairs.
Proof.
  exists [(KTup [0], KTup [1]); (KTup [1], KTup [0])]. split; [reflexivity|].
  intros [H _]. destruct (H (KTup [0]) (KTup [1])) as (_ & _ & _ & Hn & _).
  - apply list_elem_of_here.
  - apply Hn. apply list_elem_of_further, list_elem_of_here.
Qed.

(** The expansion of the spec's second scenario: the centre of a 3 x 3
    grid. *)
Lemma expand_ndimensional_grid_sound_witness :
  exists pairs,
    expand_ndimensional_grid [3; 3] [KTup [1; 1]] {[ KTup [1; 1] ]} = Ok pairs /\
    expansion_ok [3; 3] [KTup [1; 1]] {[ KTup [1; 1] ]} pairs.
Proof.
  apply expand_ndimensional_grid_sound.
  - constructor; [|constructor].
    intros [|[|d]] dim Hd; simplify_eq/=; eexists; (split; [reflexivity|lia]).
  - intros s ->%list_elem_of_singleton. by apply elem_of_singleton.
Defined.

Section JsonFacts.
Import Json.

Lemma append_cons c s t : String c s +:+ t = String c (s +:+ t).
Proof. reflexivity. Qed.

Lemma append_nil_l t : EmptyString +:+ t = t.
Proof. reflexivity. Qed.


Lemma append_assoc s t u : (s +:+ t) +:+ u = s +:+ (t +:+ u).
Proof. induction s as [|c s IH]; [done|]. by rewrite !append_cons, IH. Qed.

Lemma length_append s t :
  String.length (s +:+ t) = (String.length s + String.length t)%nat.
Proof. induction s as [|c s IH]; [done|]. rewrite append_cons. simpl. lia. Qed.

(** *** Strings *)

Lemma scan_string_encode_char c r :
  scan_string (encode_char c +:+ r) =
  try (t, r') <- scan_string r; Ok (String c t, r').
Proof.
  destruct c as [[] [] [] [] [] [] [] []]; reflexivity.
Qed.

Lemma scan_string_encode_chars s r :
  scan_string (encode_chars s +:+ String dquote r) = Ok (s, r).
Proof.
  induction s as [|c s IH].
  - reflexivity.
  - cbn [encode_chars]. rewrite append_assoc, scan_string_encode_char, IH.
    reflexivity.
Qed.

Lemma scan_once_string fuel r :
  scan_once (S fuel) (String dquote r) =
  try (t, r') <- scan_string r; Ok (Str t, r').
Proof. reflexivity. Qed.

Lemma skip_ws_dquote r : skip_ws (String dquote r) = String dquote r.
Proof. reflexivity. Qed.

Lemma loads_encode_string s : loads (dumps (Str s)) = Ok (Str s).
Proof.
  unfold loads. cbn [dumps]. unfold encode_string.
  rewrite skip_ws_dquote. cbn [String.length].
  rewrite scan_once_string, scan_string_encode_chars. reflexivity.
Qed.

(** *** Integers *)

Lemma uint_fold_pos u p :
  uint_fold u (Npos p) = Npos (Pos.of_uint_acc u p).
Proof.
  revert p. induction u; intros p; cbn [uint_fold Pos.of_uint_acc];
    try reflexivity; rewrite <- IHu; f_equal; lia.
Qed.

Lemma uint_fold_of_uint u : uint_fold u 0 = Pos.of_uint u.
Proof.
  induction u; cbn [uint_fold Pos.of_uint]; try done;
    change (0 * 10 + ?k)%N with k; by rewrite uint_fold_pos.
Qed.

Lemma uint_fold_to_uint p : uint_fold (Pos.to_uint p) 0 = Npos p.
Proof. by rewrite uint_fold_of_uint, DecimalPos.Unsigned.of_to. Qed.

Lemma ends_number_not_digit s :
  ends_number s ->
  match s with String c _ => digit_value c = None | EmptyString => True end.
Proof. destruct s as [|c r]; [done|]. by intros [-> | ->]. Qed.

Lemma scan_digits_cons c d r acc :
  digit_value c = Some d ->
  scan_digits (String c r) acc = scan_digits r (acc * 10 + d).
Proof. intros H. cbn [scan_digits]. by rewrite H. Qed.

Lemma scan_digits_uint u acc rest :
  ends_number rest ->
  scan_digits (NilEmpty.string_of_uint u +:+ rest) acc = (uint_fold u acc, rest).
Proof.
  intros Hrest. revert acc.
  induction u; intros acc; cbn [NilEmpty.string_of_uint uint_fold];
    rewrite ?append_cons;
    try (erewrite scan_digits_cons by reflexivity; apply IHu).
  rewrite append_nil_l. apply ends_number_not_digit in Hrest.
  destruct rest as [|c r]; [done|]. cbn [scan_digits]. by rewrite Hrest.
Qed.

Lemma to_uint_head p :
  exists c r, NilEmpty.string_of_uint (Pos.to_uint p) = String c r /\
    is_digit c = true /\ Ascii.eqb c "0" = false.
Proof.
  assert (Hn : Decimal.unorm (Pos.to_uint p) = Pos.to_uint p).
  { rewrite <- (DecimalPos.Unsigned.to_of (Pos.to_uint p)).
    by rewrite DecimalPos.Unsigned.of_to. }
  destruct (Pos.to_uint p) as [|u|u|u|u|u|u|u|u|u|u] eqn:E;
    try (by eexists _, _; split; [reflexivity|done]).
  - by destruct (DecimalPos.Unsigned.to_uint_nonnil p).
  - exfalso. rewrite unorm_D0 in Hn.
    assert (u = Decimal.Nil \/ u <> Decimal.Nil) as [->|Hu]
      by (destruct u; auto).
    + by destruct (DecimalPos.Unsigned.to_uint_nonzero p).
    + pose proof (nb_digits_unorm u Hu) as Hle. rewrite Hn in Hle.
      cbn [Decimal.nb_digits] in Hle. lia.
Qed.

(** A number is decoded by [scan_number] when it is followed by a comma,
    a closing bracket or the end of the input. *)
Lemma scan_number_repr z rest :
  ends_number rest ->
  scan_number (repr_int z +:+ rest) = Ok (Int z, rest).
Proof.
  intros Hrest.
  assert (Hfe : starts_frac_or_exp rest = false).
  { destruct rest as [|c r]; [done|]. by destruct Hrest as [-> | ->]. }
  destruct z as [|p|p]; cbn [repr_int].
  - unfold scan_number. rewrite append_cons, append_nil_l.
    cbn. by rewrite Hfe.
  - destruct (to_uint_head p) as (c & r & E & Hd & H0).
    unfold scan_number.
    pose proof (scan_digits_uint (Pos.to_uint p) 0 rest Hrest) as Hs.
    rewrite E in *. rewrite append_cons in *.
    destruct (Ascii.eqb c "-") eqn:Hm.
    { apply Ascii.eqb_eq in Hm. by subst c. }
    assert ((match String c (r +:+ rest) with
             | String "-"%char r0 => (true, r0)
             | _ => (false, String c (r +:+ rest)) end)
            = (false, String c (r +:+ rest))) as ->.
    { destruct c as [[] [] [] [] [] [] [] []]; done. }
    rewrite Hd, H0. cbn [negb]. rewrite Hs, uint_fold_to_uint, Hfe. done.
  - destruct (to_uint_head p) as (c & r & E & Hd & H0).
    unfold scan_number. rewrite append_cons.
    pose proof (scan_digits_uint (Pos.to_uint p) 0 rest Hrest) as Hs.
    rewrite E in *. rewrite append_cons in *.
    rewrite Hd, H0. cbn [negb]. rewrite Hs, uint_fold_to_uint, Hfe. done.
Qed.
Lemma scan_once_digit fuel c r :
  is_digit c = true ->
  scan_once (S fuel) (String c r) = scan_number (String c r).
Proof. destruct c as [[] [] [] [] [] [] [] []]; intros H; try done. Qed.

Lemma scan_once_minus fuel c r :
  is_digit c = true ->
  scan_once (S fuel) (String "-" (String c r)) =
  scan_number (String "-" (String c r)).
Proof. destruct c as [[] [] [] [] [] [] [] []]; intros H; try done. Qed.

Lemma is_digit_not_ws c : is_digit c = true -> is_ws c = false.
Proof. destruct c as [[] [] [] [] [] [] [] []]; intros H; try done. Qed.

Lemma is_digit_not_bracket c : is_digit c = true -> c <> "]"%char.
Proof. by intros H ->. Qed.

(** The first character of a printed integer. *)
Lemma repr_int_head z :
  exists c r, repr_int z = String c r /\
    (is_digit c = true \/
     c = "-"%char /\ exists c' r', r = String c' r' /\ is_digit c' = true).
Proof.
  destruct z as [|p|p]; cbn [repr_int].
  - eexists _, _. split; [reflexivity|]. by left.
  - destruct (to_uint_head p) as (c & r & -> & Hd & _). eauto.
  - destruct (to_uint_head p) as (c & r & -> & Hd & _).
    eexists _, _. split; [reflexivity|]. right. eauto.
Qed.

Lemma scan_once_repr_int fuel z rest :
  ends_number rest ->
  scan_once (S fuel) (repr_int z +:+ rest) = Ok (Int z, rest).
Proof.
  intros Hrest. rewrite <- (scan_number_repr z rest Hrest).
  destruct (repr_int_head z) as (c & r & -> & [Hd | (-> & c' & r' & -> & Hd)]).
  - by apply scan_once_digit.
  - by apply scan_once_minus.
Qed.

Lemma skip_ws_repr_int z rest :
  skip_ws (repr_int z +:+ rest) = repr_int z +:+ rest.
Proof.
  destruct (repr_int_head z) as (c & r & -> & [Hd | (-> & _)]).
  - rewrite append_cons. cbn [skip_ws]. by rewrite is_digit_not_ws.
  - reflexivity.
Qed.

Lemma repr_int_not_bracket z rest :
  exists c r, repr_int z +:+ rest = String c r /\ c <> "]"%char.
Proof.
  destruct (repr_int_head z) as (c & r & -> & [Hd | (-> & _)]);
    rewrite append_cons; eexists _, _; (split; [reflexivity|]).
  - by apply is_digit_not_bracket.
  - done.
Qed.

(** *** Arrays of integers *)

Lemma join_cons_cons sep x y l :
  join sep (x :: y :: l) = x +:+ sep +:+ join sep (y :: l).
Proof. reflexivity. Qed.

Lemma scan_array_ints scan l fuel rest :
  (forall z r, ends_number r -> scan (repr_int z +:+ r) = Ok (Int z, r)) ->
  l <> [] -> (length l <= fuel)%nat ->
  scan_array scan fuel (join ", " (map repr_int l) +:+ String "]" rest)
  = Ok (map Int l, rest).
Proof.
  intros Hscan. revert fuel.
  induction l as [|z [|z' l] IH]; intros fuel Hne Hfuel; [done|..].
  - destruct fuel as [|fuel]; [simpl in Hfuel; lia|].
    cbn [map join scan_array]. rewrite Hscan by (by right). reflexivity.
  - destruct fuel as [|fuel]; [simpl in Hfuel; lia|].
    cbn [map]. rewrite join_cons_cons, !append_assoc.
    cbn [scan_array]. rewrite append_cons, Hscan by (by left).
    cbn [res_bind]. 
    change (skip_ws (String "," ?x)) with (String "," x). cbv iota.
    rewrite append_cons, append_nil_l.
    change (skip_ws (String " " ?x)) with (skip_ws x).
    change (repr_int z' :: map repr_int l) with (map repr_int (z' :: l)).
    assert (skip_ws (join ", " (map repr_int (z' :: l)) +:+ String "]" rest)
            = join ", " (map repr_int (z' :: l)) +:+ String "]" rest) as ->.
    { destruct l; cbn [map join]; rewrite ?append_assoc;
        apply skip_ws_repr_int. }
    rewrite IH; [done|done|simpl in *; lia].
Qed.

Lemma length_join_ints l :
  (length l <= String.length (join ", " (map repr_int l)))%nat.
Proof.
  induction l as [|z [|z' l] IH]; [done|..].
  - destruct (repr_int_head z) as (c & r & E & _).
    cbn [map join]. rewrite E. simpl. lia.
  - cbn [map]. rewrite join_cons_cons, !length_append.
    destruct (repr_int_head z) as (c & r & -> & _).
    cbn [map] in IH. simpl in *. lia.
Qed.

Lemma scan_once_array fuel r c r0 :
  skip_ws r = String c r0 -> c <> "]"%char ->
  scan_once (S fuel) (String "[" r) =
  try (vs, r') <- scan_array (scan_once fuel) (String.length (String c r0))
                    (String c r0);
  Ok (Arr vs, r').
Proof.
  intros Hr Hc. cbn [scan_once].
  change (Ascii.eqb "[" dquote) with false.
  change (Ascii.eqb "[" "{") with false.
  change (Ascii.eqb "[" "[") with true. cbv iota. rewrite Hr.
  destruct c as [[] [] [] [] [] [] [] []]; done.
Qed.

Lemma map_dumps_ints l : map dumps (map Int l) = map repr_int l.
Proof. by rewrite map_map. Qed.

Lemma loads_dumps_ints l :
  loads (dumps (Arr (map Int l))) = Ok (Arr (map Int l)).
Proof.
  unfold loads. cbn [dumps]. rewrite map_dumps_ints, append_cons, append_nil_l.
  change (skip_ws (String "[" ?x)) with (String "[" x).
  cbn [String.length].
  destruct l as [|z l]; [reflexivity|].
  set (body := join ", " (map repr_int (z :: l)) +:+ "]").
  assert (Hskip : skip_ws body = body).
  { subst body. destruct l; cbn [map join]; rewrite ?append_assoc;
      apply skip_ws_repr_int. }
  assert (Hhead : exists c r0, body = String c r0 /\ c <> "]"%char).
  { subst body. destruct l; cbn [map join]; rewrite ?append_assoc;
      apply repr_int_not_bracket. }
  destruct Hhead as (c & r0 & Hbody & Hc).
  rewrite (scan_once_array _ body c r0) by congruence.
  rewrite <- Hbody.
  assert (Hlen : (length (z :: l) <= String.length body)%nat).
  { subst body. rewrite length_append.
    pose proof (length_join_ints (z :: l)). lia. }
  destruct (String.length body) as [|n] eqn:En; [simpl in Hlen; lia|].
  subst body.
  rewrite scan_array_ints; [reflexivity| |done|lia].
  intros z0 r Hr. by apply scan_once_repr_int.
Qed.
End JsonFacts.

Lemma mapM_as_int l : mapM as_int (map Json.Int l) = Some l.
Proof.
  induction l as [|z l IH]; [done|]. cbn. by rewrite IH.
Qed.



(** ** The starting grid *)

Lemma argmin_from_first_min xs : forall pre best_i best,
  pre !! best_i = Some best ->
  (forall j y, pre !! j = Some y -> (best <= y)%Q) ->
  (forall j y, pre !! j = Some y -> (j < best_i)%nat -> (best < y)%Q) ->
  is_first_min (pre ++ xs) (argmin_from best_i best (length pre) xs).
Proof.
  induction xs as [|x xs IH]; intros pre best_i best Hbest Hle Hlt.
  - rewrite app_nil_r. exists best. auto.
  - cbn [argmin_from]. rewrite cons_middle, app_assoc.
    replace (S (length pre)) with (length (pre ++ [x]))
      by (rewrite length_app; simpl; lia).
    destruct (Qlt_le_dec x best) as [Hx|Hx]; apply IH.
    + rewrite lookup_app_r by lia. by rewrite Nat.sub_diag.
    + intros j y [Hj|[_ Hj]]%lookup_app_Some.
      * apply Qlt_le_weak. eapply Qlt_le_trans; [exact Hx|]. by eapply Hle.
      * apply list_lookup_singleton_Some in Hj as [_ <-]. apply Qle_refl.
    + intros j y [Hj|[Hge _]]%lookup_app_Some Hji; [|lia].
      eapply Qlt_le_trans; [exact Hx|]. by eapply Hle.
    + apply lookup_app_l_Some. done.
    + intros j y [Hj|[_ Hj]]%lookup_app_Some.
      * by eapply Hle.
      * by apply list_lookup_singleton_Some in Hj as [_ <-].
    + intros j y [Hj|[Hge _]]%lookup_app_Some Hji.
      * by eapply Hlt.
      * apply lookup_lt_Some in Hbest. lia.
Qed.

Lemma argmin_first_min xs :
  xs <> [] -> exists i, argmin xs = Ok i /\ is_first_min xs i.
Proof.
  destruct xs as [|x xs]; [done|]. intros _. eexists. split; [reflexivity|].
  apply (argmin_from_first_min xs [x] 0%nat x).
  - done.
  - intros j y Hj. apply list_lookup_singleton_Some in Hj as [_ <-]. apply Qle_refl.
  - intros j y _ Hj. lia.
Qed.

Lemma is_first_min_abs_diff xs m i :
  is_first_min (abs_diff xs m) i -> is_argmin xs m i.
Proof.
  unfold abs_diff. intros (v & Hv & Hle & Hlt).
  change (map ?f ?l) with (f <$> l) in *.
  rewrite list_lookup_fmap in Hv.
  destruct (xs !! i) as [x|] eqn:Hx; [|done]. injection Hv as <-.
  exists x. split; [done|]. split.
  - intros j y Hj. apply (Hle j). by rewrite list_lookup_fmap, Hj.
  - intros j y Hj. apply (Hlt j). by rewrite list_lookup_fmap, Hj.
Qed.

Section StartingGrid.
Context `{RootSocket}.
Variable molecule : Molecule.

Lemma closest_to_reference_snoc scans grid scan i :
  closest_to_reference scans molecule grid ->
  is_argmin (steps scan) (scan_reference scan molecule) i ->
  closest_to_reference (scans ++ [scan]) molecule (grid ++ [Z.of_nat i]).
Proof.
  intros [Hlen Hgrid] Hi. split.
  - rewrite !length_app. simpl. lia.
  - intros d scan' [Hd|[Hge Hd]]%lookup_app_Some.
    + destruct (Hgrid d scan' Hd) as (i' & Hi' & Hmin).
      exists i'. split; [|done]. by apply lookup_app_l_Some.
    + apply list_lookup_singleton_Some in Hd as [Hd <-].
      exists i. split; [|done].
      rewrite lookup_app_r by lia.
      replace (d - length grid)%nat with 0%nat by lia. done.
Qed.

Lemma calculate_starting_grid_loop scans : forall pre grid,
  closest_to_reference pre molecule grid ->
  Forall (fun scan => steps scan <> []) scans ->
  exists grid',
    for_each scans (fun scan starting_grid =>
      try idx <- argmin (abs_diff (steps scan) (scan_reference scan molecule));
      Ok (starting_grid ++ [Z.of_nat idx])) grid = Ok grid' /\
    closest_to_reference (pre ++ scans) molecule grid'.
Proof.
  induction scans as [|scan scans IH]; intros pre grid Hgrid Hne.
  - exists grid. by rewrite app_nil_r.
  - apply Forall_cons in Hne as [Hscan Hne].
    destruct (argmin_first_min (abs_diff (steps scan) (scan_reference scan molecule)))
      as (i & Hi & Hmin).
    { unfold abs_diff. by destruct (steps scan). }
    cbn [for_each]. rewrite Hi. cbn [res_bind].
    replace (pre ++ scan :: scans) with ((pre ++ [scan]) ++ scans)
      by (by rewrite <- app_assoc).
    apply IH; [|done].
    apply closest_to_reference_snoc; [done|]. by apply is_first_min_abs_diff.
Qed.
End StartingGrid.





(** ** The monad of the socket *)

Section MonadFacts.
Context `{RootSocket}.

Lemma bind_ok {A B} (m : M A) (k : A -> M B) w w' a :
  m w = (w', Ok a) -> bind m k w = k a w'.
Proof. unfold bind. by intros ->. Qed.

Lemma bind_raise {A B} (m : M A) (k : A -> M B) w w' e :
  m w = (w', Raise e) -> bind m k w = (w', Raise e).
Proof. unfold bind. by intros ->. Qed.

Lemma unsnoc_snoc {A} (init : list A) e : unsnoc (init ++ [e]) = Some (init, e).
Proof.
  induction init as [|x init IH]; [done|].
  cbn [app unsnoc]. rewrite IH. by destruct init.
Qed.

Lemma unsnoc_Some {A} (l init : list A) e :
  unsnoc l = Some (init, e) -> l = init ++ [e].
Proof.
  revert init. induction l as [|x l IH]; intros init; [done|].
  cbn [unsnoc]. destruct l as [|y l].
  - by intros [= <- <-].
  - destruct (unsnoc (y :: l)) as [[i z]|]; [|done].
    intros [= <- <-]. by rewrite (IH i eq_refl).
Qed.

Lemma unsnoc_nonempty {A} (l : list A) :
  l <> [] -> exists init e, l = init ++ [e].
Proof.
  induction l as [|x l IH]; [done|]. intros _.
  destruct l as [|y l].
  - by exists [], x.
  - destruct IH as (init & e & ->); [done|]. by exists (x :: init), e.
Qed.

(** *** Frame rules *)

Lemma preserves_ret P {A} (a : A) : preserves P (ret a).
Proof. by intros w. Qed.

Lemma preserves_raise P {A} e : preserves P (@raise _ A e).
Proof. by intros w. Qed.

Lemma preserves_lift P {A} (r : Res A) : preserves P (lift r).
Proof. by intros w. Qed.

Lemma preserves_gets P {A} (f : World -> A) : preserves P (gets f).
Proof. by intros w. Qed.

Lemma preserves_modify (P : World -> Prop) f :
  (forall w, P w -> P (f w)) -> preserves P (modify f).
Proof. intros Hf w. apply Hf. Qed.

Lemma preserves_bind P {A B} (m : M A) (k : A -> M B) :
  preserves P m -> (forall a, preserves P (k a)) -> preserves P (bind m k).
Proof.
  intros Hm Hk w Hw. unfold bind. specialize (Hm w Hw).
  destruct (m w) as [w' [a|e]]; [|done]. by apply Hk.
Qed.

Lemma preserves_for_M P {A} (xs : list A) (body : A -> M unit) :
  (forall x, preserves P (body x)) -> preserves P (for_M xs body).
Proof.
  intros Hbody. induction xs as [|x xs IH]; cbn [for_M].
  - apply preserves_ret.
  - apply preserves_bind; auto.
Qed.

Lemma preserves_append_stdout P out : frame P -> preserves P (append_stdout out).
Proof.
  intros (_ & _ & _ & _ & _ & _ & Hh) w Hw. unfold append_stdout, bind, gets.
  destruct (unsnoc (compute_history (go_orm w))) as [[init e]|] eqn:E; [|done].
  apply Hh; [done|]. by apply unsnoc_Some.
Qed.

Lemma preserves_add_optimization P spec m :
  frame P -> preserves P (add_optimization spec m).
Proof.
  intros (_ & _ & _ & _ & Hs & _) w Hw. unfold add_optimization.
  destruct (optimization_add _ _ _ _ _) as [s' r]. by apply Hs.
Qed.

Lemma preserves_submit_task P st opt_spec sm task :
  frame P -> preserves P (submit_task st opt_spec sm task).
Proof.
  intros HP. pose proof HP as (_ & _ & Hd & Ho & _).
  destruct task as [key molecule]. unfold submit_task.
  apply preserves_bind; [apply preserves_gets|]. intros scans.
  apply preserves_bind; [apply preserves_lift|]. intros spec2.
  apply preserves_bind; [by apply preserves_add_optimization|].
  intros [success opt_ids]. destruct (negb success); [apply preserves_raise|].
  destruct opt_ids as [|opt_id ?]; [apply preserves_raise|].
  apply preserves_bind; [apply preserves_gets|]. intros gid.
  apply preserves_bind; [|intros _]; apply preserves_modify; auto.
Qed.

Lemma preserves_submit_optimizations P st tasks :
  frame P -> preserves P (submit_optimizations st tasks).
Proof.
  intros HP. pose proof HP as (_ & _ & Hd & _). unfold submit_optimizations.
  apply preserves_bind; [by apply preserves_modify; auto|]. intros _.
  apply preserves_bind; [apply preserves_gets|]. intros opt_spec.
  apply preserves_bind; [apply preserves_gets|]. intros sm.
  apply preserves_for_M. intros task. by apply preserves_submit_task.
Qed.

Lemma preserves_next_wave P st : frame P -> preserves P (next_wave st).
Proof.
  intros HP. pose proof HP as (Hm & Hg & _). unfold next_wave.
  repeat case_bool_decide.
  - apply preserves_bind; [apply preserves_gets|]. intros ?. apply preserves_ret.
  - apply preserves_bind; [apply preserves_gets|]. intros [|dep [|??]];
      try apply preserves_raise.
    apply preserves_bind; [apply preserves_lift|]. intros final.
    apply preserves_bind; [by apply preserves_modify; auto|]. intros _.
    apply preserves_bind; [apply preserves_gets|]. intros scans.
    apply preserves_bind; [apply preserves_lift|]. intros grid.
    apply preserves_bind; [by apply preserves_modify; auto|]. intros _.
    apply preserves_ret.
  - apply preserves_bind; [apply preserves_gets|]. intros initial.
    apply preserves_bind; [by apply preserves_modify; auto|]. intros _.
    apply preserves_bind; [apply preserves_gets|]. intros scans.
    apply preserves_bind; [apply preserves_lift|]. intros grid.
    apply preserves_bind; [by apply preserves_modify; auto|]. intros _.
    apply preserves_ret.
  - apply preserves_bind; [apply preserves_gets|]. intros deps.
    apply preserves_lift.
Qed.

Lemma preserves_finish P st tasks out : frame P -> preserves P (finish st tasks out).
Proof.
  intros HP. pose proof HP as (_ & _ & _ & _ & _ & Hs & _). unfold finish.
  apply preserves_bind.
  { case_bool_decide.
    - apply preserves_bind; [by apply preserves_submit_optimizations|]. intros _.
      apply preserves_bind; [apply preserves_gets|]. intros n. apply preserves_ret.
    - apply preserves_ret. }
  intros out'. apply preserves_bind; [by apply preserves_append_stdout|]. intros _.
  apply preserves_bind; [by apply preserves_modify; auto|]. intros _.
  apply preserves_ret.
Qed.

Lemma frame_stamped : frame stamped.
Proof.
  unfold frame. split_and!; try (intros ? w Hw; exact Hw).
  intros init e out w [Hst (i & e0 & Hh & Hp)] Hc. split; [exact Hst|].
  rewrite Hc in Hh. apply app_inj_tail in Hh as [-> ->].
  by exists i, {| provenance := provenance e0; stdout := stdout e0 ++ out |}.
Qed.

Lemma frame_has_history : frame has_history.
Proof.
  unfold frame. split_and!; try (intros ? w Hw; exact Hw).
  intros init e out w _ _. unfold has_history. cbn. by destruct init.
Qed.
End MonadFacts.

Section IterateFacts.
Context `{RootSocket}.

(** *** Loading the state *)

Lemma load_state_running w st :
  status (go_orm w) = RecordStatusEnum.running ->
  service_state (service_orm w) = Some st ->
  load_state w = (w, Ok st).
Proof.
  intros Hs Hst. unfold load_state, bind, gets. rewrite Hs.
  rewrite bool_decide_eq_true_2 by apply list_elem_of_here.
  rewrite bool_decide_eq_false_2 by done. cbn [negb]. by rewrite Hst.
Qed.

Lemma load_state_other w :
  status (go_orm w) <> RecordStatusEnum.running ->
  status (go_orm w) <> RecordStatusEnum.waiting ->
  load_state w = (w, Raise (RuntimeError CannotIterate)).
Proof.
  intros Hr Hw. unfold load_state, bind, gets.
  rewrite bool_decide_eq_false_2; [done|].
  rewrite !elem_of_cons, elem_of_nil. tauto.
Qed.

Lemma load_state_waiting w :
  status (go_orm w) = RecordStatusEnum.waiting ->
  has_history w ->
  exists w',
    load_state w = (w', Ok (created_state (keywords (specification (go_orm w))))) /\
    stamped w'.
Proof.
  intros Hs (init & e & Hh)%unsnoc_nonempty. unfold go_orm in *.
  unfold load_state, bind, gets, go_orm. rewrite Hs.
  rewrite bool_decide_eq_true_2
    by apply list_elem_of_further, list_elem_of_here.
  rewrite bool_decide_eq_true_2 by done. cbn [negb].
  unfold _create_state, append_stdout, set_provenance, bind, gets, modify, ret, go_orm.
  cbn. rewrite Hh, unsnoc_snoc. cbn. rewrite unsnoc_snoc.
  eexists. split; [reflexivity|]. split; [reflexivity|].
  eexists _, _. split; [reflexivity|]. reflexivity.
Qed.

Lemma load_state_no_history w :
  status (go_orm w) = RecordStatusEnum.waiting ->
  compute_history (go_orm w) = [] ->
  exists w', load_state w = (w', Raise IndexError).
Proof.
  intros Hs Hh. unfold go_orm in *. unfold load_state, bind, gets, go_orm. rewrite Hs.
  rewrite bool_decide_eq_true_2
    by apply list_elem_of_further, list_elem_of_here.
  rewrite bool_decide_eq_true_2 by done. cbn [negb].
  unfold _create_state, append_stdout, bind, gets, modify, go_orm. cbn. rewrite Hh.
  eexists. reflexivity.
Qed.
(** *** The driver *)

Lemma next_wave_preoptimization st w :
  iteration st = -2 ->
  next_wave st w =
    (w, Ok (set_iteration (-1) st,
            [("preoptimization"%string, to_model (initial_molecule (go_orm w)))],
            [StartingPreoptimization])).
Proof.
  intros Hi. unfold next_wave. rewrite Hi.
  rewrite bool_decide_eq_true_2 by done. reflexivity.
Qed.

Lemma next_wave_not_one_dependency st w :
  iteration st = -1 ->
  length (dependencies (service_orm w)) <> 1%nat ->
  next_wave st w =
    (w, Raise (RuntimeError (ExpectedOneComplete (length (dependencies (service_orm w)))))).
Proof.
  intros Hi Hn. unfold next_wave. rewrite Hi.
  rewrite bool_decide_eq_false_2 by done.
  rewrite bool_decide_eq_true_2 by done.
  unfold bind, gets. by destruct (dependencies (service_orm w)) as [|? [|??]].
Qed.

(** *** Submission *)

Lemma submit_task_ok st opt_spec sm key molecule w w' :
  submit_task st opt_spec sm (key, molecule) w = (w', Ok tt) ->
  exists opt_id,
    dependencies (service_orm w') =
    dependencies (service_orm w) ++
      [{| record_id := opt_id; extras_key := key; record_final_molecule := None |}].
Proof.
  unfold submit_task, bind, gets, lift, add_optimization, modify, raise.
  destruct (task_specification _ _ _ _ _) as [spec2|e]; [|done].
  destruct (optimization_add _ _ _ _ _) as [s' [success opt_ids]].
  destruct success; cbn [negb]; [|done].
  destruct opt_ids as [|opt_id ?]; [done|].
  intros [= <-]. by exists opt_id.
Qed.

Lemma for_M_submit_keys st opt_spec sm tasks : forall w w',
  for_M tasks (submit_task st opt_spec sm) w = (w', Ok tt) ->
  map extras_key (dependencies (service_orm w')) =
  map extras_key (dependencies (service_orm w)) ++ map fst tasks.
Proof.
  induction tasks as [|[key molecule] tasks IH]; intros w w'; cbn [for_M].
  - intros [= <-]. by rewrite app_nil_r.
  - unfold bind.
    destruct (submit_task st opt_spec sm (key, molecule) w) as [w1 [[]|e]] eqn:E;
      [|done].
    intros Hrest. apply IH in Hrest. rewrite Hrest.
    apply submit_task_ok in E as [opt_id ->].
    rewrite map_app. cbn [map fst extras_key]. by rewrite <- app_assoc.
Qed.

Lemma submit_optimizations_keys st tasks w w' :
  submit_optimizations st tasks w = (w', Ok tt) ->
  map extras_key (dependencies (service_orm w')) = map fst tasks.
Proof.
  unfold submit_optimizations, bind, modify, gets.
  intros Hs. by apply for_M_submit_keys in Hs.
Qed.

(** *** The end of one iteration *)

Lemma finish_no_tasks st out w :
  has_history w ->
  exists w',
    finish st [] out w = (w', Ok true) /\
    service_state (service_orm w') = Some st /\
    dependencies (service_orm w') = dependencies (service_orm w).
Proof.
  intros (init & e & Hh)%unsnoc_nonempty.
  unfold finish. rewrite bool_decide_eq_false_2 by (simpl; lia).
  rewrite bool_decide_eq_true_2 by done.
  unfold bind, ret, append_stdout, gets, modify. cbn.
  unfold go_orm in *. rewrite Hh, unsnoc_snoc.
  eexists. split; [reflexivity|]. by split.
Qed.

Lemma finish_tasks_ok st tasks out w w2 :
  tasks <> [] ->
  has_history w ->
  submit_optimizations st tasks w = (w2, Ok tt) ->
  exists w',
    finish st tasks out w = (w', Ok false) /\
    service_state (service_orm w') = Some st /\
    dependencies (service_orm w') = dependencies (service_orm w2).
Proof.
  intros Hne Hh Hs.
  assert (Hh2 : has_history w2).
  { pose proof (preserves_submit_optimizations has_history st tasks
                  frame_has_history w Hh) as Hp. by rewrite Hs in Hp. }
  apply unsnoc_nonempty in Hh2 as (init & e & Hh2).
  unfold finish. rewrite bool_decide_eq_true_2 by (destruct tasks; simpl; [done|lia]).
  rewrite bool_decide_eq_false_2 by (by destruct tasks).
  unfold bind at 1. unfold bind at 1. rewrite Hs.
  unfold bind, ret, append_stdout, gets, modify. cbn.
  unfold go_orm in *. rewrite Hh2, unsnoc_snoc.
  eexists. split; [reflexivity|]. by split.
Qed.

Lemma finish_tasks_raise st tasks out w w2 e :
  tasks <> [] ->
  submit_optimizations st tasks w = (w2, Raise e) ->
  finish st tasks out w = (w2, Raise e).
Proof.
  intros Hne Hs. unfold finish.
  rewrite bool_decide_eq_true_2 by (destruct tasks; simpl; [done|lia]).
  unfold bind at 1. unfold bind at 1. unfold bind at 1. by rewrite Hs.
Qed.
(** *** What a successful load tells *)

Lemma load_state_inv w w0 st :
  load_state w = (w0, Ok st) ->
  (status (go_orm w) = RecordStatusEnum.waiting /\
   st = created_state (keywords (specification (go_orm w))) /\ stamped w0) \/
  (status (go_orm w) = RecordStatusEnum.running /\ w0 = w /\
   service_state (service_orm w) = Some st).
Proof.
  intros Hl.
  destruct (decide (status (go_orm w) = RecordStatusEnum.waiting)) as [Hw|Hw].
  - left. split; [done|].
    destruct (compute_history (go_orm w)) as [|e h] eqn:Hh.
    + destruct (load_state_no_history w Hw Hh) as [w' Hr]. congruence.
    + destruct (load_state_waiting w Hw) as (w' & Hr & Hst).
      { unfold has_history. by rewrite Hh. }
      rewrite Hr in Hl. injection Hl as <- <-. done.
  - destruct (decide (status (go_orm w) = RecordStatusEnum.running)) as [Hr|Hr].
    + right. split; [done|].
      destruct (service_state (service_orm w)) as [st'|] eqn:Hst.
      * rewrite (load_state_running w st' Hr Hst) in Hl. by injection Hl as <- <-.
      * revert Hl. unfold load_state, bind, gets. rewrite Hr.
        rewrite bool_decide_eq_true_2 by apply list_elem_of_here.
        rewrite bool_decide_eq_false_2 by done. cbn [negb]. by rewrite Hst.
    + rewrite (load_state_other w Hr Hw) in Hl. done.
Qed.

(** The submission of the preoptimization alone. *)
Lemma submit_preoptimization st molecule w s' opt_id opt_ids :
  starting_molecule (go_orm w) = None ->
  optimization_add (session w) (optimization_specification (specification (go_orm w)))
    [molecule] (tag (service_orm w)) (priority (service_orm w))
    = (s', (true, opt_id :: opt_ids)) ->
  exists w',
    submit_optimizations st [("preoptimization"%string, molecule)] w = (w', Ok tt) /\
    session w' = s' /\
    dependencies (service_orm w') =
      [{| record_id := opt_id; extras_key := "preoptimization";
          record_final_molecule := None |}] /\
    compute_history (go_orm w') = compute_history (go_orm w).
Proof.
  intros Hsm Hadd.
  unfold submit_optimizations, for_M, submit_task, bind, modify, gets, lift, ret,
    add_optimization, task_specification, go_orm in *.
  cbn. rewrite Hsm. cbn. rewrite Hadd. cbn.
  eexists. split; [reflexivity|]. by repeat split.
Qed.
End IterateFacts.

(** ** The claims about [iterate_service] *)

(** C6.  When the state that [iterate_service] loads has [iteration = -1]
    and the number of dependencies is not exactly one, the call raises the
    [RuntimeError] "Expected one complete task for preoptimization" and
    leaves the service row and its record as they were: no state is
    stored, the iteration counter does not advance. *)
Theorem iterate_service_expects_one_preoptimization `{RootSocket}
    (w w0 : World) (st : GridoptimizationServiceState) :
  load_state w = (w0, Ok st) ->
  iteration st = -1 ->
  length (dependencies (service_orm w)) <> 1%nat ->
  iterate_service w =
    (w, Raise (RuntimeError
                 (ExpectedOneComplete (length (dependencies (service_orm w)))))).
Proof.
  intros Hl Hi Hn.
  destruct (load_state_inv w w0 st Hl) as [(_ & -> & _)|(Hs & -> & Hst)].
  - exfalso. revert Hi. cbn [created_state iteration].
    by destruct (preoptimization _).
  - unfold iterate_service, continue_from. rewrite (bind_ok _ _ _ _ _ Hl).
    by rewrite (bind_raise _ _ _ _ _ (next_wave_not_one_dependency st w Hi Hn)).
Qed.

(** A service waiting for its preoptimization with no dependency left. *)
Lemma iterate_service_expects_one_preoptimization_witness :
  @iterate_service test_socket stalled_world =
    (stalled_world, Raise (RuntimeError (ExpectedOneComplete 0))).
Proof.
  let l := eval vm_compute in (@load_state test_socket stalled_world) in
  match l with
  | (?w0, Ok ?st) =>
    apply (@iterate_service_expects_one_preoptimization test_socket
             stalled_world w0 st);
      [vm_compute; reflexivity | reflexivity | simpl; lia]
  end.
Defined.

(** C5.  On a record that is [waiting] (the first call) the status is set
    to [running], the state is created and the provenance is stamped on
    the latest history entry, and both still hold when the call ends; on a
    record that is [running] the state is the one stored in
    [service_state] and the load changes nothing; on any other status the
    call raises "cannot iterate" and changes nothing. *)
Theorem iterate_service_first_and_later_calls `{RootSocket} (w : World) :
  (status (go_orm w) = RecordStatusEnum.waiting -> has_history w ->
     exists w1,
       load_state w = (w1, Ok (created_state (keywords (specification (go_orm w))))) /\
       stamped w1 /\
       iterate_service w =
         continue_from (created_state (keywords (specification (go_orm w)))) w1 /\
       stamped (iterate_service w).1) /\
  (status (go_orm w) = RecordStatusEnum.running ->
     forall st, service_state (service_orm w) = Some st ->
       load_state w = (w, Ok st) /\
       iterate_service w = continue_from st w) /\
  (status (go_orm w) <> RecordStatusEnum.waiting ->
   status (go_orm w) <> RecordStatusEnum.running ->
     iterate_service w = (w, Raise (RuntimeError CannotIterate))).
Proof.
  split; [|split].
  - intros Hs Hh. destruct (load_state_waiting w Hs Hh) as (w1 & Hl & Hst).
    exists w1. split; [done|]. split; [done|].
    assert (Hit : iterate_service w =
              continue_from (created_state (keywords (specification (go_orm w)))) w1).
    { unfold iterate_service. by rewrite (bind_ok _ _ _ _ _ Hl). }
    split; [done|]. rewrite Hit. unfold continue_from.
    apply preserves_bind; [by apply preserves_next_wave, frame_stamped| |done].
    intros [[st' tasks] out]. by apply preserves_finish, frame_stamped.
  - intros Hs st Hst. pose proof (load_state_running w st Hs Hst) as Hl.
    split; [done|]. unfold iterate_service. by rewrite (bind_ok _ _ _ _ _ Hl).
  - intros Hw Hr. unfold iterate_service.
    by rewrite (bind_raise _ _ _ _ _ (load_state_other w Hr Hw)).
Qed.

(** The first call on a freshly added service. *)
Lemma iterate_service_first_and_later_calls_witness :
  @stamped test_socket
    (@iterate_service test_socket (fresh_world [absolute_scan] true 5%Q)).1.
Proof.
  destruct (@iterate_service_first_and_later_calls test_socket
              (fresh_world [absolute_scan] true 5%Q)) as [Hfirst _].
  destruct Hfirst as (w1 & _ & _ & _ & Hst); [reflexivity|discriminate|exact Hst].
Defined.

(** C4.  The state is created with [iteration = -2] when the keyword
    [preoptimization] is set and with 0 otherwise; at [iteration = -2] the
    driver emits exactly one task, keyed "preoptimization", that carries
    the initial molecule, and moves the iteration to -1; that task is
    submitted with the optimization specification as it is, no constraint
    added; and when the submission succeeds the call stores the state
    with [iteration = -1] and the one dependency. *)
Theorem preoptimization_starts_at_minus_two `{RootSocket} :
  (forall w, has_history w ->
     exists w',
       _create_state w = (w', Ok (created_state (keywords (specification (go_orm w))))) /\
       iteration (created_state (keywords (specification (go_orm w)))) =
         (if preoptimization (keywords (specification (go_orm w))) then -2 else 0)) /\
  (forall st w, iteration st = -2 ->
     next_wave st w =
       (w, Ok (set_iteration (-1) st,
               [("preoptimization"%string, to_model (initial_molecule (go_orm w)))],
               [StartingPreoptimization])) /\
     iteration (set_iteration (-1) st) = -1) /\
  (forall st opt_spec scans,
     task_specification st opt_spec scans None "preoptimization" = Ok opt_spec) /\
  (forall w w0 st s' opt_id opt_ids,
     load_state w = (w0, Ok st) ->
     iteration st = -2 ->
     has_history w0 ->
     starting_molecule (go_orm w0) = None ->
     optimization_add (session w0)
       (optimization_specification (specification (go_orm w0)))
       [to_model (initial_molecule (go_orm w0))]
       (tag (service_orm w0)) (priority (service_orm w0))
       = (s', (true, opt_id :: opt_ids)) ->
     exists w',
       iterate_service w = (w', Ok false) /\
       service_state (service_orm w') = Some (set_iteration (-1) st) /\
       session w' = s' /\
       dependencies (service_orm w') =
         [{| record_id := opt_id; extras_key := "preoptimization";
             record_final_molecule := None |}]).
Proof.
  split; [|split; [|split]].
  - intros w (init & e & Hh)%unsnoc_nonempty.
    unfold _create_state, append_stdout, bind, gets, modify, ret.
    rewrite Hh, unsnoc_snoc. eexists. split; reflexivity.
  - intros st w Hi. split; [by apply next_wave_preoptimization|done].
  - reflexivity.
  - intros w w0 st s' opt_id opt_ids Hl Hi Hh Hsm Hadd.
    destruct (submit_preoptimization (set_iteration (-1) st) _ w0 s' opt_id opt_ids
                Hsm Hadd) as (w2 & Hsub & Hs2 & Hd2 & Hh2).
    unfold iterate_service, continue_from.
    rewrite (bind_ok _ _ _ _ _ Hl).
    rewrite (bind_ok _ _ _ _ _ (next_wave_preoptimization st w0 Hi)).
    assert (Hne : [("preoptimization"%string, to_model (initial_molecule (go_orm w0)))]
                  <> []) by done.
    destruct (finish_tasks_ok (set_iteration (-1) st) _ [StartingPreoptimization]
                w0 w2 Hne Hh Hsub) as (w' & Hf & Hst & Hd).
    exists w'. split; [exact Hf|]. split; [done|]. split; [|by rewrite Hd].
    revert Hf. unfold finish. rewrite bool_decide_eq_true_2 by (simpl; lia).
    unfold bind at 1. unfold bind at 1. rewrite Hsub.
    apply unsnoc_nonempty in Hh as (init & e & Hh). rewrite <- Hh2 in Hh.
    unfold bind, ret, append_stdout, gets, modify. cbn.
    unfold go_orm in *. rewrite Hh, unsnoc_snoc. by intros [= <-].
Qed.

(** The first call on a fresh service with preoptimization. *)
Lemma preoptimization_starts_at_minus_two_witness :
  exists w',
    @iterate_service test_socket (fresh_world [absolute_scan] true 5%Q) = (w', Ok false) /\
    (iteration <$> service_state (service_orm w')) = Some (-1) /\
    map (@extras_key test_socket) (dependencies (service_orm w')) =
      ["preoptimization"%string].
Proof.
  set (w := fresh_world [absolute_scan] true 5%Q).
  let l := eval vm_compute in (@load_state test_socket w) in
  match l with
  | (?w0, Ok ?st) =>
    destruct (proj2 (proj2 (proj2 (@preoptimization_starts_at_minus_two test_socket)))
                w w0 st [({| opt_fields := tt; constraints_set := [] |}, [5%Q])] 0%nat [])
      as (w' & Hit & Hst & _ & Hd);
      [vm_compute; reflexivity | reflexivity | discriminate | reflexivity
      | reflexivity | ];
    exists w'; split; [exact Hit|]; rewrite Hst, Hd; split; reflexivity
  end.
Defined.



(** The second scenario of the specification.  The starting point (1, 1)
    is submitted with the initial molecule; once it is complete, the next
    call submits its four neighbours, each seeded from the final molecule
    of (1, 1) (record 0) and constrained to the steps of its grid point;
    once these are complete, the next call submits the four corners, each
    seeded from one complete neighbour; the call after that reports the
    service done. *)
Example grid_3x3_waves :
  submitted wave1 = [("[1, 1]"%string, [5%Q], [Some 5%Q; Some 5%Q])] /\
  submitted wave2 ≡ₚ
    [("[0, 1]"%string, [0%Q], [Some 0%Q; Some 5%Q]);
     ("[2, 1]"%string, [0%Q], [Some 10%Q; Some 5%Q]);
     ("[1, 0]"%string, [0%Q], [Some 5%Q; Some 0%Q]);
     ("[1, 2]"%string, [0%Q], [Some 5%Q; Some 10%Q])] /\
  map (fun x => x.1.1) (submitted wave3) ≡ₚ
    ["[0, 0]"; "[2, 0]"; "[0, 2]"; "[2, 2]"]%string /\
  (@iterate_service test_socket (complete_dependencies wave3)).2 = Ok true.
Proof.
  split_and!.
  - vm_compute. reflexivity.
  - match goal with |- ?l ≡ₚ _ =>
      let v := eval vm_compute in l in change l with v end.
    reflexivity.
  - match goal with |- ?l ≡ₚ _ =>
      let v := eval vm_compute in l in change l with v end.
    reflexivity.
  - vm_compute. reflexivity.
Qed.



(** ** Lowercase *)

Lemma lower_char_idemp c : lower_char (lower_char c) = lower_char c.
Proof. destruct c as [[] [] [] [] [] [] [] []]; reflexivity. Qed.

Lemma lower_idemp s : lower (lower s) = lower s.
Proof.
  induction s as [|c s IH]; [done|].
  cbn [lower]. by rewrite lower_char_idemp, IH.
Qed.

(** ** Task routes *)

(** C7.  The limit that [claim_tasks_v1] hands to the task queue is the
    requested limit clipped to [manager_tasks_claim]; [return_tasks_v1]
    answers a batch of more results than that maximum with
    [LimitExceededError] and leaves the queue untouched, and hands any
    other batch to [update_finished]. *)
Theorem claim_limit_clipped_return_limit_enforced `{Routes.TaskSocket}
    (api_limits : Routes.APILimits) (claim : Routes.TaskClaimBody)
    (ret : Routes.TaskReturnBody) (storage_socket : Routes.Store) :
  let max_limit := Routes.manager_tasks_claim api_limits in
  (exists effective,
     effective = Z.min (Routes.limit claim) max_limit /\
     effective <= max_limit /\
     (Routes.limit claim <= max_limit -> effective = Routes.limit claim) /\
     Routes.claim_tasks_v1 api_limits claim storage_socket =
       ((Routes.claim_tasks storage_socket (Routes.claim_fullname claim)
           (Routes.tags claim) effective).1,
        Ok (Routes.claim_tasks storage_socket (Routes.claim_fullname claim)
              (Routes.tags claim) effective).2)) /\
  (Z.of_nat (length (Routes.results ret)) > max_limit ->
     Routes.return_tasks_v1 api_limits ret storage_socket =
       (storage_socket, Raise LimitExceededError)) /\
  (Z.of_nat (length (Routes.results ret)) <= max_limit ->
     Routes.return_tasks_v1 api_limits ret storage_socket =
       ((Routes.update_finished storage_socket (Routes.return_fullname ret)
           (Routes.results ret)).1,
        Ok (Routes.update_finished storage_socket (Routes.return_fullname ret)
              (Routes.results ret)).2)).
Proof.
  intros max_limit. split; [|split].
  - exists (Z.min (Routes.limit claim) max_limit).
    split; [done|]. split; [lia|]. split; [lia|].
    unfold Routes.claim_tasks_v1, Routes.calculate_limit. fold max_limit.
    by destruct (Routes.claim_tasks _ _ _ _).
  - intros Hgt. unfold Routes.return_tasks_v1. fold max_limit.
    by rewrite bool_decide_eq_true_2.
  - intros Hle. unfold Routes.return_tasks_v1. fold max_limit.
    rewrite bool_decide_eq_false_2 by lia.
    by destruct (Routes.update_finished _ _ _).
Qed.

(** Three results against a maximum of two: nothing reaches the queue. *)
Lemma claim_limit_clipped_return_limit_enforced_witness :
  @Routes.return_tasks_v1 Routes.logging_socket
    {| Routes.manager_tasks_claim := 2 |}
    (@Routes.Build_TaskReturnBody Routes.logging_socket "manager" [1; 2; 3]%nat)
    [] = ([], Raise LimitExceededError) /\
  @Routes.claim_tasks_v1 Routes.logging_socket
    {| Routes.manager_tasks_claim := 2 |}
    (Routes.Build_TaskClaimBody "manager" ["*"%string] 10)
    [] = ([Routes.Claimed "manager" ["*"%string] 2], Ok []).
Proof.
  destruct (@claim_limit_clipped_return_limit_enforced Routes.logging_socket
              {| Routes.manager_tasks_claim := 2 |}
              (Routes.Build_TaskClaimBody "manager" ["*"%string] 10)
              (@Routes.Build_TaskReturnBody Routes.logging_socket "manager" [1; 2; 3]%nat)
              []) as ((eff & -> & _ & _ & Hclaim) & Hret & _).
  split.
  - apply Hret. simpl. lia.
  - exact Hclaim.
Defined.

(** ** Validators and check constraints *)

Section RecordsFacts.
Import Records.

Lemma checks_upgrade s :
  checks (upgrade s) =
  checks s ++
    [{| ck_name := "ck_result_program_lower"; ck_table := "result"; ck_column := "program" |};
     {| ck_name := "ck_result_driver_lower"; ck_table := "result"; ck_column := "driver" |};
     {| ck_name := "ck_result_method_lower"; ck_table := "result"; ck_column := "method" |};
     {| ck_name := "ck_result_basis_lower"; ck_table := "result"; ck_column := "basis" |};
     {| ck_name := "ck_optimization_procedure_program_lower";
        ck_table := "optimization_procedure"; ck_column := "program" |};
     {| ck_name := "ck_grid_optimization_procedure_program_lower";
        ck_table := "grid_optimization_procedure"; ck_column := "program" |};
     {| ck_name := "ck_torsiondrive_procedure_program_lower";
        ck_table := "torsiondrive_procedure"; ck_column := "program" |}].
Proof.
  unfold upgrade, create_check_constraint, alter_column_not_null. cbn [checks].
  by rewrite <- !app_assoc.
Qed.

Lemma accepts_check s table r ck :
  accepts s table r = true -> In ck (checks s) -> ck_table ck = table ->
  forall v, r (ck_column ck) = Some v -> v = lower v.
Proof.
  unfold accepts. intros Hacc Hin Ht v Hv.
  rewrite forallb_forall in Hacc. specialize (Hacc ck Hin).
  rewrite Ht, String.eqb_refl in Hacc. cbn [negb orb] in Hacc.
  unfold check_holds in Hacc. rewrite Hv in Hacc.
  by apply String.eqb_eq.
Qed.
End RecordsFacts.

(** C8.  The validators store the lowercase of the program, the method
    and the basis given; a row that the store accepts into [result]
    after the migration has its program, method, basis and driver in
    lowercase; and the row of a validated record with a lowercase driver
    is accepted. *)
Theorem lowercase_at_boundary_and_in_store :
  (forall data,
     Records.program (Records.validate data) = lower (Records.program data) /\
     Records.method (Records.validate data) = lower (Records.method data) /\
     Records.basis (Records.validate data) = lower <$> Records.basis data) /\
  (forall s r c v,
     Records.accepts (Records.upgrade s) "result" r = true ->
     c ∈ ["program"; "method"; "basis"; "driver"]%string ->
     r c = Some v -> v = lower v) /\
  (forall data driver,
     driver = lower driver ->
     Records.accepts (Records.upgrade Records.empty_schema) "result"
       (Records.result_row (Records.validate data) driver) = true).
Proof.
  split; [|split].
  - intros data. by split.
  - intros s r c v Hacc Hc Hv.
    assert (exists ck, In ck (Records.checks (Records.upgrade s)) /\
                       Records.ck_table ck = "result"%string /\
                       Records.ck_column ck = c) as (ck & Hin & Ht & <-).
    { rewrite checks_upgrade. rewrite !elem_of_cons, elem_of_nil in Hc.
      destruct Hc as [->|[->|[->|[->|[]]]]].
      - exists {| Records.ck_name := "ck_result_program_lower";
                  Records.ck_table := "result"; Records.ck_column := "program" |}.
        split; [apply in_or_app; right; cbn; tauto|by split].
      - exists {| Records.ck_name := "ck_result_method_lower";
                  Records.ck_table := "result"; Records.ck_column := "method" |}.
        split; [apply in_or_app; right; cbn; tauto|by split].
      - exists {| Records.ck_name := "ck_result_basis_lower";
                  Records.ck_table := "result"; Records.ck_column := "basis" |}.
        split; [apply in_or_app; right; cbn; tauto|by split].
      - exists {| Records.ck_name := "ck_result_driver_lower";
                  Records.ck_table := "result"; Records.ck_column := "driver" |}.
        split; [apply in_or_app; right; cbn; tauto|by split]. }
    by eapply accepts_check.
  - intros data driver Hd.
    unfold Records.accepts. rewrite checks_upgrade. cbn.
    unfold Records.check_holds, Records.result_row. cbn.
    unfold Records.check_program, Records.check_method, Records.check_basis,
      Records.prepare_basis.
    rewrite !lower_idemp, !String.eqb_refl, <- Hd, String.eqb_refl. cbn.
    destruct (Records.basis data) as [b|]; cbn; [|done].
    by rewrite lower_idemp, String.eqb_refl.
Qed.

(** A record submitted in mixed case. *)
Lemma lowercase_at_boundary_and_in_store_witness :
  Records.accepts (Records.upgrade Records.empty_schema) "result"
    (Records.result_row
       (Records.validate
          {| Records.program := "Psi4"; Records.method := "B3LYP";
             Records.basis := Some "6-31G*"%string |})
       "energy") = true /\
  Records.validate
    {| Records.program := "Psi4"; Records.method := "B3LYP";
       Records.basis := Some "6-31G*"%string |} =
    {| Records.program := "psi4"; Records.method := "b3lyp";
       Records.basis := Some "6-31g*"%string |}.
Proof.
  split; [|reflexivity].
  apply (proj2 (proj2 lowercase_at_boundary_and_in_store)). reflexivity.
Defined.

(** ** Submission *)

Section AddFacts.
Import Submission.
Context `{AddSocket}.

Lemma add_tag_lower go_spec mols t priority session :
  add go_spec mols (Some t) priority session =
  add go_spec mols (Some (lower t)) priority session.
Proof. unfold add. cbn [fmap option_fmap option_map]. by rewrite lower_idemp. Qed.
End AddFacts.

(** C10.  When the specification and the molecules are added, [add] with
    the tag [t] creates every service with the tag [lower t]; two calls
    whose tags differ only in case do the same. *)
Theorem add_lowercases_tag `{Submission.AddSocket}
    (go_spec : Submission.GridoptimizationInputSpecification)
    (initial_molecules : list Submission.MoleculeInput) (t : string)
    (priority : Service.PriorityEnum.t) (session : Submission.Session) :
  (forall s1 m1 spec_id s2 m2 init_mol_ids,
     Submission.add_specification session go_spec = (s1, (m1, spec_id)) ->
     Submission.success m1 = true ->
     Submission.add_mixed s1 initial_molecules = (s2, (m2, init_mol_ids)) ->
     Submission.success m2 = true ->
     Submission.add go_spec initial_molecules (Some t) priority session =
       Submission.insert_general s2
         (map (fun mid =>
            Submission.create_service
              {| Submission.is_service := true;
                 Submission.specification_id := spec_id;
                 Submission.initial_molecule_id := mid;
                 Submission.status := Service.RecordStatusEnum.waiting |}
              (Some (lower t)) priority) init_mol_ids)) /\
  (forall t', lower t' = lower t ->
     Submission.add go_spec initial_molecules (Some t') priority session =
     Submission.add go_spec initial_molecules (Some t) priority session).
Proof.
  split.
  - intros s1 m1 spec_id s2 m2 ids Hspec Hm1 Hmol Hm2.
    unfold Submission.add. rewrite Hspec, Hm1. cbn [negb]. rewrite Hmol, Hm2.
    reflexivity.
  - intros t' Ht. rewrite (add_tag_lower _ _ t'), (add_tag_lower _ _ t).
    by rewrite Ht.
Qed.

(** Two molecules submitted under a tag in mixed case. *)
Lemma add_lowercases_tag_witness :
  (@Submission.add Submission.recording_socket 4%nat [7; 8]%nat (Some "Tag_One"%string)
     Service.PriorityEnum.normal []).1 =
  [({| Submission.is_service := true; Submission.specification_id := Some 4%nat;
       Submission.initial_molecule_id := 7%nat;
       Submission.status := Service.RecordStatusEnum.waiting |},
    Some "tag_one"%string, Service.PriorityEnum.normal);
   ({| Submission.is_service := true; Submission.specification_id := Some 4%nat;
       Submission.initial_molecule_id := 8%nat;
       Submission.status := Service.RecordStatusEnum.waiting |},
    Some "tag_one"%string, Service.PriorityEnum.normal)].
Proof.
  rewrite (proj1 (@add_lowercases_tag Submission.recording_socket 4%nat [7; 8]%nat
                    "Tag_One" Service.PriorityEnum.normal [])
             _ _ _ _ _ _ eq_refl eq_refl eq_refl eq_refl).
  reflexivity.
Defined.


(** ** More about the loops *)

(** What every round keeps is kept by a loop that returns. *)
Lemma for_each_keeps {A S : Type} (P : S -> Prop) (body : A -> S -> Res S)
    (xs : list A) : forall a a',
  (forall x a a', x ∈ xs -> body x a = Ok a' -> P a -> P a') ->
  for_each xs body a = Ok a' -> P a -> P a'.
Proof.
  induction xs as [|x xs IH]; intros a a' Hbody; cbn [for_each].
  - by intros [= <-].
  - destruct (body x a) as [a1|e] eqn:E; [|done]. cbn [res_bind].
    intros Hrest Ha. eapply IH; [|exact Hrest|].
    + intros y b b' Hy. apply Hbody. by apply list_elem_of_further.
    + eapply Hbody; [apply list_elem_of_here|exact E|exact Ha].
Qed.

(** What the round of [x0] establishes and every later round keeps holds
    when the loop returns. *)
Lemma for_each_reach {A S : Type} (I K : S -> Prop) (body : A -> S -> Res S)
    (x0 : A) (xs : list A) : forall a a',
  (forall x a a', body x a = Ok a' -> I a -> I a') ->
  (forall x a a', body x a = Ok a' -> K a -> K a') ->
  (forall a a', body x0 a = Ok a' -> I a -> K a') ->
  x0 ∈ xs -> for_each xs body a = Ok a' -> I a -> K a'.
Proof.
  intros a a' HI HK Hx0 Hin. revert a.
  induction Hin as [x0 xs|x0 y xs Hin IH]; intros a; cbn [for_each].
  - destruct (body x0 a) as [a1|e] eqn:E; [|done]. cbn [res_bind].
    intros Hrest Ha. eapply (for_each_keeps K); [|exact Hrest|by eapply Hx0].
    intros x b b' _. apply HK.
  - destruct (body y a) as [a1|e] eqn:E; [|done]. cbn [res_bind].
    intros Hrest Ha. eapply IH; [exact Hx0|exact Hrest|by eapply HI].
Qed.

(** A loop raises what its first raising round raises. *)
Lemma for_each_raise {A S : Type} (Q : A -> Prop) (body : A -> S -> Res S)
    (xs : list A) : forall a,
  (forall x a, x ∈ xs -> Q x -> exists e, body x a = Raise e) ->
  Exists Q xs ->
  exists e, for_each xs body a = Raise e.
Proof.
  induction xs as [|x xs IH]; intros a Hbody Hex.
  - by apply Exists_nil in Hex.
  - cbn [for_each]. destruct (body x a) as [a1|e] eqn:E; [|by exists e].
    cbn [res_bind]. apply IH.
    + intros y b Hy. apply Hbody. by apply list_elem_of_further.
    + apply Exists_cons in Hex as [Hx|Hex]; [|done].
      destruct (Hbody x a (list_elem_of_here _ _) Hx) as [e He]. congruence.
Qed.

(** ** Grid expansion: nothing is missed *)

Section GridComplete.
Import Grid.
Variables (dimensions : list Z) (complete : gset key).

Lemma visit_candidates_emitted d seed disp a a' :
  visit dimensions complete d seed disp a = Ok a' ->
  candidates_emitted a -> candidates_emitted a'.
Proof.
  unfold visit. destruct seed as [s|t]; [by case_bool_decide|].
  destruct (t !! d) as [sd|]; [|done]. destruct (dimensions !! d) as [dim|]; [|done].
  cbn zeta. repeat case_bool_decide; intros [= <-]; try done.
  intros Ha n. cbn [fst snd]. rewrite fmap_app, elem_of_app, elem_of_union.
  intros [Hn|Hn]; [left; by apply Ha|right]. cbn.
  apply elem_of_singleton in Hn as ->. apply list_elem_of_here.
Qed.

Lemma visit_keeps_emitted n d seed disp a a' :
  visit dimensions complete d seed disp a = Ok a' ->
  n ∈ a.2.*2 -> n ∈ a'.2.*2.
Proof.
  unfold visit. destruct seed as [s|t]; [by case_bool_decide|].
  destruct (t !! d) as [sd|]; [|done]. destruct (dimensions !! d) as [dim|]; [|done].
  cbn zeta. repeat case_bool_decide; intros [= <-]; try done.
  cbn [fst snd]. rewrite fmap_app, elem_of_app. by left.
Qed.

Lemma visit_emits t d x dim disp a a' :
  t !! d = Some x -> dimensions !! d = Some dim -> 0 <= x + disp < dim ->
  KTup (<[d := x + disp]> t) ∉ complete ->
  visit dimensions complete d (KTup t) disp a = Ok a' ->
  candidates_emitted a ->
  KTup (<[d := x + disp]> t) ∈ a'.2.*2.
Proof.
  intros Ht Hd Hx Hc. unfold visit. rewrite Ht, Hd. cbn zeta.
  rewrite bool_decide_eq_false_2 by lia. rewrite bool_decide_eq_false_2 by lia.
  case_bool_decide as Hin.
  - intros [= <-] Ha. by apply Ha.
  - rewrite bool_decide_eq_false_2 by done. intros [= <-] _.
    cbn [fst snd]. rewrite fmap_app, elem_of_app. right. apply list_elem_of_here.
Qed.
End GridComplete.

Import Grid.

(** The loops of [expand_ndimensional_grid] reach every neighbour. *)
Lemma expand_loop_emits
    (dimensions : list Z) (seeds : list key) (complete : gset key)
    (a : acc) (t : list Z) (d : nat) (x dim disp : Z) :
  for_each (seq 0 (length dimensions)) (fun d =>
    for_each seeds (fun seed =>
      for_each [-1; 1] (fun disp =>
        visit dimensions complete d seed disp))) (∅, []) = Ok a ->
  KTup t ∈ seeds -> t !! d = Some x -> dimensions !! d = Some dim ->
  disp = -1 \/ disp = 1 ->
  0 <= x + disp < dim ->
  KTup (<[d := x + disp]> t) ∉ complete ->
  KTup (<[d := x + disp]> t) ∈ a.2.*2.
Proof.
  intros Hloop Hseed Ht Hd Hdisp Hx Hc.
  set (n := KTup (<[d := x + disp]> t)) in *.
  assert (Hvi : forall d' s' disp' a a',
            visit dimensions complete d' s' disp' a = Ok a' ->
            candidates_emitted a -> candidates_emitted a')
    by (intros; by eapply visit_candidates_emitted).
  assert (Hvk : forall d' s' disp' a a',
            visit dimensions complete d' s' disp' a = Ok a' ->
            n ∈ a.2.*2 -> n ∈ a'.2.*2)
    by (intros; by eapply visit_keeps_emitted).
  assert (Hdi : forall d' s' a a',
            for_each [-1; 1] (fun disp' => visit dimensions complete d' s' disp') a = Ok a' ->
            candidates_emitted a -> candidates_emitted a').
  { intros d' s' b b'. apply (for_each_keeps candidates_emitted). eauto. }
  assert (Hdk : forall d' s' a a',
            for_each [-1; 1] (fun disp' => visit dimensions complete d' s' disp') a = Ok a' ->
            n ∈ a.2.*2 -> n ∈ a'.2.*2).
  { intros d' s' b b'. apply (for_each_keeps (fun a => n ∈ a.2.*2)). eauto. }
  eapply (for_each_reach candidates_emitted (fun a => n ∈ a.2.*2) _ d);
    [| | | |exact Hloop|].
  - intros d' b b'. apply (for_each_keeps candidates_emitted). eauto.
  - intros d' b b'. apply (for_each_keeps (fun a => n ∈ a.2.*2)). eauto.
  - intros b b'.
    apply (for_each_reach candidates_emitted (fun a => n ∈ a.2.*2) _ (KTup t));
      [by eauto|by eauto| |done].
    intros c c'.
    apply (for_each_reach candidates_emitted (fun a => n ∈ a.2.*2) _ disp);
      [by eauto|by eauto| |].
    + intros c0 c1. by apply (visit_emits dimensions complete t d x dim disp).
    + destruct Hdisp as [-> | ->]; [apply list_elem_of_here|].
      apply list_elem_of_further, list_elem_of_here.
  - apply elem_of_seq. apply lookup_lt_Some in Hd. lia.
  - intros n'. cbn. by rewrite elem_of_empty.
Qed.

(** X2.  When [expand_ndimensional_grid] returns, it has missed nothing:
    for every seed, every axis of the grid and both directions, the
    neighbour one step away is among the emitted neighbours whenever it
    lies within the bounds of that axis and is not in [complete]. *)
Theorem expand_ndimensional_grid_complete
    (dimensions : list Z) (seeds : list key) (complete : gset key)
    (pairs : list (key * key)) (t : list Z) (d : nat) (x dim disp : Z) :
  expand_ndimensional_grid dimensions seeds complete = Ok pairs ->
  KTup t ∈ seeds -> t !! d = Some x -> dimensions !! d = Some dim ->
  disp = -1 \/ disp = 1 ->
  0 <= x + disp < dim ->
  KTup (<[d := x + disp]> t) ∉ complete ->
  KTup (<[d := x + disp]> t) ∈ pairs.*2.
Proof.
  unfold expand_ndimensional_grid. intros Hexp.
  destruct (for_each _ _ _) as [a|e] eqn:Hloop; [|done].
  injection Hexp as <-. by apply expand_loop_emits.
Qed.

(** The centre of a 3 x 3 grid: its neighbour to the right is emitted. *)
Lemma expand_ndimensional_grid_complete_witness :
  KTup (<[1%nat := 1 + 1]> [1; 1]) ∈
    [(KTup [1; 1], KTup [0; 1]); (KTup [1; 1], KTup [2; 1]);
     (KTup [1; 1], KTup [1; 0]); (KTup [1; 1], KTup [1; 2])].*2.
Proof.
  apply (expand_ndimensional_grid_complete [3; 3] [KTup [1; 1]] {[ KTup [1; 1] ]}
           _ [1; 1] 1%nat 1 3 1).
  - vm_compute. reflexivity.
  - apply list_elem_of_here.
  - reflexivity.
  - reflexivity.
  - by right.
  - lia.
  - intros Hin%elem_of_singleton. discriminate.
Defined.

(** X3.  A seed without a coordinate on some axis of the grid, a string
    (the key "preoptimization", say) or a tuple shorter than the grid,
    makes [expand_ndimensional_grid] raise: nothing is emitted. *)
Theorem expand_ndimensional_grid_missing_axis
    (dimensions : list Z) (seeds : list key) (complete : gset key)
    (seed : key) (d : nat) :
  (d < length dimensions)%nat -> seed ∈ seeds -> ~ has_axis d seed ->
  exists e, expand_ndimensional_grid dimensions seeds complete = Raise e.
Proof.
  intros Hd Hs Hax. unfold expand_ndimensional_grid.
  match goal with |- context [for_each (seq 0 ?n) ?b ?a] =>
    destruct (for_each_raise (fun d' => d' = d) b (seq 0 n) a) as [e He]
  end.
  - intros d' a _ ->.
    apply (for_each_raise (fun k => k = seed)).
    + intros k a' _ ->. cbn [for_each]. unfold visit at 1.
      destruct seed as [s|t]; [case_bool_decide; by eexists|].
      destruct (t !! d) as [x|] eqn:Hx; [|by eexists].
      destruct Hax. exists t. eauto.
    + apply Exists_exists. eauto.
  - apply Exists_exists. exists d. split; [|done]. apply elem_of_seq. lia.
  - exists e. by rewrite He.
Qed.

(** The key of the preoptimization among the seeds of a 3 x 3 grid. *)
Lemma expand_ndimensional_grid_missing_axis_witness :
  exists e,
    expand_ndimensional_grid [3; 3] [KTup [1; 1]; KStr "preoptimization"] ∅ = Raise e.
Proof.
  apply (expand_ndimensional_grid_missing_axis _ _ _ (KStr "preoptimization") 0).
  - simpl. lia.
  - apply list_elem_of_further, list_elem_of_here.
  - intros (t & Ht & _). discriminate.
Defined.


(** ** Keys *)

Lemma loads_serialize_key k : Json.loads (serialize_key k) = Ok (key_to_json k).
Proof.
  unfold serialize_key. destruct k as [s|t]; cbn [key_to_json].
  - apply loads_encode_string.
  - apply loads_dumps_ints.
Qed.

Lemma key_to_json_inj k1 k2 : key_to_json k1 = key_to_json k2 -> k1 = k2.
Proof.
  destruct k1 as [s1|t1], k2 as [s2|t2]; cbn [key_to_json]; try done.
  - by intros [= ->].
  - intros [= Ht]. f_equal. revert t2 Ht.
    induction t1 as [|z t1 IH]; intros [|z2 t2]; cbn [map]; try done.
    intros [= -> Ht]. f_equal. by apply IH.
Qed.

(** What decodes to the JSON of a key deserializes to the key. *)
Lemma deserialize_key_of_json k s :
  Json.loads s = Ok (key_to_json k) -> deserialize_key s = Ok k.
Proof.
  intros Hs. unfold deserialize_key. rewrite Hs. cbn [res_bind].
  destruct k as [?|t]; cbn [key_to_json]; [done|]. by rewrite mapM_as_int.
Qed.

(** X4.  [serialize_key] is injective: two keys with the same serialized
    text are the same key, so that distinct grid points never share a key
    of the task dictionary or of the dependencies, and the text of a
    string key is never the text of a grid point. *)
Theorem serialize_key_inj (k1 k2 : key) :
  serialize_key k1 = serialize_key k2 -> k1 = k2.
Proof.
  intros Heq. apply key_to_json_inj.
  pose proof (loads_serialize_key k1) as H1.
  rewrite Heq, loads_serialize_key in H1. by injection H1.
Qed.

(** Two ways to write the grid point (1, 1). *)
Lemma serialize_key_inj_witness : KTup [1; 1] = KTup (map Z.succ [0; 0]).
Proof. apply serialize_key_inj. reflexivity. Defined.

(** ** The starting grid *)

Section StartingGridFacts.
Context `{RootSocket}.
Variable molecule : Molecule.

Lemma starting_grid_loop_nonempty scans : forall grid grid',
  for_each scans (fun scan starting_grid =>
    try idx <- argmin (abs_diff (steps scan) (scan_reference scan molecule));
    Ok (starting_grid ++ [Z.of_nat idx])) grid = Ok grid' ->
  Forall (fun scan => steps scan <> []) scans.
Proof.
  induction scans as [|scan scans IH]; intros grid grid'; [done|].
  cbn [for_each]. destruct (steps scan) as [|s ss] eqn:Hs; [done|].
  cbn [abs_diff map argmin res_bind]. intros Hrest%IH.
  constructor; [by rewrite Hs|done].
Qed.

Lemma starting_grid_loop_empty scans : forall grid,
  Exists (fun scan => steps scan = []) scans ->
  for_each scans (fun scan starting_grid =>
    try idx <- argmin (abs_diff (steps scan) (scan_reference scan molecule));
    Ok (starting_grid ++ [Z.of_nat idx])) grid = Raise ValueError.
Proof.
  induction scans as [|scan scans IH]; intros grid Hex.
  - by apply Exists_nil in Hex.
  - cbn [for_each]. destruct (steps scan) as [|s ss] eqn:Hs; [done|].
    cbn [abs_diff map argmin res_bind]. apply IH.
    apply Exists_cons in Hex as [Hx|Hex]; [congruence|done].
Qed.
End StartingGridFacts.

(** The indices of a starting grid are indices of steps. *)
Lemma starting_grid_indices `{RootSocket}
    (scans : list ScanDimension) (molecule : Molecule) (grid : list Z) :
  calculate_starting_grid scans molecule = Ok grid ->
  length grid = length scans /\
  Grid.in_bounds (map (fun x => Z.of_nat (length (steps x))) scans) (KTup grid).
Proof.
  intros Hgrid.
  pose proof (starting_grid_loop_nonempty molecule _ _ _ Hgrid) as Hne.
  destruct (calculate_starting_grid_loop molecule scans [] [])
    as (g & Hg & Hlen & Hc); [|done|].
  { split; [done|]. intros d scan Hd. by rewrite lookup_nil in Hd. }
  cbn [app] in *. unfold calculate_starting_grid in Hgrid.
  rewrite Hg in Hgrid. injection Hgrid as ->.
  split; [done|]. intros d dim Hd.
  change (map ?f ?l) with (f <$> l) in Hd. rewrite list_lookup_fmap in Hd.
  destruct (scans !! d) as [scan|] eqn:Hscan; [|done].
  injection Hd as <-.
  destruct (Hc d scan Hscan) as (i & Hi & x & Hx & _).
  exists (Z.of_nat i). split; [done|]. apply lookup_lt_Some in Hx. lia.
Qed.

(** X5.  When [calculate_starting_grid] returns for the scans of the
    keywords, the starting grid is a point of the grid that
    [_create_state] lays out for these keywords: one index per scan, and
    on every axis an index from 0 up to, but not including, the number
    of steps of the scan. *)
Theorem calculate_starting_grid_in_bounds `{RootSocket}
    (keywords : GridoptimizationKeywords) (molecule : Molecule) (grid : list Z) :
  calculate_starting_grid (scans keywords) molecule = Ok grid ->
  length grid = length (scans keywords) /\
  Grid.in_bounds (dimensions (created_state keywords)) (KTup grid).
Proof. apply starting_grid_indices. Qed.

(** An absolute and a relative scan of a molecule that measures 6. *)
Lemma calculate_starting_grid_in_bounds_witness :
  Grid.in_bounds
    (dimensions (created_state
       {| scans := [absolute_scan; relative_scan]; preoptimization := false |}))
    (KTup [1; 0]).
Proof.
  apply (@calculate_starting_grid_in_bounds test_socket
           {| scans := [absolute_scan; relative_scan]; preoptimization := false |}
           6%Q [1; 0]).
  reflexivity.
Defined.

(** X6.  A scan without steps makes [calculate_starting_grid] raise the
    [ValueError] of [argmin] on an empty array, wherever the scan stands
    among the scans. *)
Theorem calculate_starting_grid_empty_steps `{RootSocket}
    (scans : list ScanDimension) (molecule : Molecule) :
  Exists (fun scan => steps scan = []) scans ->
  calculate_starting_grid scans molecule = Raise ValueError.
Proof. apply starting_grid_loop_empty. Qed.

(** A scan with three steps followed by a scan with none. *)
Lemma calculate_starting_grid_empty_steps_witness :
  @calculate_starting_grid test_socket
    [absolute_scan;
     {| scan_type := "angle"; indices := [0; 1; 2]; steps := [];
        step_type := StepTypeEnum.relative |}] 6%Q = Raise ValueError.
Proof.
  apply (@calculate_starting_grid_empty_steps test_socket).
  apply Exists_cons_tl, Exists_cons_hd. reflexivity.
Defined.


(** ** The constraints of a grid point *)

Lemma py_index_lookup {A} (l : list A) (i : Z) :
  0 <= i < Z.of_nat (length l) ->
  exists x, l !! Z.to_nat i = Some x /\ py_index l i = Ok x.
Proof.
  intros Hi. unfold py_index. cbn zeta.
  rewrite (bool_decide_eq_false_2 (i < 0)) by lia. cbv iota.
  rewrite bool_decide_eq_true_2 by lia.
  destruct (lookup_lt_is_Some_2 l (Z.to_nat i)) as [x Hx]; [lia|].
  exists x. by rewrite Hx.
Qed.

Section Constraints.
Context `{RootSocket}.
Variables (starting_molecule : Molecule) (t : list Z).

Lemma construct_constraints_loop rest : forall off cs,
  (forall d scan, rest !! d = Some scan ->
     cs !! (off + d)%nat =
       Some {| con_type := scan_type scan; con_indices := indices scan;
               con_value := None |}) ->
  (forall d scan, rest !! d = Some scan ->
     exists x, t !! (off + d)%nat = Some x /\
               0 <= x < Z.of_nat (length (steps scan))) ->
  exists cs',
    for_each (imap (fun i scan => ((off + i)%nat, scan)) rest)
      (fun '(con_num, scan) constraints =>
        try step <- scan_step (KTup t) con_num scan;
        let value :=
          match step_type scan with
          | StepTypeEnum.absolute => step
          | StepTypeEnum.relative =>
            (step + measure starting_molecule (indices scan))%Q
          end in
        set_value constraints con_num value) cs = Ok cs' /\
    length cs' = length cs /\
    (forall d, (d < off)%nat -> cs' !! d = cs !! d) /\
    (forall d scan, rest !! d = Some scan ->
       exists x step, t !! (off + d)%nat = Some x /\ 0 <= x /\
         steps scan !! Z.to_nat x = Some step /\
         cs' !! (off + d)%nat = Some (scan_constraint starting_molecule scan step)).
Proof.
  induction rest as [|scan rest IH]; intros off cs Htpl Hb.
  - exists cs. split; [done|]. split; [done|]. split; [done|].
    intros d scan Hd. by rewrite lookup_nil in Hd.
  - rewrite imap_cons. cbn [for_each].
    destruct (Hb 0%nat scan eq_refl) as (x & Hx & Hrange).
    destruct (py_index_lookup (steps scan) x Hrange) as (step & Hstep & Hpy).
    pose proof (Htpl 0%nat scan eq_refl) as Hc.
    unfold scan_step at 1. rewrite Hx, Hpy. cbn [res_bind]. cbn zeta.
    unfold set_value at 1. rewrite Hc. cbn [res_bind con_type con_indices].
    fold (scan_constraint starting_molecule scan step).
    rewrite (imap_ext _ (fun i scan => ((S off + i)%nat, scan)))
      by (intros i s _; cbn; f_equal; lia).
    destruct (IH (S off) (<[(off + 0)%nat := scan_constraint starting_molecule scan step]> cs))
      as (cs' & Hloop & Hlen & Hlow & Hpost).
    { intros d s Hd. rewrite list_lookup_insert_ne by lia.
      replace (S off + d)%nat with (off + S d)%nat by lia. by apply Htpl. }
    { intros d s Hd. replace (S off + d)%nat with (off + S d)%nat by lia.
      by apply Hb. }
    exists cs'. split; [exact Hloop|]. split; [by rewrite Hlen, length_insert|].
    split.
    + intros d Hd. rewrite Hlow by lia. by rewrite list_lookup_insert_ne by lia.
    + intros [|d] s Hd.
      * injection Hd as <-. exists x, step. split; [done|]. split; [lia|].
        split; [done|]. rewrite Hlow by lia.
        apply list_lookup_insert_eq. by eapply lookup_lt_Some.
      * replace (off + S d)%nat with (S off + d)%nat by lia. by apply Hpost.
Qed.
End Constraints.

(** The constraints of a grid point, from the template of the scans. *)
Lemma construct_constraints_scans `{RootSocket}
    (scans : list ScanDimension) (st : GridoptimizationServiceState)
    (starting_molecule : Molecule) (t : list Z) :
  constraint_template st = map (fun scan => (scan_type scan, indices scan)) scans ->
  Grid.in_bounds (map (fun x => Z.of_nat (length (steps x))) scans) (KTup t) ->
  exists cs,
    construct_constraints st scans starting_molecule (KTup t) = Ok cs /\
    length cs = length scans /\
    forall d scan, scans !! d = Some scan ->
      exists x step, t !! d = Some x /\ 0 <= x /\
        steps scan !! Z.to_nat x = Some step /\
        cs !! d = Some (scan_constraint starting_molecule scan step).
Proof.
  intros Htpl Hb.
  unfold construct_constraints. rewrite Htpl, map_map.
  destruct (construct_constraints_loop starting_molecule t scans 0%nat
              (map (fun scan => {| con_type := scan_type scan;
                                   con_indices := indices scan;
                                   con_value := None |}) scans))
    as (cs & Hloop & Hlen & _ & Hpost).
  - intros d scan Hd. cbn [Nat.add].
    change (map ?f ?l) with (f <$> l). by rewrite list_lookup_fmap, Hd.
  - intros d scan Hd. cbn [Nat.add]. apply (Hb d).
    change (map ?f ?l) with (f <$> l). by rewrite list_lookup_fmap, Hd.
  - exists cs. split; [exact Hloop|]. split; [by rewrite Hlen, length_map|].
    exact Hpost.
Qed.

(** X7.  For a state with the layout of [_create_state] and a grid point
    within the bounds of the grid, the constraints that
    [submit_optimizations] assembles are one per scan, in the order of
    the scans, each with the type and the indices of its scan and with
    the value [steps[idx]] for an absolute scan and
    [steps[idx] + measure] of the starting molecule for a relative one,
    [idx] being the coordinate of the grid point on the axis of the
    scan. *)
Theorem construct_constraints_grid_point `{RootSocket}
    (keywords : GridoptimizationKeywords) (st : GridoptimizationServiceState)
    (starting_molecule : Molecule) (t : list Z) :
  laid_out_for keywords st ->
  Grid.in_bounds (dimensions st) (KTup t) ->
  exists cs,
    construct_constraints st (scans keywords) starting_molecule (KTup t) = Ok cs /\
    length cs = length (scans keywords) /\
    forall d scan, scans keywords !! d = Some scan ->
      exists x step, t !! d = Some x /\ 0 <= x /\
        steps scan !! Z.to_nat x = Some step /\
        cs !! d = Some (scan_constraint starting_molecule scan step).
Proof.
  intros [Hdim Htpl] Hb. rewrite Hdim in Hb.
  by apply construct_constraints_scans.
Qed.

(** The point (2, 1) of an absolute scan of three steps and a relative
    scan of two: the values are 10 and 5 + 6 for a molecule that
    measures 6. *)
Lemma construct_constraints_grid_point_witness :
  exists cs,
    @construct_constraints test_socket
      (created_state {| scans := [absolute_scan; relative_scan];
                        preoptimization := false |})
      [absolute_scan; relative_scan] 6%Q (KTup [2; 1]) = Ok cs /\
    map con_value cs = [Some 10%Q; Some (5 + 6)%Q].
Proof.
  set (kw := {| scans := [absolute_scan; relative_scan]; preoptimization := false |}).
  destruct (@construct_constraints_grid_point test_socket kw (created_state kw)
              6%Q [2; 1]) as (cs & Hcs & _ & _).
  - split; reflexivity.
  - intros [|[|d]] dim Hd; simplify_eq/=; eexists; (split; [reflexivity|lia]).
  - exists cs. split; [exact Hcs|].
    vm_compute in Hcs. by injection Hcs as <-.
Defined.


(** ** Dictionaries *)

Section DictFacts.
Context {V : Type}.
Implicit Types (k : string) (v : V) (d : list (string * V)).

Lemma dict_set_keys k v d k' :
  k' ∈ (dict_set k v d).*1 <-> k' = k \/ k' ∈ d.*1.
Proof.
  induction d as [|[k0 v0] d IH]; cbn [dict_set].
  - cbn. rewrite list_elem_of_singleton, elem_of_nil. tauto.
  - destruct (String.eqb_spec k k0) as [->|Hne]; cbn [fmap list_fmap fst].
    + rewrite !elem_of_cons. tauto.
    + rewrite !elem_of_cons. cbn [fmap] in IH. rewrite IH. tauto.
Qed.

Lemma dict_set_elem k v d kv :
  kv ∈ dict_set k v d -> kv = (k, v) \/ kv ∈ d.
Proof.
  induction d as [|[k0 v0] d IH]; cbn [dict_set].
  - intros ->%list_elem_of_singleton. by left.
  - destruct (String.eqb_spec k k0) as [->|Hne]; rewrite !elem_of_cons.
    + tauto.
    + intros [->|Hin]; [tauto|]. destruct (IH Hin); tauto.
Qed.

Lemma dict_get_elem k v d : dict_get k d = Ok v -> (k, v) ∈ d.
Proof.
  induction d as [|[k0 v0] d IH]; cbn [dict_get]; [done|].
  destruct (String.eqb_spec k k0) as [->|Hne].
  - intros [= ->]. apply list_elem_of_here.
  - intros Hd. apply list_elem_of_further. by apply IH.
Qed.

Lemma dict_get_is_Ok k d : k ∈ d.*1 -> exists v, dict_get k d = Ok v.
Proof.
  induction d as [|[k0 v0] d IH]; cbn [dict_get fmap list_fmap fst].
  - by intros ?%elem_of_nil.
  - destruct (String.eqb_spec k k0) as [->|Hne]; [by eexists|].
    rewrite elem_of_cons. intros [?|Hin]; [done|]. by apply IH.
Qed.

Lemma dict_set_fresh k v d : k ∉ d.*1 -> dict_set k v d = d ++ [(k, v)].
Proof.
  induction d as [|[k0 v0] d IH]; cbn [dict_set fmap list_fmap fst]; [done|].
  rewrite not_elem_of_cons. intros [Hne Hd].
  destruct (String.eqb_spec k k0) as [->|_]; [done|]. cbn [app]. f_equal. by apply IH.
Qed.
End DictFacts.

(** ** One normal iteration *)

Section Wave.
Context `{RootSocket}.

Lemma molecule_map_loop deps : forall mm,
  Forall (fun dep => is_Some (record_final_molecule dep)) deps ->
  exists mm',
    for_each deps (fun dep molecule_map =>
      try m <- final_molecule dep;
      Ok (dict_set (extras_key dep) (to_model m) molecule_map)) mm = Ok mm' /\
    (forall k, k ∈ mm.*1 \/ k ∈ map extras_key deps -> k ∈ mm'.*1) /\
    (forall k v, (k, v) ∈ mm' ->
       (k, v) ∈ mm \/
       exists dep fm, dep ∈ deps /\ extras_key dep = k /\
         record_final_molecule dep = Some fm /\ v = to_model fm).
Proof.
  induction deps as [|dep deps IH]; intros mm Hfm.
  - exists mm. split; [done|]. split; [|by left].
    intros k [Hk|Hk]; [done|]. by apply elem_of_nil in Hk.
  - apply Forall_cons in Hfm as [[fm Hdep] Hfm]. cbn [for_each].
    unfold final_molecule at 1. rewrite Hdep. cbn [res_bind].
    destruct (IH (dict_set (extras_key dep) (to_model fm) mm) Hfm)
      as (mm' & Hloop & Hkeys & Helem).
    exists mm'. split; [exact Hloop|]. split.
    + intros k Hk. apply Hkeys. cbn [map] in Hk. rewrite elem_of_cons in Hk.
      rewrite dict_set_keys. tauto.
    + intros k v Hkv. destruct (Helem k v Hkv) as [Hin|(dep' & fm' & Hd & Hrest)].
      * apply dict_set_elem in Hin as [[= -> ->]|Hin]; [|by left].
        right. exists dep, fm. split; [apply list_elem_of_here|done].
      * right. exists dep', fm'. split; [by apply list_elem_of_further|done].
Qed.

Lemma deserialize_keys_loop ks : forall deps acc,
  map extras_key deps = map serialize_key ks ->
  for_each deps (fun dep ks =>
    try k <- deserialize_key (extras_key dep); Ok (ks ++ [k])) acc = Ok (acc ++ ks).
Proof.
  induction ks as [|k ks IH]; intros [|dep deps] acc; cbn [map]; try done.
  - intros _. by rewrite app_nil_r.
  - intros [= Hk Hrest]. cbn [for_each]. rewrite Hk.
    rewrite (deserialize_key_of_json k) by apply loads_serialize_key.
    cbn [res_bind]. rewrite (IH deps _ Hrest). by rewrite <- app_assoc.
Qed.

Lemma next_tasks_loop (mm : list (string * Molecule)) pairs : forall acc,
  NoDup (acc.*1 ++ map (fun np : key * key => serialize_key np.2) pairs) ->
  (forall np, np ∈ pairs -> exists m, dict_get (serialize_key np.1) mm = Ok m) ->
  exists tasks,
    for_each pairs (fun new_points next_tasks =>
      try m <- dict_get (serialize_key new_points.1) mm;
      Ok (dict_set (serialize_key new_points.2) m next_tasks)) acc
      = Ok (acc ++ tasks) /\
    Forall2 (fun (np : key * key) (task : string * Molecule) =>
               task.1 = serialize_key np.2 /\
               dict_get (serialize_key np.1) mm = Ok task.2) pairs tasks.
Proof.
  induction pairs as [|np pairs IH]; intros acc Hnd Hget.
  - exists []. by rewrite app_nil_r.
  - cbn [for_each].
    destruct (Hget np (list_elem_of_here _ _)) as [m Hm]. rewrite Hm. cbn [res_bind].
    cbn [map] in Hnd.
    assert (Hfresh : serialize_key np.2 ∉ acc.*1).
    { apply NoDup_app in Hnd as (_ & Hdisj & _). intros Hin.
      apply (Hdisj _ Hin). apply list_elem_of_here. }
    rewrite (dict_set_fresh _ _ _ Hfresh).
    destruct (IH (acc ++ [(serialize_key np.2, m)])) as (tasks & Hloop & Hall).
    + rewrite fmap_app. cbn [fmap list_fmap fst]. rewrite <- app_assoc. done.
    + intros np' Hin. apply Hget. by apply list_elem_of_further.
    + exists ((serialize_key np.2, m) :: tasks). split.
      * rewrite Hloop. by rewrite <- app_assoc.
      * by constructor.
Qed.

End Wave.

Lemma next_tasks_keys `{RootSocket} (mm : list (string * Molecule))
    (pairs : list (key * key)) (tasks : list (string * Molecule)) :
  Forall2 (fun (np : key * key) (task : string * Molecule) =>
             task.1 = serialize_key np.2 /\
             dict_get (serialize_key np.1) mm = Ok task.2) pairs tasks ->
  tasks.*1 = serialize_key <$> pairs.*2.
Proof.
  induction 1 as [|np task pairs tasks [Hk _] _ IH]; [done|].
  cbn [fmap list_fmap]. by rewrite Hk, IH.
Qed.

Lemma next_tasks_covers `{RootSocket} (mm : list (string * Molecule))
    (pairs : list (key * key)) (np : key * key) acc tasks :
  for_each pairs (fun new_points next_tasks =>
    try m <- dict_get (serialize_key new_points.1) mm;
    Ok (dict_set (serialize_key new_points.2) m next_tasks)) acc = Ok tasks ->
  np ∈ pairs -> serialize_key np.2 ∈ tasks.*1.
Proof.
  intros Hloop Hnp.
  apply (for_each_reach (fun _ => True) (fun a => serialize_key np.2 ∈ a.*1)
           (fun new_points next_tasks =>
              try m <- dict_get (serialize_key new_points.1) mm;
              Ok (dict_set (serialize_key new_points.2) m next_tasks)) np
           pairs acc tasks);
    [done| | |exact Hnp|exact Hloop|done].
  - intros x a a'. destruct (dict_get _ mm) as [m|e]; [|done]. cbn [res_bind].
    intros [= <-] Hin. apply dict_set_keys. by right.
  - intros a a'. destruct (dict_get _ mm) as [m|e]; [|done]. cbn [res_bind].
    intros [= <-] _. apply dict_set_keys. by left.
Qed.

(** The driver of a normal iteration on well-formed dependencies. *)
Lemma expand_wave_ok `{RootSocket}
    (st : GridoptimizationServiceState) (deps : list ServiceDependenciesORM)
    (ks : list key) :
  map extras_key deps = map serialize_key ks ->
  Forall (Grid.in_bounds (dimensions st)) ks ->
  Forall (fun dep => is_Some (record_final_molecule dep)) deps ->
  exists st' tasks out,
    expand_wave st deps = Ok (st', tasks, out) /\
    iteration st' = iteration st /\
    dimensions st' = dimensions st /\
    constraint_template st' = constraint_template st /\
    (forall k, k ∈ complete st' <-> k ∈ complete st \/ k ∈ ks) /\
    NoDup (complete st') /\
    NoDup tasks.*1 /\
    (exists ns, tasks.*1 = map serialize_key ns /\
                Forall (Grid.in_bounds (dimensions st)) ns) /\
    (forall t d x dim disp,
       KTup t ∈ ks -> t !! d = Some x -> dimensions st !! d = Some dim ->
       disp = -1 \/ disp = 1 -> 0 <= x + disp < dim ->
       KTup (<[d := x + disp]> t) ∉ complete st ->
       KTup (<[d := x + disp]> t) ∉ ks ->
       serialize_key (KTup (<[d := x + disp]> t)) ∈ tasks.*1) /\
    forall key m, (key, m) ∈ tasks ->
      exists s n dep fm,
        key = serialize_key n /\ Grid.in_bounds (dimensions st) n /\
        (n ∉ complete st) /\ (n ∉ ks) /\ (s ∈ ks) /\ Grid.one_step s n /\
        dep ∈ deps /\ extras_key dep = serialize_key s /\
        record_final_molecule dep = Some fm /\ m = to_model fm.
Proof.
  intros Hkeys Hb Hfm.
  destruct (molecule_map_loop deps [] Hfm) as (mm & Hmm & Hmk & Hme).
  pose proof (deserialize_keys_loop ks deps [] Hkeys) as Hds. cbn [app] in Hds.
  unfold expand_wave. rewrite Hmm. cbn [res_bind].
  unfold deserialize_keys. rewrite Hds. cbn [res_bind]. cbn zeta.
  cbn [dimensions set_complete complete].
  match goal with |- context [Grid.expand_ndimensional_grid ?D ?S ?C] =>
    destruct (expand_inv_result D S C) as (a & Ha & Hpairs & Hnd & _)
  end.
  { apply Forall_forall. intros s Hs%elem_of_elements%elem_of_list_to_set.
    apply in_bounds_has_axis. rewrite Forall_forall in Hb. by apply Hb. }
  unfold Grid.expand_ndimensional_grid. rewrite Ha. cbn [res_bind].
  assert (Hinj : Inj (=) (=) serialize_key).
  { intros k1 k2 Heq. apply key_to_json_inj.
    pose proof (loads_serialize_key k1) as H1.
    rewrite Heq, loads_serialize_key in H1. by injection H1. }
  destruct (next_tasks_loop mm a.2 []) as (tasks & Htasks & Hall).
  { cbn [fmap list_fmap app]. rewrite <- (map_map snd serialize_key).
    by apply (NoDup_fmap_2 serialize_key). }
  { intros [s n] Hin. destruct (Hpairs s n Hin) as (Hs & _).
    apply elem_of_elements, elem_of_list_to_set in Hs.
    apply dict_get_is_Ok, Hmk. right. rewrite Hkeys.
    by apply (list_elem_of_fmap_2 serialize_key). }
  rewrite Htasks. cbn [res_bind app].
  eexists _, _, _. split; [reflexivity|].
  cbn [iteration dimensions constraint_template complete set_complete].
  split; [done|]. split; [done|]. split; [done|].
  split; [|split; [|split; [|split; [|split]]]].
  - intros k. rewrite elem_of_elements, elem_of_union, !elem_of_list_to_set. done.
  - apply NoDup_elements.
  - rewrite (next_tasks_keys _ _ _ Hall). by apply (NoDup_fmap_2 serialize_key).
  - exists a.2.*2. split; [by rewrite (next_tasks_keys _ _ _ Hall)|].
    apply Forall_forall. intros n ([s n'] & -> & Hin)%list_elem_of_fmap.
    destruct (Hpairs s n' Hin) as (Hs & Hbn & _). apply Hbn.
    apply elem_of_elements, elem_of_list_to_set in Hs.
    rewrite Forall_forall in Hb. by apply Hb.
  - intros t d x dim disp Ht Hx Hd Hdisp Hrange Hc Hk.
    assert (Hn : KTup (<[d := x + disp]> t) ∈ a.2.*2).
    { eapply expand_loop_emits; [exact Ha| |done..|].
      - by apply elem_of_elements, elem_of_list_to_set.
      - rewrite elem_of_list_to_set, elem_of_elements, elem_of_union,
          !elem_of_list_to_set. tauto. }
    apply list_elem_of_fmap in Hn as ([s n] & Hn & Hin). cbn [snd] in Hn. subst n.
    change (?a ++ ?b) with b in Htasks.
    by apply (next_tasks_covers mm a.2 (s, KTup (<[d := x + disp]> t)) [] tasks).
  - intros key m Hin. apply list_elem_of_lookup in Hin as [i Hi].
    destruct (Forall2_lookup_r _ _ _ _ _ Hall Hi) as ([s n] & Hnp & Hk & Hget).
    cbn [fst snd] in *. apply list_elem_of_lookup_2 in Hnp.
    destruct (Hpairs s n Hnp) as (Hs & Hbn & Hc & Hstep).
    apply elem_of_elements, elem_of_list_to_set in Hs.
    apply dict_get_elem, Hme in Hget as [Hnil|(dep & fm & Hdep & Hdk & Hdf & ->)];
      [by apply elem_of_nil in Hnil|].
    exists s, n, dep, fm. split; [done|]. split.
    { apply Hbn. rewrite Forall_forall in Hb. by apply Hb. }
    rewrite elem_of_list_to_set, elem_of_elements, elem_of_union,
      !elem_of_list_to_set in Hc.
    split; [tauto|]. split; [tauto|]. done.
Qed.


(** ** What the service assigns *)

Section Footprint.
Context `{RootSocket}.

Lemma submit_frame_append_stdout P out :
  history_clause P -> preserves P (append_stdout out).
Proof.
  intros Hh w Hw. unfold append_stdout, bind, gets.
  destruct (unsnoc (compute_history (go_orm w))) as [[init e]|] eqn:E; [|done].
  apply Hh; [done|]. by apply unsnoc_Some.
Qed.

Lemma submit_frame_set_provenance P p :
  history_clause P -> preserves P (set_provenance p).
Proof.
  intros Hh w Hw. unfold set_provenance, bind, gets.
  destruct (unsnoc (compute_history (go_orm w))) as [[init e]|] eqn:E; [|done].
  unfold modify. cbn [fst].
  rewrite <- (app_nil_r (stdout e)). apply Hh; [done|]. by apply unsnoc_Some.
Qed.

Lemma submit_frame_task P st opt_spec sm task :
  submit_frame P -> preserves P (submit_task st opt_spec sm task).
Proof.
  intros (Hd & Hs & Ho). destruct task as [key molecule]. unfold submit_task.
  apply preserves_bind; [apply preserves_gets|]. intros scans.
  apply preserves_bind; [apply preserves_lift|]. intros spec2.
  apply preserves_bind.
  { intros w Hw. unfold add_optimization.
    destruct (optimization_add _ _ _ _ _) as [s' r]. by apply Hs. }
  intros [success opt_ids]. destruct (negb success); [apply preserves_raise|].
  destruct opt_ids as [|opt_id ?]; [apply preserves_raise|].
  apply preserves_bind; [apply preserves_gets|]. intros gid.
  apply preserves_bind; [|intros _]; apply preserves_modify; auto.
Qed.

Lemma submit_frame_optimizations P st tasks :
  submit_frame P -> preserves P (submit_optimizations st tasks).
Proof.
  intros HP. pose proof HP as (Hd & _). unfold submit_optimizations.
  apply preserves_bind; [by apply preserves_modify; auto|]. intros _.
  apply preserves_bind; [apply preserves_gets|]. intros opt_spec.
  apply preserves_bind; [apply preserves_gets|]. intros sm.
  apply preserves_for_M. intros task. by apply submit_frame_task.
Qed.

Lemma submit_frame_finish P st tasks out :
  submit_frame P -> (forall s w, P w -> P (set_service_state s w)) ->
  history_clause P -> preserves P (finish st tasks out).
Proof.
  intros HP Hs Hh. unfold finish.
  apply preserves_bind.
  { case_bool_decide.
    - apply preserves_bind; [by apply submit_frame_optimizations|]. intros _.
      apply preserves_bind; [apply preserves_gets|]. intros n. apply preserves_ret.
    - apply preserves_ret. }
  intros out'. apply preserves_bind; [by apply submit_frame_append_stdout|]. intros _.
  apply preserves_bind; [by apply preserves_modify; auto|]. intros _.
  apply preserves_ret.
Qed.

Lemma iterate_frame_next_wave P st : iterate_frame P -> preserves P (next_wave st).
Proof.
  intros (_ & Hm & Hg & _). unfold next_wave.
  repeat case_bool_decide.
  - apply preserves_bind; [apply preserves_gets|]. intros ?. apply preserves_ret.
  - apply preserves_bind; [apply preserves_gets|]. intros [|dep [|??]];
      try apply preserves_raise.
    apply preserves_bind; [apply preserves_lift|]. intros final.
    apply preserves_bind; [by apply preserves_modify; auto|]. intros _.
    apply preserves_bind; [apply preserves_gets|]. intros scans.
    apply preserves_bind; [apply preserves_lift|]. intros grid.
    apply preserves_bind; [by apply preserves_modify; auto|]. intros _.
    apply preserves_ret.
  - apply preserves_bind; [apply preserves_gets|]. intros initial.
    apply preserves_bind; [by apply preserves_modify; auto|]. intros _.
    apply preserves_bind; [apply preserves_gets|]. intros scans.
    apply preserves_bind; [apply preserves_lift|]. intros grid.
    apply preserves_bind; [by apply preserves_modify; auto|]. intros _.
    apply preserves_ret.
  - apply preserves_bind; [apply preserves_gets|]. intros deps.
    apply preserves_lift.
Qed.

Lemma iterate_frame_load_state P : iterate_frame P -> preserves P load_state.
Proof.
  intros (_ & _ & _ & _ & Hst & Hh). unfold load_state.
  apply preserves_bind; [apply preserves_gets|]. intros st.
  destruct (negb _); [apply preserves_raise|]. case_bool_decide.
  - apply preserves_bind; [by apply preserves_modify|]. intros _.
    apply preserves_bind.
    { unfold _create_state. apply preserves_bind; [apply preserves_gets|].
      intros kw. apply preserves_bind; [by apply submit_frame_append_stdout|].
      intros _. apply preserves_ret. }
    intros st'. apply preserves_bind; [by apply submit_frame_set_provenance|].
    intros _. apply preserves_ret.
  - apply preserves_bind; [apply preserves_gets|]. intros [st'|];
      [apply preserves_ret|apply preserves_raise].
Qed.

Lemma iterate_frame_iterate_service P : iterate_frame P -> preserves P iterate_service.
Proof.
  intros HP. unfold iterate_service, continue_from.
  apply preserves_bind; [by apply iterate_frame_load_state|]. intros st.
  apply preserves_bind; [by apply iterate_frame_next_wave|].
  intros [[st' tasks] out]. destruct HP as (Hsub & _ & _ & Hs & _ & Hh).
  by apply submit_frame_finish.
Qed.

Lemma history_extends_append h init e p out :
  history_extends h (init ++ [e]) ->
  history_extends h (init ++ [{| provenance := p; stdout := stdout e ++ out |}]).
Proof.
  intros [Heq|(i0 & e0 & e1 & Hh & Heq & Hpre)]; right.
  - exists init, e, {| provenance := p; stdout := stdout e ++ out |}.
    split; [done|]. split; [done|]. cbn. by apply prefix_app_r.
  - apply app_inj_tail in Heq as [-> ->].
    exists i0, e0, {| provenance := p; stdout := stdout e1 ++ out |}.
    split; [done|]. split; [done|]. cbn. by apply prefix_app_r.
Qed.
End Footprint.

(** X8.  Whether it returns or raises, [iterate_service] leaves alone what
    identifies the calculation: the ids of the service and of the
    record, the tag, the priority, the specification and the initial
    molecule.  It keeps every earlier entry of the compute history and
    only appends to the stdout of the latest one, and it only appends to
    the association table of the record's optimizations. *)
Theorem iterate_service_footprint `{RootSocket} (w : World) :
  identity (iterate_service w).1 = identity w /\
  history_extends (compute_history (go_orm w))
    (compute_history (go_orm (iterate_service w).1)) /\
  optimizations (go_orm w) `prefix_of` optimizations (go_orm (iterate_service w).1).
Proof.
  apply (iterate_frame_iterate_service (fun w' =>
    identity w' = identity w /\
    history_extends (compute_history (go_orm w)) (compute_history (go_orm w')) /\
    optimizations (go_orm w) `prefix_of` optimizations (go_orm w'))).
  - unfold iterate_frame, submit_frame. split_and!;
      try (intros ? w' Hw'; exact Hw'); try (intros w' Hw'; exact Hw').
    + intros o w' (Hid & Hh & Ho). split; [exact Hid|]. split; [exact Hh|].
      cbn. by apply prefix_app_r.
    + intros init e p out w' (Hid & Hh & Ho) Hc. split; [exact Hid|].
      split; [|exact Ho]. cbn. apply history_extends_append.
      unfold go_orm in *. by rewrite <- Hc.
  - split; [done|]. split; [by left|done].
Qed.


(** ** The frontier of a wave *)

(** X9.  A wave that the driver returns misses no point of the frontier:
    for every dependency's grid point, every axis of the grid and both
    directions, the point one step away has a task under its serialized
    key whenever it lies within the bounds of that axis and is neither
    complete already nor the point of a dependency. *)
Theorem expand_wave_frontier `{RootSocket}
    (st st' : GridoptimizationServiceState) (deps : list ServiceDependenciesORM)
    (tasks : list (string * Molecule)) (out : list message)
    (ks : list key) (t : list Z) (d : nat) (x dim disp : Z) :
  expand_wave st deps = Ok (st', tasks, out) ->
  deserialize_keys deps = Ok ks ->
  KTup t ∈ ks -> t !! d = Some x -> dimensions st !! d = Some dim ->
  disp = -1 \/ disp = 1 ->
  0 <= x + disp < dim ->
  KTup (<[d := x + disp]> t) ∉ complete st ->
  KTup (<[d := x + disp]> t) ∉ ks ->
  serialize_key (KTup (<[d := x + disp]> t)) ∈ tasks.*1.
Proof.
  intros Hwave Hks Ht Hx Hd Hdisp Hrange Hc Hk. revert Hwave.
  unfold expand_wave.
  destruct (for_each deps _ []) as [mm|e]; [|done]. cbn [res_bind].
  rewrite Hks. cbn [res_bind]. cbn zeta. cbn [dimensions set_complete complete].
  unfold Grid.expand_ndimensional_grid.
  destruct (for_each (seq _ _) _ _) as [a|e] eqn:Hloop; [|done]. cbn [res_bind].
  destruct (for_each a.2 _ []) as [next_tasks|e] eqn:Htasks; [|done].
  cbn [res_bind]. intros [= <- <- <-].
  assert (Hn : KTup (<[d := x + disp]> t) ∈ a.2.*2).
  { eapply expand_loop_emits; [exact Hloop| |done..|].
    - by apply elem_of_elements, elem_of_list_to_set.
    - rewrite elem_of_list_to_set, elem_of_elements, elem_of_union,
        !elem_of_list_to_set. tauto. }
  apply list_elem_of_fmap in Hn as ([s n] & Hn & Hin). cbn [snd] in Hn. subst n.
  by apply (next_tasks_covers mm a.2 (s, KTup (<[d := x + disp]> t)) [] next_tasks).
Qed.

(** The second call of the 3 x 3 scenario: the point to the right of the
    centre has its task. *)
Lemma expand_wave_frontier_witness :
  exists (tasks : list (string * Q)),
    "[1, 2]"%string ∈ tasks.*1 /\
    exists st' out,
      @expand_wave test_socket
        {| iteration := 1; complete := []; dimensions := [3; 3];
           constraint_template := [("distance"%string, [0; 1]);
                                   ("distance"%string, [0; 1])] |}
        (dependencies (service_orm (complete_dependencies wave1)))
      = Ok (st', tasks, out).
Proof.
  set (deps := dependencies (service_orm (complete_dependencies wave1))).
  set (st := {| iteration := 1; complete := []; dimensions := [3; 3];
                constraint_template := [("distance"%string, [0; 1]);
                                        ("distance"%string, [0; 1])] |}).
  let r := eval vm_compute in (@expand_wave test_socket st deps) in
  match r with
  | Ok (?st', ?tasks, ?out) =>
    exists tasks; split; [|exists st', out; vm_compute; reflexivity];
    apply (@expand_wave_frontier test_socket st st' deps tasks out
             [KTup [1; 1]] [1; 1] 1%nat 1 3 1);
      [vm_compute; reflexivity | vm_compute; reflexivity | apply list_elem_of_here
      | reflexivity | reflexivity | by right | lia
      | intros Hin; by apply elem_of_nil in Hin
      | intros Hin%list_elem_of_singleton; discriminate]
  end.
Defined.

(** ** The association table *)

Section Association.
Context `{RootSocket}.

Lemma submit_task_appends st opt_spec sm key molecule w w' :
  submit_task st opt_spec sm (key, molecule) w = (w', Ok tt) ->
  id (go_orm w') = id (go_orm w) /\
  exists dep,
    extras_key dep = key /\ record_final_molecule dep = None /\
    dependencies (service_orm w') = dependencies (service_orm w) ++ [dep] /\
    optimizations (go_orm w') =
      optimizations (go_orm w) ++ [association (id (go_orm w)) dep].
Proof.
  unfold submit_task, bind, gets, lift, add_optimization, modify, raise.
  destruct (task_specification _ _ _ _ _) as [spec2|e]; [|done].
  destruct (optimization_add _ _ _ _ _) as [s' [success opt_ids]].
  destruct success; cbn [negb]; [|done].
  destruct opt_ids as [|opt_id ?]; [done|].
  intros [= <-]. split; [done|].
  by exists {| record_id := opt_id; extras_key := key; record_final_molecule := None |}.
Qed.

Lemma for_M_submit_appends st opt_spec sm tasks : forall w w',
  for_M tasks (submit_task st opt_spec sm) w = (w', Ok tt) ->
  id (go_orm w') = id (go_orm w) /\
  exists new,
    map extras_key new = map fst tasks /\
    Forall (fun dep => record_final_molecule dep = None) new /\
    dependencies (service_orm w') = dependencies (service_orm w) ++ new /\
    optimizations (go_orm w') =
      optimizations (go_orm w) ++ map (association (id (go_orm w))) new.
Proof.
  induction tasks as [|[key molecule] tasks IH]; intros w w'; cbn [for_M].
  - intros [= <-]. split; [done|]. exists []. by rewrite !app_nil_r.
  - unfold bind.
    destruct (submit_task st opt_spec sm (key, molecule) w) as [w1 [[]|e]] eqn:E;
      [|done].
    intros (Hid & new & Hk & Hn & Hd & Ho)%IH.
    apply submit_task_appends in E as (Hid1 & dep & Hdk & Hdn & Hd1 & Ho1).
    split; [congruence|]. exists (dep :: new). cbn [map].
    split; [by rewrite Hdk, Hk|]. split; [by constructor|].
    rewrite Hd, Hd1, Ho, Ho1, Hid1, <- !app_assoc. done.
Qed.
End Association.

(** X10.  When [submit_optimizations] returns, the dependencies of the
    service are new ones, one per task in the order of the tasks, each
    under the key of its task, and the association table of the record
    has grown by exactly one row per dependency, in the same order, with
    the dependency's record as the optimization, the record of the
    service as the grid optimization and the same key. *)
Theorem submit_optimizations_association `{RootSocket}
    (st : GridoptimizationServiceState) (tasks : list (string * Molecule))
    (w w' : World) :
  submit_optimizations st tasks w = (w', Ok tt) ->
  map extras_key (dependencies (service_orm w')) = map fst tasks /\
  optimizations (go_orm w') =
    optimizations (go_orm w) ++
    map (association (id (go_orm w))) (dependencies (service_orm w')).
Proof.
  unfold submit_optimizations, bind, modify, gets.
  intros (_ & new & Hk & _ & Hd & Ho)%for_M_submit_appends.
  cbn in Hd. rewrite Hd. split; [done|]. exact Ho.
Qed.

(** The first wave of the 3 x 3 scenario: one dependency, one row. *)
Lemma submit_optimizations_association_witness :
  optimizations (go_orm wave1) =
    map (association (id (go_orm wave1))) (dependencies (service_orm wave1)).
Proof.
  set (w := fresh_world [absolute_scan; absolute_scan] false 5%Q).
  let l := eval vm_compute in (@load_state test_socket w) in
  match l with
  | (?w0, Ok ?st0) =>
    let n := eval vm_compute in (@next_wave test_socket st0 w0) in
    match n with
    | (?w1, Ok (?st1, ?tasks, ?out)) =>
      let r := eval vm_compute in (@submit_optimizations test_socket st1 tasks w1) in
      match r with
      | (?w2, Ok tt) =>
        destruct (@submit_optimizations_association test_socket st1 tasks w1 w2)
          as [_ Ho]; [vm_compute; reflexivity|];
        vm_compute in Ho; vm_compute; exact Ho
      end
    end
  end.
Defined.


(** ** Submitting grid points *)

Lemma serialize_tuple_not_preoptimization t :
  String.eqb (serialize_key (KTup t)) "preoptimization" = false.
Proof.
  unfold serialize_key. cbn [key_to_json Json.dumps].
  by rewrite append_cons.
Qed.

Section SubmitGrid.
Context `{RootSocket}.
Variables (st : GridoptimizationServiceState) (keywords : GridoptimizationKeywords).
Hypothesis Hadd : add_always_succeeds.
Hypothesis Hlaid : laid_out_for keywords st.

Lemma task_specification_grid opt_spec sm t :
  Grid.in_bounds (dimensions st) (KTup t) ->
  exists cs,
    task_specification st opt_spec (scans keywords) (Some sm)
      (serialize_key (KTup t)) =
    Ok {| opt_fields := opt_fields opt_spec;
          constraints_set := constraints_set opt_spec ++ cs |}.
Proof.
  intros Hb. unfold task_specification.
  rewrite serialize_tuple_not_preoptimization.
  rewrite (deserialize_key_of_json (KTup t)) by apply loads_serialize_key.
  cbn [res_bind]. destruct Hlaid as [Hdim Htpl].
  destruct (construct_constraints_scans (scans keywords) st sm t) as (cs & Hcs & _).
  - exact Htpl.
  - by rewrite Hdim in Hb.
  - rewrite Hcs. by exists cs.
Qed.

Lemma submit_task_grid opt_spec sm t molecule w :
  keywords = Service.keywords (specification (go_orm w)) ->
  Grid.in_bounds (dimensions st) (KTup t) ->
  exists w', submit_task st opt_spec (Some sm) (serialize_key (KTup t), molecule) w
             = (w', Ok tt).
Proof.
  intros Hkw Hb. unfold submit_task, bind, gets, lift. rewrite <- Hkw.
  destruct (task_specification_grid opt_spec sm t Hb) as (cs & ->).
  unfold add_optimization.
  destruct (Hadd (session w) {| opt_fields := opt_fields opt_spec;
                                constraints_set := constraints_set opt_spec ++ cs |}
              [molecule] (tag (service_orm w)) (priority (service_orm w)))
    as (s' & opt_id & opt_ids & ->).
  cbn [negb]. unfold modify. by eexists.
Qed.

Lemma for_M_submit_grid opt_spec sm tasks : forall w,
  keywords = Service.keywords (specification (go_orm w)) ->
  Forall (fun task : string * Molecule =>
            exists t, task.1 = serialize_key (KTup t) /\
                      Grid.in_bounds (dimensions st) (KTup t)) tasks ->
  exists w', for_M tasks (submit_task st opt_spec (Some sm)) w = (w', Ok tt).
Proof.
  induction tasks as [|[key molecule] tasks IH]; intros w Hkw Hall; cbn [for_M].
  - by eexists.
  - apply Forall_cons in Hall as [(t & Hk & Hb) Hall]. cbn [fst] in Hk. subst key.
    destruct (submit_task_grid opt_spec sm t molecule w Hkw Hb) as [w1 Hw1].
    unfold bind. rewrite Hw1. apply IH; [|done].
    pose proof (submit_frame_task
      (fun w' => keywords = Service.keywords (specification (go_orm w')))
      st opt_spec (Some sm) (serialize_key (KTup t), molecule)) as Hp.
    specialize (Hp ltac:(by split_and!) w Hkw). by rewrite Hw1 in Hp.
Qed.

Lemma submit_optimizations_grid tasks smo w :
  keywords = Service.keywords (specification (go_orm w)) ->
  starting_molecule (go_orm w) = Some smo ->
  Forall (fun task : string * Molecule =>
            exists t, task.1 = serialize_key (KTup t) /\
                      Grid.in_bounds (dimensions st) (KTup t)) tasks ->
  exists w', submit_optimizations st tasks w = (w', Ok tt).
Proof.
  intros Hkw Hsm Hall. unfold submit_optimizations, bind, modify, gets.
  cbn. unfold go_orm in *. rewrite Hsm. cbn [fmap option_fmap option_map].
  by apply for_M_submit_grid.
Qed.

(** What a finished call leaves for the next one. *)
Lemma finish_normal_iterating tasks out ks w w' done :
  keywords = Service.keywords (specification (go_orm w)) ->
  status (go_orm w) = RecordStatusEnum.running ->
  has_history w ->
  is_Some (starting_molecule (go_orm w)) ->
  0 < iteration st ->
  finish st tasks out w = (w', Ok done) ->
  service_state (service_orm w') = Some st ->
  map extras_key (dependencies (service_orm w')) = map serialize_key ks ->
  Forall (Grid.in_bounds (dimensions st)) ks ->
  normal_iterating w' st ks.
Proof.
  intros Hkw Hrun Hh Hsm Hi Hf Hst Hk Hb.
  pose proof (submit_frame_finish
    (fun w' => status (go_orm w') = RecordStatusEnum.running /\
               has_history w' /\
               is_Some (starting_molecule (go_orm w')) /\
               keywords = Service.keywords (specification (go_orm w')))
    st tasks out) as Hp.
  destruct (Hp ltac:(by split_and!) ltac:(done)) with (w := w)
    as (Hrun' & Hh' & Hsm' & Hkw').
  - intros init e p o w0 (? & ? & ? & ?) _. split_and!; try done.
    unfold has_history. cbn. by destruct init.
  - done.
  - rewrite Hf in *. cbn [fst] in *. unfold normal_iterating.
    rewrite <- Hkw'. by split_and!.
Qed.

(** From the starting point on: the submission of the one task that
    starts the normal iterations. *)
Lemma start_normal_iterations grid molecule smo out w :
  keywords = Service.keywords (specification (go_orm w)) ->
  status (go_orm w) = RecordStatusEnum.running ->
  0 < iteration st ->
  starting_molecule (go_orm w) = Some smo ->
  starting_grid (go_orm w) = Some grid ->
  Grid.in_bounds (dimensions st) (KTup grid) ->
  has_history w ->
  exists w',
    finish st [(serialize_key (KTup grid), molecule)] out w = (w', Ok false) /\
    starting_molecule (go_orm w') = Some smo /\
    starting_grid (go_orm w') = Some grid /\
    normal_iterating w' st [KTup grid].
Proof.
  intros Hkw Hrun Hi Hsm Hsg Hb Hh.
  destruct (submit_optimizations_grid [(serialize_key (KTup grid), molecule)] smo w)
    as [w2 Hw2]; [done|done| |].
  { constructor; [|done]. by exists grid. }
  assert (Hne : [(serialize_key (KTup grid), molecule)] <> []) by done.
  destruct (finish_tasks_ok st _ out w w2 Hne Hh Hw2) as (w' & Hf & Hst & Hd).
  exists w'. split; [exact Hf|].
  pose proof (submit_frame_finish
    (fun w' => starting_molecule (go_orm w') = Some smo /\
               starting_grid (go_orm w') = Some grid)
    st [(serialize_key (KTup grid), molecule)] out) as Hp.
  specialize (Hp ltac:(by split_and!) ltac:(done) ltac:(by intros ???????) w
                 (conj Hsm Hsg)).
  rewrite Hf in Hp. destruct Hp as [Hsm' Hsg']. split; [done|]. split; [done|].
  apply (finish_normal_iterating [(serialize_key (KTup grid), molecule)] out
           [KTup grid] w w' false); try done.
  - rewrite Hd. by rewrite (submit_optimizations_keys st _ w w2 Hw2).
  - by constructor.
Qed.
End SubmitGrid.

Section Start.
Context `{RootSocket}.

Lemma laid_out_for_set_iteration keywords st i :
  laid_out_for keywords st -> laid_out_for keywords (set_iteration i st).
Proof. by intros [??]. Qed.

Lemma laid_out_for_starting_grid keywords st molecule grid :
  laid_out_for keywords st ->
  calculate_starting_grid (scans keywords) molecule = Ok grid ->
  Grid.in_bounds (dimensions st) (KTup grid).
Proof.
  intros [Hdim _] Hgrid. rewrite Hdim.
  by destruct (starting_grid_indices (scans keywords) molecule grid Hgrid).
Qed.

Lemma next_wave_first st grid w :
  iteration st = 0 ->
  calculate_starting_grid (scans (keywords (specification (go_orm w))))
    (to_model (initial_molecule (go_orm w))) = Ok grid ->
  next_wave st w =
    (set_starting_grid (Some grid)
       (set_starting_molecule (Some (initial_molecule (go_orm w))) w),
     Ok (set_iteration 1 st,
         [(serialize_key (KTup grid), to_model (initial_molecule (go_orm w)))],
         [StartingFirstIterations])).
Proof.
  intros Hi Hgrid. unfold next_wave. rewrite Hi.
  rewrite !bool_decide_eq_false_2 by done. rewrite bool_decide_eq_true_2 by done.
  unfold bind, gets, modify, lift, ret, go_orm in *. cbn. by rewrite Hgrid.
Qed.

Lemma next_wave_finished_preoptimization st dep fm grid w :
  iteration st = -1 ->
  dependencies (service_orm w) = [dep] ->
  record_final_molecule dep = Some fm ->
  calculate_starting_grid (scans (keywords (specification (go_orm w))))
    (to_model fm) = Ok grid ->
  next_wave st w =
    (set_starting_grid (Some grid) (set_starting_molecule (Some fm) w),
     Ok (set_iteration 1 st,
         [(serialize_key (KTup grid), to_model fm)],
         [FoundFinishedPreoptimization])).
Proof.
  intros Hi Hdeps Hfm Hgrid. unfold next_wave. rewrite Hi.
  rewrite bool_decide_eq_false_2 by done. rewrite bool_decide_eq_true_2 by done.
  unfold bind, gets, modify, lift, ret, final_molecule, go_orm in *.
  rewrite Hdeps, Hfm. cbn. by rewrite Hgrid.
Qed.

Lemma starting_grid_exists scans molecule :
  Forall (fun scan => steps scan <> []) scans ->
  exists grid, calculate_starting_grid scans molecule = Ok grid.
Proof.
  intros Hne.
  destruct (calculate_starting_grid_loop molecule scans [] []) as (g & Hg & _);
    [|done|by exists g].
  split; [done|]. intros d scan Hd. by rewrite lookup_nil in Hd.
Qed.
End Start.

Lemma iterate_frame_identity `{RootSocket} x :
  iterate_frame (fun w => identity w = x).
Proof.
  unfold iterate_frame, submit_frame, history_clause.
  split_and!; try (intros ? w Hw; exact Hw); try (intros w Hw; exact Hw).
  intros init e p out w Hw _. exact Hw.
Qed.

Lemma in_bounds_grid_point (dimensions : list Z) (t : list Z) :
  Grid.in_bounds dimensions (KTup t) -> length t = length dimensions ->
  grid_point dimensions (KTup t).
Proof.
  intros Hb Hlen. exists t. split; [done|].
  apply Forall2_same_length_lookup_2; [done|].
  intros i x dim Hx Hd. destruct (Hb i dim Hd) as (y & Hy & Hrange). congruence.
Qed.

(** The service covers the grid when it starts its normal iterations. *)
Lemma covering_start `{RootSocket} (w : World) (st : GridoptimizationServiceState)
    (grid : list Z) :
  normal_iterating w st [KTup grid] -> complete st = [] ->
  length grid = length (dimensions st) ->
  covering w st [KTup grid].
Proof.
  intros Hn Hc Hlen. pose proof Hn as (_ & _ & _ & _ & _ & _ & _ & Hb).
  apply Forall_cons in Hb as [Hb _].
  unfold covering. rewrite Hc. split_and!; try done.
  - apply NoDup_singleton.
  - constructor; [|done]. by apply in_bounds_grid_point.
  - constructor.
  - intros k _ Hin. by apply elem_of_nil in Hin.
  - intros t d x dim disp Hin. by apply elem_of_nil in Hin.
Qed.

(** X11.  The first call on a waiting service without preoptimization,
    when every scan has a step and [optimization.add] accepts the
    submission: the call returns [done = false]; the starting molecule of
    the record is its initial molecule and its starting grid the grid
    that [calculate_starting_grid] finds for it; and the service is left
    in its normal iterations and covering the grid, the state stored at
    iteration 1 with nothing complete and the one dependency keyed with
    the serialized starting grid. *)
Theorem iterate_service_first_iteration `{RootSocket} (w : World) :
  add_always_succeeds ->
  status (go_orm w) = RecordStatusEnum.waiting ->
  has_history w ->
  preoptimization (keywords (specification (go_orm w))) = false ->
  Forall (fun scan => steps scan <> []) (scans (keywords (specification (go_orm w)))) ->
  exists w' grid,
    iterate_service w = (w', Ok false) /\
    calculate_starting_grid (scans (keywords (specification (go_orm w))))
      (to_model (initial_molecule (go_orm w))) = Ok grid /\
    starting_molecule (go_orm w') = Some (initial_molecule (go_orm w)) /\
    starting_grid (go_orm w') = Some grid /\
    covering w'
      (set_iteration 1 (created_state (keywords (specification (go_orm w)))))
      [KTup grid].
Proof.
  intros Hadd Hs Hh Hpre Hne.
  set (kw := keywords (specification (go_orm w))) in *.
  destruct (load_state_waiting w Hs Hh) as (w1 & Hl & Hrun & init & e & Hh1 & _).
  fold kw in Hl.
  pose proof (iterate_frame_load_state _ (iterate_frame_identity (identity w))
                w eq_refl) as Hid.
  rewrite Hl in Hid. cbn [fst] in Hid. injection Hid as _ _ _ _ Hspec Hinit.
  destruct (starting_grid_exists (scans kw) (to_model (initial_molecule (go_orm w))) Hne)
    as [grid Hgrid].
  assert (Hkw1 : keywords (specification (go_orm w1)) = kw) by (by rewrite Hspec).
  assert (Hnext := next_wave_first (created_state kw) grid w1).
  rewrite Hkw1, Hinit in Hnext.
  specialize (Hnext ltac:(cbn; by rewrite Hpre) Hgrid).
  destruct (start_normal_iterations (set_iteration 1 (created_state kw)) kw Hadd
              ltac:(done) grid (to_model (initial_molecule (go_orm w)))
              (initial_molecule (go_orm w)) [StartingFirstIterations]
              (set_starting_grid (Some grid)
                 (set_starting_molecule (Some (initial_molecule (go_orm w))) w1)))
    as (w' & Hf & Hsm & Hsg & Hinv).
  - by rewrite <- Hkw1.
  - exact Hrun.
  - done.
  - done.
  - done.
  - by destruct (starting_grid_indices (scans kw) _ grid Hgrid).
  - unfold has_history, go_orm in *. cbn. rewrite Hh1. by destruct init.
  - exists w', grid. unfold iterate_service, continue_from.
    rewrite (bind_ok _ _ _ _ _ Hl), (bind_ok _ _ _ _ _ Hnext). split_and!; try done.
    apply covering_start; [done|done|].
    destruct (starting_grid_indices (scans kw) _ grid Hgrid) as [Hlen _].
    cbn. by rewrite length_map.
Qed.

(** A fresh service over a scan of three steps, from a molecule that
    measures 6: the starting grid is the step 5, of index 1. *)
Lemma iterate_service_first_iteration_witness :
  exists w',
    @iterate_service test_socket (fresh_world [absolute_scan] false 6%Q) = (w', Ok false) /\
    starting_grid (go_orm w') = Some [1] /\
    map (@extras_key test_socket) (dependencies (service_orm w')) = ["[1]"%string].
Proof.
  destruct (@iterate_service_first_iteration test_socket
              (fresh_world [absolute_scan] false 6%Q))
    as (w' & grid & Hit & Hgrid & _ & Hsg & Hinv).
  - intros s spec mols tg pr. by eexists _, _, _.
  - reflexivity.
  - discriminate.
  - reflexivity.
  - repeat constructor; discriminate.
  - exists w'. vm_compute in Hgrid. injection Hgrid as <-.
    split; [exact Hit|]. split; [exact Hsg|].
    by destruct Hinv as ((_ & _ & _ & _ & _ & _ & Hk & _) & _).
Defined.

(** X12.  The call that finds the preoptimization finished, when every
    scan has a step and [optimization.add] accepts the submission: on a
    running service whose stored state is at iteration -1 and whose one
    dependency has a final molecule, the call returns [done = false];
    the starting molecule of the record is that final molecule and its
    starting grid the grid that [calculate_starting_grid] finds for it;
    and the service is left in its normal iterations, the state stored
    at iteration 1 (the iteration 0 skipped) and the one new dependency
    keyed with the serialized starting grid; it covers the grid when
    the stored state had nothing complete. *)
Theorem iterate_service_after_preoptimization `{RootSocket}
    (w : World) (st : GridoptimizationServiceState)
    (dep : ServiceDependenciesORM) (fm : MoleculeORM) :
  add_always_succeeds ->
  status (go_orm w) = RecordStatusEnum.running ->
  has_history w ->
  service_state (service_orm w) = Some st ->
  iteration st = -1 ->
  laid_out_for (keywords (specification (go_orm w))) st ->
  dependencies (service_orm w) = [dep] ->
  record_final_molecule dep = Some fm ->
  Forall (fun scan => steps scan <> []) (scans (keywords (specification (go_orm w)))) ->
  exists w' grid,
    iterate_service w = (w', Ok false) /\
    calculate_starting_grid (scans (keywords (specification (go_orm w))))
      (to_model fm) = Ok grid /\
    starting_molecule (go_orm w') = Some fm /\
    starting_grid (go_orm w') = Some grid /\
    normal_iterating w' (set_iteration 1 st) [KTup grid] /\
    (complete st = [] -> covering w' (set_iteration 1 st) [KTup grid]).
Proof.
  intros Hadd Hs Hh Hst Hi Hlaid Hdeps Hfm Hne.
  set (kw := keywords (specification (go_orm w))) in *.
  pose proof (load_state_running w st Hs Hst) as Hl.
  destruct (starting_grid_exists (scans kw) (to_model fm) Hne) as [grid Hgrid].
  pose proof (next_wave_finished_preoptimization st dep fm grid w Hi Hdeps Hfm Hgrid)
    as Hnext.
  destruct (start_normal_iterations (set_iteration 1 st) kw Hadd
              (laid_out_for_set_iteration kw st 1 Hlaid) grid (to_model fm) fm
              [FoundFinishedPreoptimization]
              (set_starting_grid (Some grid) (set_starting_molecule (Some fm) w)))
    as (w' & Hf & Hsm & Hsg & Hinv); try done.
  - by apply (laid_out_for_starting_grid kw st (to_model fm)).
  - exists w', grid. unfold iterate_service, continue_from.
    rewrite (bind_ok _ _ _ _ _ Hl), (bind_ok _ _ _ _ _ Hnext). split_and!; try done.
    intros Hc. apply covering_start; [done|done|].
    destruct (starting_grid_indices (scans kw) _ grid Hgrid) as [Hlen _].
    destruct Hlaid as [Hdim _]. cbn [dimensions set_iteration].
    rewrite Hdim. cbn. by rewrite length_map.
Qed.

(** A service with preoptimization after its first call, the
    preoptimization finished in the molecule that measures 0. *)
Lemma iterate_service_after_preoptimization_witness :
  exists w',
    @iterate_service test_socket
      (complete_dependencies
         (@iterate_service test_socket (fresh_world [absolute_scan] true 6%Q)).1)
      = (w', Ok false) /\
    starting_grid (go_orm w') = Some [0] /\
    map (@extras_key test_socket) (dependencies (service_orm w')) = ["[0]"%string].
Proof.
  set (w := complete_dependencies
              (@iterate_service test_socket (fresh_world [absolute_scan] true 6%Q)).1).
  let s := eval vm_compute in (service_state (service_orm w)) in
  let d := eval vm_compute in (dependencies (service_orm w)) in
  match s with
  | Some ?st =>
    match d with
    | [?dep] =>
      let f := eval vm_compute in (record_final_molecule dep) in
      match f with
      | Some ?fm =>
        destruct (@iterate_service_after_preoptimization test_socket w st dep fm)
          as (w' & grid & Hit & Hgrid & _ & Hsg & (_ & _ & _ & _ & _ & _ & Hk & _) & _);
          [ intros s0 spec mols tg pr; by eexists _, _, _
          | reflexivity | discriminate | vm_compute; reflexivity | reflexivity
          | split; reflexivity | vm_compute; reflexivity | reflexivity
          | repeat constructor; discriminate | ];
        exists w'; vm_compute in Hgrid; injection Hgrid as <-;
        split; [exact Hit|]; split; [exact Hsg|exact Hk]
      end
    end
  end.
Defined.

(** One normal iteration, with all that the driver and the submission
    establish. *)
Lemma normal_iteration `{RootSocket}
    (w : World) (st : GridoptimizationServiceState) (ks : list key) :
  add_always_succeeds ->
  normal_iterating w st ks ->
  Forall (fun dep => is_Some (record_final_molecule dep)) (dependencies (service_orm w)) ->
  exists w' st' tasks out,
    expand_wave st (dependencies (service_orm w)) = Ok (st', tasks, out) /\
    iterate_service w = (w', Ok (bool_decide (tasks = []))) /\
    (forall k, k ∈ complete st' <-> k ∈ complete st \/ k ∈ ks) /\
    dimensions st' = dimensions st /\
    NoDup (complete st') /\
    (tasks = [] ->
       dependencies (service_orm w') = dependencies (service_orm w) /\
       normal_iterating w' st' ks) /\
    (tasks <> [] ->
       exists ns, tasks.*1 = map serialize_key ns /\ normal_iterating w' st' ns) /\
    NoDup tasks.*1 /\
    (forall t d x dim disp,
       KTup t ∈ ks -> t !! d = Some x -> dimensions st !! d = Some dim ->
       disp = -1 \/ disp = 1 -> 0 <= x + disp < dim ->
       KTup (<[d := x + disp]> t) ∉ complete st ->
       KTup (<[d := x + disp]> t) ∉ ks ->
       serialize_key (KTup (<[d := x + disp]> t)) ∈ tasks.*1) /\
    forall key m, (key, m) ∈ tasks ->
      exists s n dep fm,
        key = serialize_key n /\ Grid.in_bounds (dimensions st) n /\
        (n ∉ complete st) /\ (n ∉ ks) /\ (s ∈ ks) /\ Grid.one_step s n /\
        dep ∈ dependencies (service_orm w) /\ extras_key dep = serialize_key s /\
        record_final_molecule dep = Some fm /\ m = to_model fm.
Proof.
  intros Hadd (Hs & Hh & [smo Hsm] & Hst & Hi & Hlaid & Hkeys & Hb) Hfm.
  set (kw := keywords (specification (go_orm w))) in *.
  pose proof (load_state_running w st Hs Hst) as Hl.
  destruct (expand_wave_ok st (dependencies (service_orm w)) ks Hkeys Hb Hfm)
    as (st' & tasks & out & Hwave & Hit & Hdim & Htpl & Hc & Hndc & Hnd & Hns & Hfront & Htasks).
  assert (Hnext : next_wave st w = (w, Ok (st', tasks, out))).
  { unfold next_wave. rewrite !bool_decide_eq_false_2 by lia.
    unfold bind, gets, lift. by rewrite Hwave. }
  assert (Hlaid' : laid_out_for kw st').
  { destruct Hlaid as [H1 H2]. split; congruence. }
  assert (Hiter : iterate_service w = finish st' tasks out w).
  { unfold iterate_service, continue_from.
    by rewrite (bind_ok _ _ _ _ _ Hl), (bind_ok _ _ _ _ _ Hnext). }
  assert (Hinv : forall w' done ks',
            finish st' tasks out w = (w', Ok done) ->
            service_state (service_orm w') = Some st' ->
            map extras_key (dependencies (service_orm w')) = map serialize_key ks' ->
            Forall (Grid.in_bounds (dimensions st)) ks' ->
            normal_iterating w' st' ks').
  { intros w' done ks' Hf Hst' Hk' Hb'.
    apply (finish_normal_iterating st' kw Hlaid' tasks out ks' w w' done);
      try done; [lia|by rewrite Hdim]. }
  destruct tasks as [|task tasks].
  - destruct (finish_no_tasks st' out w Hh) as (w' & Hf & Hst' & Hd).
    exists w', st', [], out. rewrite Hiter, Hf.
    rewrite bool_decide_eq_true_2 by done. split_and!; try done.
    intros _. split; [done|]. apply (Hinv w' true ks Hf Hst'); [|done].
    by rewrite Hd.
  - set (tasks' := task :: tasks) in *.
    assert (Hne : tasks' <> []) by done.
    destruct Hns as (ns & Hns & Hbns).
    destruct (submit_optimizations_grid st' kw Hadd Hlaid' tasks' smo w) as [w2 Hw2];
      [done|done| |].
    { apply Forall_forall. intros [key m] Hin.
      destruct (Htasks key m Hin) as (s & n & _ & _ & -> & Hbn & _).
      destruct n as [?|t]; [done|]. exists t. by rewrite Hdim. }
    destruct (finish_tasks_ok st' tasks' out w w2 Hne Hh Hw2) as (w' & Hf & Hst' & Hd).
    exists w', st', tasks', out. rewrite Hiter, Hf.
    rewrite bool_decide_eq_false_2 by done. split_and!; try done.
    intros _. exists ns. split; [done|].
    apply (Hinv w' false ns Hf Hst'); [|done].
    rewrite Hd, (submit_optimizations_keys st' tasks' w w2 Hw2). exact Hns.
Qed.

(** X13.  A normal iteration cannot fail, and it leaves the service ready
    for the next one.  On a service in its normal iterations whose
    dependencies, keyed with the grid points [ks], all have their final
    molecule, and when [optimization.add] accepts every submission: the
    driver returns the wave that [expand_wave] computes, with [ks] added
    to [complete]; the call answers [done] exactly when the wave is
    empty, and then leaves the dependencies alone; otherwise the
    dependencies become one per task; either way the service is in its
    normal iterations again.  The tasks have distinct keys, each the
    serialized text of a grid point within bounds that is neither
    complete nor in [ks], one step from a point of [ks] whose
    dependency's final molecule the task carries. *)
Theorem iterate_service_normal_iteration `{RootSocket}
    (w : World) (st : GridoptimizationServiceState) (ks : list key) :
  add_always_succeeds ->
  normal_iterating w st ks ->
  Forall (fun dep => is_Some (record_final_molecule dep)) (dependencies (service_orm w)) ->
  exists w' st' tasks out,
    expand_wave st (dependencies (service_orm w)) = Ok (st', tasks, out) /\
    iterate_service w = (w', Ok (bool_decide (tasks = []))) /\
    (forall k, k ∈ complete st' <-> k ∈ complete st \/ k ∈ ks) /\
    (tasks = [] ->
       dependencies (service_orm w') = dependencies (service_orm w) /\
       normal_iterating w' st' ks) /\
    (tasks <> [] ->
       exists ns, tasks.*1 = map serialize_key ns /\ normal_iterating w' st' ns) /\
    NoDup tasks.*1 /\
    forall key m, (key, m) ∈ tasks ->
      exists s n dep fm,
        key = serialize_key n /\ Grid.in_bounds (dimensions st) n /\
        (n ∉ complete st) /\ (n ∉ ks) /\ (s ∈ ks) /\ Grid.one_step s n /\
        dep ∈ dependencies (service_orm w) /\ extras_key dep = serialize_key s /\
        record_final_molecule dep = Some fm /\ m = to_model fm.
Proof.
  intros Hadd Hinv Hfm.
  destruct (normal_iteration w st ks Hadd Hinv Hfm)
    as (w' & st' & tasks & out & H1 & H2 & H3 & _ & _ & H4 & H5 & H6 & _ & H7).
  exists w', st', tasks, out. by split_and!.
Qed.

(** The second call of the 3 x 3 scenario: the centre is complete, its
    four neighbours are submitted. *)
Lemma iterate_service_normal_iteration_witness :
  exists w',
    @iterate_service test_socket (complete_dependencies wave1) = (w', Ok false) /\
    length (dependencies (service_orm w')) = 4%nat.
Proof.
  set (w := complete_dependencies wave1).
  let s := eval vm_compute in (service_state (service_orm w)) in
  match s with
  | Some ?st =>
    destruct (@iterate_service_normal_iteration test_socket w st [KTup [1; 1]])
      as (w' & st' & tasks & out & Hwave & Hit & _ & _ & Hk & _);
      [ intros s0 spec mols tg pr; by eexists _, _, _
      | split_and!;
        [ reflexivity | discriminate | by eexists | vm_compute; reflexivity
        | reflexivity | split; reflexivity | vm_compute; reflexivity
        | constructor; [|constructor];
          intros [|[|d]] dim Hd; simplify_eq/=; eexists; (split; [reflexivity|lia]) ]
      | repeat constructor; by eexists
      | ];
    vm_compute in Hwave; injection Hwave as <- <- <-;
    exists w'; split; [exact Hit|];
    destruct Hk as (ns & Hns & _ & _ & _ & _ & _ & _ & Hkeys & _); [discriminate|];
    rewrite <- (length_map extras_key), Hkeys, length_map, <- (length_map serialize_key),
      <- Hns; reflexivity
  end.
Defined.

(** ** Migration 88182596f844, down and up *)

Section Migration.
Import Records.

Lemma names_fresh name table ck :
  name ∈ migration_names -> ck_name ck ∉ migration_names ->
  names name table ck = false.
Proof.
  intros Hn Hck. unfold names.
  destruct (String.eqb_spec (ck_name ck) name) as [Heq|]; [|done].
  by rewrite Heq in Hck.
Qed.

Lemma filter_keeps {A} (f : A -> bool) (l : list A) :
  Forall (fun x => f x = true) l -> List.filter f l = l.
Proof.
  induction 1 as [|x l Hx _ IH]; [done|]. cbn. by rewrite Hx, IH.
Qed.

Lemma drop_constraint_found name table cks c rest nn :
  Forall (fun ck => names name table ck = false) cks ->
  names name table c = true ->
  Forall (fun ck => names name table ck = false) rest ->
  drop_constraint name table {| checks := cks ++ c :: rest; not_null := nn |} =
  Some {| checks := cks ++ rest; not_null := nn |}.
Proof.
  intros Hcks Hc Hrest. unfold drop_constraint. cbn [checks not_null].
  rewrite existsb_app. cbn [existsb]. rewrite Hc, orb_true_r. cbn [orb].
  rewrite List.filter_app. cbn [List.filter]. rewrite Hc. cbn [negb].
  rewrite !filter_keeps; [done| |].
  - eapply Forall_impl; [exact Hrest|]. by intros ck ->.
  - eapply Forall_impl; [exact Hcks|]. by intros ck ->.
Qed.

Lemma drop_constraint_missing name table s :
  Forall (fun ck => names name table ck = false) (checks s) ->
  drop_constraint name table s = None.
Proof.
  intros Hall. unfold drop_constraint.
  replace (existsb (names name table) (checks s)) with false; [done|].
  symmetry. induction Hall as [|ck l Hck _ IH]; [done|]. cbn. by rewrite Hck.
Qed.
End Migration.

(** X14.  On a schema that has none of the migration's seven constraint
    names and whose column [task_queue.base_result_id] is nullable,
    [downgrade] undoes [upgrade]: every drop finds its constraint, and
    the schema is the one before the upgrade.  On such a schema itself
    [downgrade] fails: its first [drop_constraint] finds nothing to
    drop. *)
Theorem downgrade_upgrade (s : Records.Schema) :
  Forall (fun ck => Records.ck_name ck ∉ Records.migration_names) (Records.checks s) ->
  ("task_queue"%string, "base_result_id"%string) ∉ Records.not_null s ->
  Records.downgrade (Records.upgrade s) = Some s /\
  Records.downgrade s = None.
Proof.
  intros Hfresh Hnull. destruct s as [cks nn]. cbn [Records.checks Records.not_null] in *.
  assert (Hf : forall name table, name ∈ Records.migration_names ->
            Forall (fun ck => Records.names name table ck = false) cks).
  { intros name table Hn. eapply Forall_impl; [exact Hfresh|].
    intros ck Hck. by apply names_fresh. }
  assert (Hnn : List.filter
            (fun tc : string * string =>
               negb (String.eqb tc.1 "task_queue" && String.eqb tc.2 "base_result_id"))
            nn = nn).
  { apply filter_keeps. apply Forall_forall. intros [t c] Hin. cbn [fst snd].
    destruct (String.eqb_spec t "task_queue") as [->|]; [|done].
    destruct (String.eqb_spec c "base_result_id") as [->|]; [|done].
    by destruct Hnull. }
  split.
  - unfold Records.upgrade, Records.downgrade, Records.create_check_constraint,
      Records.alter_column_not_null, Records.alter_column_nullable.
    cbn [Records.checks Records.not_null].
    rewrite List.filter_app, Hnn. cbn [List.filter fst snd String.eqb Ascii.eqb
      Bool.eqb andb negb app]. rewrite app_nil_r.
    rewrite <- !app_assoc. cbn [app].
    repeat (rewrite drop_constraint_found;
            [cbn [mbind option_bind]
            | apply Hf; unfold Records.migration_names; set_solver
            | reflexivity
            | repeat constructor]).
    by rewrite app_nil_r.
  - unfold Records.downgrade, Records.alter_column_nullable.
    rewrite drop_constraint_missing; [done|].
    apply Hf. apply list_elem_of_here.
Qed.

(** The empty schema: up and down again. *)
Lemma downgrade_upgrade_witness :
  Records.downgrade (Records.upgrade Records.empty_schema) = Some Records.empty_schema /\
  Records.downgrade Records.empty_schema = None.
Proof.
  apply downgrade_upgrade.
  - constructor.
  - intros Hin. by apply elem_of_nil in Hin.
Defined.

(** ** The getters of the record objects *)

Section PortalFacts.
Import Portal.
Context `{FractalClient}.

Lemma by_id_from answer : forall (d : gmap ObjectId ResultT) x r,
  foldl (fun d x => <[result_id x := x]> d) d answer !! x = Some r ->
  d !! x = Some r \/ (result_id r = x /\ r ∈ answer).
Proof.
  induction answer as [|y answer IH]; intros d x r; cbn [foldl]; [by left|].
  intros [Hd|[Hid Hin]]%IH.
  - destruct (decide (result_id y = x)) as [Heq|Hne].
    + rewrite Heq, lookup_insert_eq in Hd. injection Hd as <-.
      right. split; [done|]. apply list_elem_of_here.
    + rewrite lookup_insert_ne in Hd by done. by left.
  - right. split; [done|]. by apply list_elem_of_further.
Qed.

Lemma by_id_lookup answer x r :
  by_id answer !! x = Some r -> result_id r = x /\ r ∈ answer.
Proof.
  intros [Hd|?]%by_id_from; [|done]. by rewrite lookup_empty in Hd.
Qed.
End PortalFacts.

(** X15.  What [_kvstore_getter] has returned once for a field it returns
    again, from the cache: a second call gives the same value, leaves
    the record as it is and does not reach the server, whatever the
    server holds by then. *)
Theorem kvstore_getter_cached `{Portal.FractalClient}
    (field_name : string) (server server' : Portal.Server)
    (self self' : Portal.RecordBase) (v : Portal.cached) :
  Portal._kvstore_getter field_name server self = (server', self', Ok (Some v)) ->
  forall server2,
    Portal._kvstore_getter field_name server2 self' = (server2, self', Ok (Some v)).
Proof.
  unfold Portal._kvstore_getter, Portal.check_client.
  destruct (Portal.has_client self) eqn:Hc; cbn [negb]; [|done].
  destruct (Portal.field_value self field_name) as [[oid|]|e] eqn:Hf; [| done | done].
  destruct (Portal.cache self !! field_name) as [v0|] eqn:Hcache.
  - intros [= <- <- <-] server2. by rewrite Hc, Hf, Hcache.
  - destruct (Portal.query_kvstore server [oid]) as [server1 answer].
    destruct (answer !! oid) as [v1|]; [|done].
    intros [= <- <- <-] server2. cbn [Portal.has_client Portal.set_cache negb].
    rewrite Hc. cbn [negb].
    replace (Portal.field_value _ field_name) with (Ok (Some oid) : Res (option Portal.ObjectId)).
    unfold Portal.set_cache at 1. cbn [Portal.cache]. by rewrite lookup_insert_eq.
Qed.

(** A record whose stdout has the id 21: the first call asks the server,
    the second does not. *)
Lemma kvstore_getter_cached_witness :
  exists self',
    @Portal.get_stdout Portal.counting_client 0%nat Portal.record_with_stdout
      = (1%nat, self', Ok (Some (@Portal.CValue Portal.counting_client 42%nat))) /\
    @Portal.get_stdout Portal.counting_client 7%nat self'
      = (7%nat, self', Ok (Some (@Portal.CValue Portal.counting_client 42%nat))).
Proof.
  eexists. split; [reflexivity|].
  apply (@kvstore_getter_cached Portal.counting_client "stdout" 0%nat 1%nat
           Portal.record_with_stdout).
  reflexivity.
Defined.

(** X16.  The first [get_trajectory] of a record answers with the result
    records in the order of the ids of [trajectory], one per id and each
    with the id at its place, whatever the order in which the server
    answered and whatever else it answered; each record is one the
    server sent; and a second call gives the same list without reaching
    the server. *)
Theorem get_trajectory_in_order `{Portal.FractalClient}
    (server server' : Portal.Server) (self self' : Portal.OptimizationRecord)
    (v : Portal.cached) :
  Portal.cache (Portal.base self) !! "trajectory"%string = None ->
  Portal.get_trajectory server self = (server', self', Ok v) ->
  exists ids l,
    Portal.trajectory self = Some ids /\
    v = Portal.CResults l /\
    map Portal.result_id l = ids /\
    (forall x, x ∈ l -> x ∈ (Portal.query_results server (Some ids)).2) /\
    forall server2, Portal.get_trajectory server2 self' = (server2, self', Ok v).
Proof.
  intros Hcache. unfold Portal.get_trajectory. rewrite Hcache.
  destruct (Portal.has_client (Portal.base self)); cbn [negb]; [|done].
  destruct (Portal.query_results server (Portal.trajectory self)) as [server1 answer] eqn:Hq.
  cbn zeta. destruct (Portal.trajectory self) as [ids|]; [|done].
  destruct (mapM _ ids) as [l|] eqn:Hl; [|done].
  intros [= <- <- <-]. exists ids, l. split; [done|]. split; [done|].
  apply mapM_Some in Hl. split; [|split].
  - clear Hq. induction Hl as [|x r ids l Hr _ IH]; [done|]. cbn [map].
    apply by_id_lookup in Hr as [-> _]. by rewrite IH.
  - intros x Hx. rewrite Hq. cbn [snd]. apply list_elem_of_lookup in Hx as [i Hi].
    destruct (Forall2_lookup_r _ _ _ _ _ Hl Hi) as (y & _ & Hy).
    by apply by_id_lookup in Hy as [_ ?].
  - intros server2. cbn [Portal.base Portal.set_base Portal.cache Portal.set_cache].
    by rewrite lookup_insert_eq.
Qed.

(** A trajectory of three steps against a server that answers in the
    reverse order. *)
Lemma get_trajectory_in_order_witness :
  exists self',
    @Portal.get_trajectory Portal.counting_client 0%nat Portal.record_with_trajectory
      = (1%nat, self', Ok (@Portal.CResults Portal.counting_client [5; 3; 4]%nat)) /\
    @Portal.get_trajectory Portal.counting_client 9%nat self'
      = (9%nat, self', Ok (@Portal.CResults Portal.counting_client [5; 3; 4]%nat)).
Proof.
  eexists. split; [reflexivity|].
  edestruct (@get_trajectory_in_order Portal.counting_client 0%nat 1%nat
               Portal.record_with_trajectory)
    as (ids & l & _ & _ & _ & _ & Hagain); [reflexivity|reflexivity|].
  apply Hagain.
Defined.


(** ** A refused submission *)

(** X17.  When [optimization.add] reports failure for the first task of a
    wave, [iterate_service] raises "Error adding optimization": by then
    the dependencies of the service have been emptied, nothing has been
    added to the association table, and the state of the iteration is
    not stored. *)
Theorem iterate_service_refused_submission `{RootSocket}
    (w w0 w1 : World) (st0 st1 : GridoptimizationServiceState)
    (key : string) (molecule : Molecule) (tasks : list (string * Molecule))
    (out : list message) (spec2 : OptimizationInputSpecification OptFields)
    (s' : Session) (opt_ids : list nat) :
  load_state w = (w0, Ok st0) ->
  next_wave st0 w0 = (w1, Ok (st1, (key, molecule) :: tasks, out)) ->
  task_specification st1 (optimization_specification (specification (go_orm w1)))
    (scans (keywords (specification (go_orm w1))))
    (to_model <$> starting_molecule (go_orm w1)) key = Ok spec2 ->
  optimization_add (session w1) spec2 [molecule]
    (tag (service_orm w1)) (priority (service_orm w1)) = (s', (false, opt_ids)) ->
  exists w',
    iterate_service w = (w', Raise (RuntimeError ErrorAddingOptimization)) /\
    dependencies (service_orm w') = [] /\
    optimizations (go_orm w') = optimizations (go_orm w1) /\
    service_state (service_orm w') = service_state (service_orm w1) /\
    session w' = s'.
Proof.
  intros Hl Hn Hspec Hadd.
  eexists. split.
  - unfold iterate_service, continue_from.
    rewrite (bind_ok _ _ _ _ _ Hl), (bind_ok _ _ _ _ _ Hn).
    apply finish_tasks_raise; [done|].
    unfold submit_optimizations, for_M, submit_task, bind, modify, gets, lift,
      add_optimization, go_orm in *.
    cbn. rewrite Hspec. cbn. rewrite Hadd. cbn. reflexivity.
  - by split_and!.
Qed.

(** The first call on a service with preoptimization whose submission is
    refused: the stale dependency is gone and no state is stored. *)
Lemma iterate_service_refused_submission_witness :
  exists w',
    @iterate_service refusing_socket refused_world
      = (w', Raise (RuntimeError ErrorAddingOptimization)) /\
    dependencies (service_orm w') = [] /\
    service_state (service_orm w') = None.
Proof.
  let l := eval vm_compute in (@load_state refusing_socket refused_world) in
  match l with
  | (?w0, Ok ?st0) =>
    let n := eval vm_compute in (@next_wave refusing_socket st0 w0) in
    match n with
    | (?w1, Ok (?st1, (?key, ?molecule) :: ?tasks, ?out)) =>
      destruct (@iterate_service_refused_submission refusing_socket
                  refused_world w0 w1 st0 st1 key molecule tasks out
                  {| opt_fields := tt; constraints_set := [] |} 1%nat [])
        as (w' & Hit & Hd & _ & Hst & _);
        [vm_compute; reflexivity | vm_compute; reflexivity | reflexivity | reflexivity |];
      exists w'; split; [exact Hit|]; split; [exact Hd|exact Hst]
    end
  end.
Defined.

(** ** The statement of a query *)

(** X18.  The statement that [query] builds is well joined: every
    condition compares a column of the table selected from or of a
    table that the statement joins, and every join starts from the
    table selected from or from the target of the join before it.  A
    join is made only for a condition on a joined table, and the
    singlepoint specification is joined only for a condition on it. *)
Theorem query_statement_well_joined {Values : Type}
    (query_data : Query.GridoptimizationQueryBody Values) :
  Query.well_joined (Query.query_statement query_data) /\
  forall r, r ∈ Query.joins (Query.query_statement query_data) ->
    exists c values,
      Query.In_ c values ∈ Query.where_ (Query.query_statement query_data) /\
      Query.table_of c <> Query.GridoptimizationRecordORM /\
      (r = Query.singlepoint_specification ->
       Query.table_of c = Query.SinglepointSpecificationORM).
Proof.
  destruct query_data as [[?|] [?|] [?|] [?|] [?|] [?|]];
    (split; [split|]); cbn.
  all: try (intros c values Hin;
            repeat (apply elem_of_cons in Hin as [[= -> ->]|Hin]);
            try (by apply elem_of_nil in Hin); cbn;
            first [ by left
                  | right; exists Query.singlepoint_specification;
                    split; [|reflexivity]; solve [repeat first [apply list_elem_of_here | apply list_elem_of_further]]
                  | right; exists Query.optimization_specification;
                    split; [|reflexivity]; solve [repeat first [apply list_elem_of_here | apply list_elem_of_further]] ]).
  all: try (intros [|[|[|i]]] r Hr; simplify_eq/=; by eauto).
  all: try (intros r Hin;
            repeat (apply elem_of_cons in Hin as [->|Hin]);
            try (by apply elem_of_nil in Hin);
            eexists _, _; (split; [apply list_elem_of_here|]); by split).
Qed.

(** ** The text of a key *)

Section KeyText.
Import Json.

Lemma printable_append s t : printable (s +:+ t) = printable s && printable t.
Proof.
  induction s as [|c s IH]; [by rewrite append_nil_l|].
  rewrite append_cons. cbn [printable]. by rewrite IH, andb_assoc.
Qed.

Lemma printable_encode_char c : printable (encode_char c) = true.
Proof. destruct c as [[] [] [] [] [] [] [] []]; reflexivity. Qed.

Lemma printable_encode_string s : printable (encode_string s) = true.
Proof.
  unfold encode_string. cbn [printable]. rewrite printable_append.
  assert (printable (encode_chars s) = true) as ->; [|done].
  induction s as [|c s IH]; [done|].
  cbn [encode_chars]. by rewrite printable_append, printable_encode_char, IH.
Qed.

Lemma printable_uint u : printable (NilEmpty.string_of_uint u) = true.
Proof. induction u; cbn; done. Qed.

Lemma printable_repr_int z : printable (repr_int z) = true.
Proof. destruct z; cbn [repr_int printable]; by rewrite ?printable_uint. Qed.

Lemma printable_join_ints l : printable (join ", " (map repr_int l)) = true.
Proof.
  induction l as [|z l IH]; [done|]. destruct l as [|z' l].
  - apply printable_repr_int.
  - change (join ", " (map repr_int (z :: z' :: l)))
      with (repr_int z +:+ ", " +:+ join ", " (map repr_int (z' :: l))).
    by rewrite !printable_append, printable_repr_int, IH.
Qed.
End KeyText.

(** X19.  The text of a serialized key is printable ASCII throughout:
    whatever the characters of a string key and whatever the integers of
    a grid point, [serialize_key] emits no control character and no
    character beyond the tilde. *)
Theorem serialize_key_printable (k : key) : printable (serialize_key k) = true.
Proof.
  unfold serialize_key. destruct k as [s|t]; cbn [key_to_json Json.dumps].
  - apply printable_encode_string.
  - rewrite map_dumps_ints, !printable_append, printable_join_ints. done.
Qed.



(** ** Covering the grid *)

(** A set of points that is closed under the steps within bounds and
    holds one point of the grid holds them all. *)
Section Closed.
Variables (dims : list Z) (C : key -> Prop).
Hypothesis Hclosed : forall t d x dim disp,
  C (KTup t) -> t !! d = Some x -> dims !! d = Some dim ->
  disp = -1 \/ disp = 1 -> 0 <= x + disp < dim ->
  C (KTup (<[d := x + disp]> t)).

Lemma closed_up t d x dim (n : nat) :
  C (KTup t) -> t !! d = Some x -> dims !! d = Some dim ->
  0 <= x -> x + Z.of_nat n < dim ->
  C (KTup (<[d := x + Z.of_nat n]> t)).
Proof.
  intros Ht Hx Hd Hx0. induction n as [|n IH]; intros Hn.
  - replace (x + Z.of_nat 0) with x by lia. by rewrite list_insert_id.
  - replace (x + Z.of_nat (S n)) with (x + Z.of_nat n + 1) by lia.
    rewrite <- (list_insert_insert_eq t d (x + Z.of_nat n + 1) (x + Z.of_nat n)).
    apply (Hclosed _ d (x + Z.of_nat n) dim 1); [apply IH; lia| |done|by right|lia].
    apply list_lookup_insert_eq. by eapply lookup_lt_Some.
Qed.

Lemma closed_down t d x dim (n : nat) :
  C (KTup t) -> t !! d = Some x -> dims !! d = Some dim ->
  x < dim -> 0 <= x - Z.of_nat n ->
  C (KTup (<[d := x - Z.of_nat n]> t)).
Proof.
  intros Ht Hx Hd Hx0. induction n as [|n IH]; intros Hn.
  - replace (x - Z.of_nat 0) with x by lia. by rewrite list_insert_id.
  - replace (x - Z.of_nat (S n)) with (x - Z.of_nat n + -1) by lia.
    rewrite <- (list_insert_insert_eq t d (x - Z.of_nat n + -1) (x - Z.of_nat n)).
    apply (Hclosed _ d (x - Z.of_nat n) dim (-1)); [apply IH; lia| |done|by left|lia].
    apply list_lookup_insert_eq. by eapply lookup_lt_Some.
Qed.

Lemma closed_axis t d x dim y :
  C (KTup t) -> t !! d = Some x -> dims !! d = Some dim ->
  0 <= x < dim -> 0 <= y < dim ->
  C (KTup (<[d := y]> t)).
Proof.
  intros Ht Hx Hd Hx0 Hy. destruct (Z_le_gt_dec x y).
  - replace y with (x + Z.of_nat (Z.to_nat (y - x))) by lia.
    apply (closed_up t d x dim); [done..|lia|lia].
  - replace y with (x - Z.of_nat (Z.to_nat (x - y))) by lia.
    apply (closed_down t d x dim); [done..|lia|lia].
Qed.

Lemma closed_all q ds : forall p pre dpre,
  dims = dpre ++ ds -> length pre = length dpre ->
  Forall2 (fun x dim => 0 <= x < dim) p ds ->
  Forall2 (fun x dim => 0 <= x < dim) q ds ->
  C (KTup (pre ++ p)) -> C (KTup (pre ++ q)).
Proof.
  intros p pre dpre Hdims Hlen Hp Hq. revert p pre dpre Hdims Hlen Hp.
  induction Hq as [|y dim q ds Hy Hq IH]; intros p pre dpre Hdims Hlen Hp.
  - by apply Forall2_nil_inv_r in Hp as ->.
  - apply Forall2_cons_inv_r in Hp as (x & p' & Hx & Hp & ->).
    intros HC.
    assert (HC' : C (KTup (<[length pre := y]> (pre ++ x :: p')))).
    { apply (closed_axis _ _ x dim); [done| | |done|done].
      - by apply list_lookup_middle.
      - rewrite Hdims. by apply list_lookup_middle. }
    rewrite insert_app_r_alt, Nat.sub_diag in HC' by done. cbn in HC'.
    rewrite (cons_middle y pre q), app_assoc.
    apply (IH p' (pre ++ [y]) (dpre ++ [dim])).
    + by rewrite <- app_assoc.
    + rewrite !length_app. cbn. lia.
    + done.
    + by rewrite <- app_assoc.
Qed.
End Closed.

Section CoveringFacts.
Context `{RootSocket}.

Lemma one_step_grid_point dims s n :
  grid_point dims s -> Grid.one_step s n -> Grid.in_bounds dims n ->
  grid_point dims n.
Proof.
  intros (ts & -> & Hts) (t & d & x & [= <-] & Hx & Hn) Hb.
  assert (Hlen : length ts = length dims) by (by eapply Forall2_length).
  destruct Hn as [-> | ->]; apply in_bounds_grid_point; try done;
    by rewrite length_insert.
Qed.
End CoveringFacts.

(** X21.  The service covers the grid, each point once.  On a service
    that covers the grid from where it started, whose dependencies all
    have their final molecule, and when [optimization.add] accepts every
    submission, [iterate_service] returns, and the [complete] list of
    the stored state has grown by the points of the dependencies.  When
    it answers [done = false] the service covers the grid again, with the new
    dependencies: their points are points of the grid that were neither
    complete nor submitted before.  When it answers [done = true] every
    point of the grid is in the [complete] list of the stored state. *)
Theorem iterate_service_covers_grid `{RootSocket}
    (w : World) (st : GridoptimizationServiceState) (ks : list key) :
  add_always_succeeds ->
  covering w st ks ->
  Forall (fun dep => is_Some (record_final_molecule dep)) (dependencies (service_orm w)) ->
  exists w' st' done,
    iterate_service w = (w', Ok done) /\
    service_state (service_orm w') = Some st' /\
    length (complete st') = (length (complete st) + length ks)%nat /\
    (done = false -> exists ns, covering w' st' ns) /\
    (done = true ->
       forall k, grid_point (dimensions st') k -> k ∈ complete st').
Proof.
  intros Hadd (Hn & Hne & Hnd & Hks & Hndc & Hcs & Hdisj & Hclosed) Hfm.
  destruct (normal_iteration w st ks Hadd Hn Hfm)
    as (w' & st' & tasks & out & Hwave & Hit & Hc & Hdim & Hndc' & Hdone & Hmore
        & Hndt & Hfront & Htasks).
  assert (Hlen : length (complete st') = (length (complete st) + length ks)%nat).
  { rewrite <- length_app. apply Permutation_length.
    apply NoDup_Permutation; [done| |].
    - apply NoDup_app. split; [done|]. split; [|done].
      intros k Hk1 Hk2. by apply (Hdisj k).
    - intros k. rewrite elem_of_app. apply Hc. }
  assert (Hinj : Inj (=) (=) serialize_key).
  { intros k1 k2 Heq. apply key_to_json_inj.
    pose proof (loads_serialize_key k1) as H1.
    rewrite Heq, loads_serialize_key in H1. by injection H1. }
  (* the neighbours of a complete point after the call *)
  assert (Hnext : forall t d x dim disp,
            KTup t ∈ complete st' -> t !! d = Some x ->
            dimensions st !! d = Some dim ->
            disp = -1 \/ disp = 1 -> 0 <= x + disp < dim ->
            KTup (<[d := x + disp]> t) ∈ complete st' \/
            serialize_key (KTup (<[d := x + disp]> t)) ∈ tasks.*1).
  { intros t d x dim disp [Hin|Hin]%Hc Hx Hd Hdisp Hrange.
    - left. apply Hc. by apply (Hclosed t d x dim disp).
    - destruct (decide (KTup (<[d := x + disp]> t) ∈ complete st)) as [?|Hnc];
        [left; apply Hc; by left|].
      destruct (decide (KTup (<[d := x + disp]> t) ∈ ks)) as [?|Hnk];
        [left; apply Hc; by right|].
      right. by apply (Hfront t d x dim disp). }
  exists w', st', (bool_decide (tasks = [])). split; [exact Hit|].
  destruct tasks as [|task tasks].
  - destruct (Hdone eq_refl) as [_ Hn']. split; [by destruct Hn' as (_ & _ & _ & ? & _)|].
    split; [exact Hlen|].
    split; [by rewrite bool_decide_eq_true_2|]. intros _ k (q & -> & Hq).
    destruct ks as [|k0 ks]; [done|].
    apply Forall_cons in Hks as [(p & -> & Hp) _].
    rewrite Hdim in Hq.
    apply (closed_all (dimensions st) (fun k => k ∈ complete st') ) with
      (ds := dimensions st) (p := p) (pre := []) (dpre := []); try done.
    + intros t d x dim disp Ht Hx Hd Hdisp Hrange.
      destruct (Hnext t d x dim disp Ht Hx Hd Hdisp Hrange) as [?|Hin]; [done|].
      by apply elem_of_nil in Hin.
    + apply Hc. right. apply list_elem_of_here.
  - set (tasks' := task :: tasks) in *.
    destruct (Hmore ltac:(done)) as (ns & Hns & Hn').
    split; [by destruct Hn' as (_ & _ & _ & ? & _)|].
    split; [exact Hlen|].
    split; [|by rewrite bool_decide_eq_false_2]. intros _. exists ns.
    assert (Hsound : forall n, n ∈ ns ->
              grid_point (dimensions st) n /\ (n ∉ complete st) /\ (n ∉ ks)).
    { intros n Hin.
      assert (Hk : serialize_key n ∈ tasks'.*1)
        by (rewrite Hns; by apply (list_elem_of_fmap_2 serialize_key)).
      apply list_elem_of_fmap in Hk as ([key m] & Hkey & Hk). cbn [fst] in Hkey.
      destruct (Htasks key m Hk) as (s & n' & _ & _ & Hkn & Hb & Hnc & Hnk & Hs & Hstep & _).
      assert (n' = n) as -> by (apply Hinj; congruence).
      split; [|done]. apply (one_step_grid_point _ s); [|done|done].
      rewrite Forall_forall in Hks. by apply Hks. }
    unfold covering. rewrite Hdim. split_and!.
    + exact Hn'.
    + intros ->. by subst tasks'.
    + apply (NoDup_fmap_1 serialize_key).
      change (NoDup (map serialize_key ns)). by rewrite <- Hns.
    + apply Forall_forall. intros n Hin. by apply Hsound.
    + exact Hndc'.
    + apply Forall_forall. intros k [Hin|Hin]%Hc.
      * rewrite Forall_forall in Hcs. by apply Hcs.
      * rewrite Forall_forall in Hks. by apply Hks.
    + intros n Hin [Hc1|Hc2]%Hc; by destruct (Hsound n Hin) as (_ & ? & ?).
    + intros t d x dim disp Ht Hx Hd Hdisp Hrange.
      destruct (Hnext t d x dim disp Ht Hx Hd Hdisp Hrange) as [?|Hin]; [by left|].
      right. rewrite Hns in Hin. change (map ?f ?l) with (f <$> l) in Hin.
      by apply (list_elem_of_fmap_1 serialize_key) in Hin as (n & ->%Hinj & ?).
Qed.

(** The second call of the 3 x 3 scenario: from the centre alone the
    service goes on to cover the grid with the four neighbours. *)
Lemma iterate_service_covers_grid_witness :
  exists w' st' ns,
    @iterate_service test_socket (complete_dependencies wave1) = (w', Ok false) /\
    length ns = 4%nat /\
    @covering test_socket w' st' ns.
Proof.
  set (w := complete_dependencies wave1).
  let s := eval vm_compute in (service_state (service_orm w)) in
  match s with
  | Some ?st =>
    destruct (@iterate_service_covers_grid test_socket w st [KTup [1; 1]])
      as (w' & st' & done & Hit & _ & _ & Hmore & _);
      [ intros s0 spec mols tg pr; by eexists _, _, _
      | split_and!;
        [ split_and!;
          [ reflexivity | discriminate | by eexists | vm_compute; reflexivity
          | reflexivity | split; reflexivity | vm_compute; reflexivity
          | constructor; [|constructor];
            intros [|[|d]] dim Hd; simplify_eq/=; eexists; (split; [reflexivity|lia]) ]
        | discriminate
        | apply NoDup_singleton
        | constructor; [|constructor]; eexists; split; [reflexivity|];
          repeat constructor; lia
        | constructor
        | constructor
        | intros k _ Hin; by apply elem_of_nil in Hin
        | intros t d x dim disp Hin; by apply elem_of_nil in Hin ]
      | repeat constructor; by eexists
      | ];
    assert (Hdone : done = false)
      by (vm_compute in Hit; by injection Hit as _ <-);
    subst done; destruct (Hmore eq_refl) as [ns Hcov];
    exists w', st', ns; split; [exact Hit|]; split; [|exact Hcov];
    pose proof Hcov as ((_ & _ & _ & _ & _ & _ & Hk & _) & _);
    apply (f_equal length) in Hk; rewrite !length_map in Hk; rewrite <- Hk;
    vm_compute in Hit; injection Hit as <-; reflexivity
  end.
Defined.
